(** * Forward+ render system: a shallow embedding of [RenderSystem]

    The C++ class [RenderSystem] (Init, Shutdown, Render, InitView, Update,
    renderModels, setupLightBuffers, setupLightStorageBuffer, RandomPosition,
    UpdateLights) is embedded as pure functions over an explicit record of
    its members and an explicit record of the OpenGL server state it writes.
    GL calls that only matter through their order are collected in a trace.

    Numbers.  [unsigned int] values are [Z] with the wrap-around at [2^32]
    written out.  [float] and [double] values are rationals; every
    arithmetic operation is followed by the rounding of its C++ result type,
    taken from a [Rounding] record ([RF] rounds to binary32, [RD] to
    binary64).  The instance [ieee] rounds to nearest, ties to even, with
    gradual underflow and an unbounded exponent: it is the IEEE result
    wherever that result is finite.  Overflow to infinity and NaN are not
    values of the model: where an input (the time step of [UpdateLights])
    can drive a result beyond the finite range, the statement assumes
    that it does not ([fall_in_range]) or proves it.  [exact_arith] (no
    rounding at all) is not the arithmetic of the program: it is the
    reference that the results of the program are compared with.

    Integers.  [unsigned int] and [std::size_t] products wrap around at
    [2^32] and [2^64]; a value passed for a [GLsizei] or a [GLsizeiptr]
    is converted to the signed type.

    Evaluation order.  C++ leaves the order in which the arguments of a
    call are evaluated to the compiler; where the arguments draw from the
    random generator, the order is a parameter ([ArgOrder]).

    Static variables.  The function-local [static] references of [Render]
    are bound once per process; they are a state of their own
    ([RenderStatics]) that [Render] takes and returns.

    Constants.  [MAX_NUM_LIGHTS], [LIGHT_MIN_BOUNDS], [LIGHT_MAX_BOUNDS]
    and the type [VisibleLightIndex] are declared in RenderSystem.h; they
    (of the type, its size) are the fields of a [Consts] record that the
    light functions take as an argument. *)

From Stdlib Require Import ZArith QArith Qabs Qround Qpower Lqa Lia.
From stdpp Require Import gmap strings list.

Local Open Scope Z_scope.

(** ** Machine integers *)

Module UInt.

Definition modulus : Z := 2 ^ 32.

(** Reduction of a mathematical result to [unsigned int]. *)
Definition wrap (x : Z) : Z := x mod modulus.

Definition add (a b : Z) : Z := wrap (a + b).
Definition mul (a b : Z) : Z := wrap (a * b).
Definition rem (a b : Z) : Z := Z.rem a b.
Definition div (a b : Z) : Z := Z.quot a b.

End UInt.

(** [std::size_t], 64 bits wide. *)
Module SizeT.

Definition modulus : Z := 2 ^ 64.
Definition wrap (x : Z) : Z := x mod modulus.
Definition mul (a b : Z) : Z := wrap (a * b).

End SizeT.

(** The conversions at the GL interface: an [unsigned int] passed for a
    [GLsizei] (a 32-bit [int]) and a [std::size_t] passed for a
    [GLsizeiptr] (a 64-bit signed integer) keep their low bits. *)
Definition to_GLsizei (x : Z) : Z := (x + 2 ^ 31) mod 2 ^ 32 - 2 ^ 31.
Definition to_GLsizeiptr (x : Z) : Z := (x + 2 ^ 63) mod 2 ^ 64 - 2 ^ 63.

(** [ceil_div a b] is the mathematical ceiling of [a / b] for [0 < b]. *)
Definition ceil_div (a b : Z) : Z := (a + b - 1) / b.

(** ** Floating point *)

Module FP.

Local Open Scope Q_scope.

(** [pow2 e] is [2^e] for any integer exponent. *)
Definition pow2 (e : Z) : Q := Qpower 2 e.

(** [ilog2 x], for [0 < x], is the exponent [e] with
    [2^e <= x < 2^(e+1)]. *)
Definition ilog2 (x : Q) : Z :=
  let k := (Z.log2 (Qnum x) - Z.log2 (Zpos (Qden x)))%Z in
  if Qle_bool (pow2 k) x then k else (k - 1)%Z.

(** Round to the nearest integer, ties to the even one. *)
Definition rne (x : Q) : Z :=
  let f := Qfloor x in
  match Qcompare (x - inject_Z f) (1 # 2) with
  | Lt => f
  | Gt => (f + 1)%Z
  | Eq => if Z.even f then f else (f + 1)%Z
  end.

(** Round a positive rational to a binary format with [prec] significand
    bits whose smallest subnormal is [2^emin]. *)
Definition round_pos (prec emin : Z) (x : Q) : Q :=
  let e := Z.max (ilog2 x - prec + 1) emin in
  inject_Z (rne (x / pow2 e)) * pow2 e.

Definition round_binary (prec emin : Z) (x : Q) : Q :=
  match Qnum x with
  | Z0 => 0
  | Zpos _ => round_pos prec emin x
  | Zneg _ => - round_pos prec emin (- x)
  end.

(** C's [trunc]: the integer part, rounded toward zero. *)
Definition trunc (x : Q) : Z :=
  if Qle_bool 0 x then Qfloor x else Qceiling x.

(** C's [fmod x m = x - trunc(x/m) * m]; the result has the sign of [x]
    and is exactly representable, so no rounding follows.  In C,
    [fmod x 0] is NaN; here [x / 0 = 0] and the function returns [x]:
    results below are stated for [m > 0]. *)
Definition fmod (x m : Q) : Q := x - inject_Z (trunc (x / m)) * m.

(** The roundings that follow each [float] and each [double] operation. *)
Record Rounding := {
  RF : Q -> Q;
  RD : Q -> Q
}.

(** IEEE 754 binary32 and binary64: round to nearest, ties to even, with
    gradual underflow.  The exponent is not bounded above: [RF x] and
    [RD x] are the IEEE results exactly when those are finite, that is,
    when they are at most [float_max] and [double_max] in magnitude. *)
Definition ieee : Rounding :=
  {| RF := round_binary 24 (-149); RD := round_binary 53 (-1074) |}.

(** No rounding at all: not the arithmetic of the program, but the
    reference its results are compared with. *)
Definition exact_arith : Rounding :=
  {| RF := fun x => x; RD := fun x => x |}.

(** The largest finite values of binary32 and binary64.  A rounded result
    beyond them is an overflow in the program: it is infinite there, and
    what is computed from it may be NaN. *)
Definition float_max : Q := inject_Z (2 ^ 24 - 1) * pow2 104.
Definition double_max : Q := inject_Z (2 ^ 53 - 1) * pow2 971.

Definition finite (bound x : Q) : Prop := Qabs x <= bound.

(** What the proofs need of a rounding: it is monotone (which makes it
    compatible with [==]). *)
Definition monotone (r : Q -> Q) : Prop := forall x y, x <= y -> r x <= r y.

(** A value the rounding leaves alone: a number of the format. *)
Definition representable (r : Q -> Q) (x : Q) : Prop := r x == x.

End FP.

(** ** Vectors and point lights *)

Record vec3 := Vec3 { v3x : Q; v3y : Q; v3z : Q }.
Record vec4 := Vec4 { vx : Q; vy : Q; vz : Q; vw : Q }.

(** [glm::vec4(v, s)]. *)
Definition vec4_of (v : vec3) (s : Q) : vec4 :=
  Vec4 (v3x v) (v3y v) (v3z v) s.

(** [v[i]] for a [glm::vec3], [i < 3]. *)
Definition vec3_get (v : vec3) (i : nat) : Q :=
  match i with
  | O => v3x v
  | S O => v3y v
  | _ => v3z v
  end.

Definition vec3_set (v : vec3) (i : nat) (a : Q) : vec3 :=
  match i with
  | O => Vec3 a (v3y v) (v3z v)
  | S O => Vec3 (v3x v) a (v3z v)
  | _ => Vec3 (v3x v) (v3y v) a
  end.

Record PointLight := {
  Position : vec4;
  Color : vec4;
  RadiusAndPadding : vec4
}.

(** The constants of RenderSystem.h that the code reads, and the size of
    the structure [VisibleLightIndex] declared there. *)
Record Consts := {
  MAX_NUM_LIGHTS : nat;
  LIGHT_MIN_BOUNDS : vec3;
  LIGHT_MAX_BOUNDS : vec3;
  sizeof_VisibleLightIndex : Z
}.

(** ** The pseudo-random generator

    A seeded [std::mt19937_64] is a fixed sequence of outputs and a cursor
    into it.  [dist gen] is one call [dist(gen)] of the
    [uniform_real_distribution<>(0, 1)]: it returns the sample under the
    cursor and the advanced generator.  Passing a generator by value copies
    the record, so the caller's cursor does not move. *)

Record mt19937_64 := {
  samples : nat -> Q;
  cursor : nat
}.

Definition dist (gen : mt19937_64) : Q * mt19937_64 :=
  (samples gen (cursor gen),
   {| samples := samples gen; cursor := S (cursor gen) |}).

(** Every sample of the distribution lies in [0, 1). *)
Definition unit_samples (gen : mt19937_64) : Prop :=
  forall k, (0 <= samples gen k /\ samples gen k < 1)%Q.

(** ** The order of evaluation of the colour arguments

    [glm::vec4(1.0f + dist(gen), 1.0f + dist(gen), 1.0f + dist(gen), 1.0f)]
    calls [dist(gen)] in three arguments of one call, and C++ leaves the
    order in which the arguments of a call are evaluated to the compiler.
    [Eval_abc] is the order in which argument [a] is evaluated first, then
    [b], then [c]; [rank order j] is the place of argument [j] in it. *)

Inductive ArgOrder :=
| Eval_012 | Eval_021 | Eval_102 | Eval_120 | Eval_201 | Eval_210.

Definition rank (order : ArgOrder) (j : nat) : nat :=
  match order, j with
  | Eval_012, O => 0 | Eval_012, S O => 1 | Eval_012, _ => 2
  | Eval_021, O => 0 | Eval_021, S O => 2 | Eval_021, _ => 1
  | Eval_102, O => 1 | Eval_102, S O => 0 | Eval_102, _ => 2
  | Eval_120, O => 2 | Eval_120, S O => 0 | Eval_120, _ => 1
  | Eval_201, O => 1 | Eval_201, S O => 2 | Eval_201, _ => 0
  | Eval_210, O => 2 | Eval_210, S O => 1 | Eval_210, _ => 0
  end%nat.

(** ** Light storage buffer *)

Section Lights.

Variable fp : FP.Rounding.
Variable K : Consts.

Local Open Scope Q_scope.

Local Abbreviation RF := (FP.RF fp).
Local Abbreviation RD := (FP.RD fp).

(** The loop of [RandomPosition], from axis [i] for [n] axes.  [dis] and
    [gen] are by-value parameters: the samples drawn here are not
    consumed in the caller.  [(GLfloat)dis(gen) * (max - min) + min] is
    [float] arithmetic. *)
Fixpoint RandomPosition_loop (n i : nat) (gen : mt19937_64) (position : vec3)
  : vec3 :=
  match n with
  | O => position
  | S n' =>
      let min := vec3_get (LIGHT_MIN_BOUNDS K) i in
      let max := vec3_get (LIGHT_MAX_BOUNDS K) i in
      let (u, gen') := dist gen in
      let p := RF (RF (RF u * RF (max - min)) + min) in
      RandomPosition_loop n' (S i) gen' (vec3_set position i p)
  end.

Definition RandomPosition (gen : mt19937_64) : vec3 :=
  RandomPosition_loop 3 0 gen (Vec3 0 0 0).

(** One iteration of the loop of [setupLightStorageBuffer].
    [1.0f + dist(gen)] is a [double] sum, converted to [float] by the
    [glm::vec4] constructor.  The three calls [dist(gen)] draw the samples
    [s0], [s1], [s2] in the order [order] of evaluation: argument [j]
    receives the sample of rank [rank order j]. *)
Definition make_light (order : ArgOrder) (gen : mt19937_64)
  : PointLight * mt19937_64 :=
  let position := RandomPosition gen in
  let (s0, gen1) := dist gen in
  let (s1, gen2) := dist gen1 in
  let (s2, gen3) := dist gen2 in
  let u := fun j => match rank order j with
                    | O => s0
                    | S O => s1
                    | _ => s2
                    end in
  ({| Position := vec4_of position 1;
      Color := Vec4 (RF (RD (1 + u 0%nat))) (RF (RD (1 + u 1%nat)))
                    (RF (RD (1 + u 2%nat))) 1;
      RadiusAndPadding := Vec4 0 0 0 30 |},
   gen3).

(** The loop [for (i = 0; i < MAX_NUM_LIGHTS; i++)] writing slot [i] of
    the mapped buffer; [order i] is the order of evaluation in iteration
    [i]. *)
Fixpoint fill_lights (order : nat -> ArgOrder) (n i : nat) (gen : mt19937_64)
    (pointLights : list PointLight) : list PointLight * mt19937_64 :=
  match n with
  | O => (pointLights, gen)
  | S n' =>
      let (light, gen') := make_light (order i) gen in
      fill_lights order n' (S i) gen' (<[i := light]> pointLights)
  end.

(** The new vertical coordinate computed by [UpdateLights]:
    [fmod((y + (-4.5f * dt) - min + max), max) + min] in [double],
    stored into a [float]. *)
Definition fall (dt : Q) (py : Q) : Q :=
  let min := vec3_get (LIGHT_MIN_BOUNDS K) 1 in
  let max := vec3_get (LIGHT_MAX_BOUNDS K) 1 in
  let step := RD (- (9 # 2) * dt) in
  let a := RD (RD (RD (py + step) - min) + max) in
  RF (RD (FP.fmod a max + min)).

Definition update_light (dt : Q) (light : PointLight) : PointLight :=
  {| Position := Vec4 (vx (Position light)) (fall dt (vy (Position light)))
                      (vz (Position light)) (vw (Position light));
     Color := Color light;
     RadiusAndPadding := RadiusAndPadding light |}.

(** [UpdateLights]: the loop over the slots [0 .. MAX_NUM_LIGHTS-1] of
    the mapped buffer ([alter] leaves the list alone at an index beyond
    its end, where the C++ code would write out of bounds; the buffer is
    allocated with [MAX_NUM_LIGHTS] slots). *)
Definition UpdateLights_loop (dt : Q) (n : nat)
    (pointLights : list PointLight) : list PointLight :=
  foldl (fun ls i => alter (update_light dt) i ls) pointLights (seq 0 n).

Definition UpdateLights (dt : Q) (pointLights : list PointLight)
  : list PointLight :=
  UpdateLights_loop dt (MAX_NUM_LIGHTS K) pointLights.

End Lights.

(** ** Shader programs and the shader cache *)

Record GLShader := {
  shader_path : string;
  shader_type : string
}.

Record GLShaderProgram := {
  m_programName : string;
  m_programShaders : list GLShader;
  m_programID : N
}.

(** The [Program] children of the renderer node of the configuration. *)
Record ProgramNode := {
  program_name : string;
  program_shaders : list GLShader
}.

(** The renderer node: [width] and [height] are what [as_uint()] returns,
    an [unsigned int]. *)
Record RendererNode := {
  attr_width : Z;
  attr_height : Z;
  child_Program : list ProgramNode
}.

(** ** Framebuffers *)

Record GLFramebuffer := {
  fbo_name : string;
  fbo_width : Z;
  fbo_height : Z
}.

(** Modelled from the spec: GLFramebuffer.cpp is not among the sources.
    [Resize(width, height)] and [Reset(width, height)] destroy and recreate
    the attachments at the new dimensions. *)
Definition GLFramebuffer_Resize (width height : Z) (f : GLFramebuffer)
  : GLFramebuffer :=
  {| fbo_name := fbo_name f; fbo_width := width; fbo_height := height |}.

Definition GLFramebuffer_Reset := GLFramebuffer_Resize.

(** ** Collaborators: camera, input, scene *)

Definition mat4 : Type := list Q.

Record Camera := {
  GetViewMatrix : mat4;
  GetPosition : vec3;
  GetProjMatrix : Z -> Z -> mat4
}.

(** The [Input] singleton, as [Update] reads it. *)
Record Input := {
  ShouldResize : bool;
  GetWidth : Z;
  GetHeight : Z
}.

Record Material := {
  Albedo : vec3;
  Metallic : Q;
  AO : Q;
  Roughness : Q
}.

Record Mesh := {
  GetVAO : Z;
  GetIndexCount : Z
}.

Record Model := {
  GetModelMatrix : mat4;
  GetMaterial : Material;
  GetMeshes : list Mesh
}.

Record Sun := {
  sun_Direction : vec3;
  sun_Color : vec3
}.

Record SceneBase := {
  GetCamera : Camera;
  m_renderList : list Model;
  m_sun : Sun
}.

(** ** The render system and the GL state it owns *)

Record RenderSystem := {
  m_width : Z;
  m_height : Z;
  m_workGroupsX : Z;
  m_workGroupsY : Z;
  m_projMatrix : mat4;
  m_depthFBO : option GLFramebuffer;
  m_hdrFBO : option GLFramebuffer;
  m_shaderCache : gmap string GLShaderProgram;
  m_uboMatrices : Z;
  m_lightBuffer : Z;
  m_visibleLightIndicesBuffer : Z;
  m_depthTexture : Z;
  m_hdrColorBufferTexture : Z;
  m_irradianceMap : Z;
  m_quadVAO : Z;
  m_vibrance : Q;
  m_coefficient : vec3
}.

(** The part of the OpenGL server state that the render system writes:
    the viewport, the two halves of the uniform buffer [m_uboMatrices],
    the contents of the light buffer, the size in bytes that
    [glBufferData] was given for the visible-light index buffer, and the
    program objects that exist. *)
Record GLState := {
  gl_viewport : Z * Z * Z * Z;
  gl_uboProjection : option mat4;
  gl_uboView : option mat4;
  gl_lights : list PointLight;
  gl_visibleLightIndices : Z;
  gl_programs : gset N;
  gl_nextProgram : N
}.

(** What the platform answers during [Init]: whether the loader succeeds,
    the names [glGenBuffers] and [glGenTextures] leave in the members
    (0: no object was created), the generator seeded from
    [std::random_device], and, for each iteration of the loop of
    [setupLightStorageBuffer], the order in which the build evaluates the
    three colour arguments. *)
Record Driver := {
  gladLoadGLLoader : bool;
  gen_uboMatrices : Z;
  gen_lightBuffer : Z;
  gen_visibleLightIndicesBuffer : Z;
  gen_depthTexture : Z;
  gen_hdrColorBufferTexture : Z;
  gen_irradianceMap : Z;
  gen_quadVAO : Z;
  random_device : mt19937_64;
  color_order : nat -> ArgOrder
}.

(** How a call ends: it returns, the process is aborted ([std::abort],
    with what was written to [std::cerr]), or an exception leaves it. *)
Inductive Outcome (A : Type) : Type :=
| Returned (a : A)
| Aborted (cerr : string)
| Threw (what : string).

Arguments Returned {A} a.
Arguments Aborted {A} cerr.
Arguments Threw {A} what.

(** Field updates. *)

Definition set_size (width height : Z) (rs : RenderSystem) : RenderSystem :=
  {| m_width := width; m_height := height;
     m_workGroupsX := m_workGroupsX rs; m_workGroupsY := m_workGroupsY rs;
     m_projMatrix := m_projMatrix rs;
     m_depthFBO := m_depthFBO rs; m_hdrFBO := m_hdrFBO rs;
     m_shaderCache := m_shaderCache rs;
     m_uboMatrices := m_uboMatrices rs; m_lightBuffer := m_lightBuffer rs;
     m_visibleLightIndicesBuffer := m_visibleLightIndicesBuffer rs;
     m_depthTexture := m_depthTexture rs;
     m_hdrColorBufferTexture := m_hdrColorBufferTexture rs;
     m_irradianceMap := m_irradianceMap rs; m_quadVAO := m_quadVAO rs;
     m_vibrance := m_vibrance rs; m_coefficient := m_coefficient rs |}.

Definition set_projMatrix (proj : mat4) (rs : RenderSystem) : RenderSystem :=
  {| m_width := m_width rs; m_height := m_height rs;
     m_workGroupsX := m_workGroupsX rs; m_workGroupsY := m_workGroupsY rs;
     m_projMatrix := proj;
     m_depthFBO := m_depthFBO rs; m_hdrFBO := m_hdrFBO rs;
     m_shaderCache := m_shaderCache rs;
     m_uboMatrices := m_uboMatrices rs; m_lightBuffer := m_lightBuffer rs;
     m_visibleLightIndicesBuffer := m_visibleLightIndicesBuffer rs;
     m_depthTexture := m_depthTexture rs;
     m_hdrColorBufferTexture := m_hdrColorBufferTexture rs;
     m_irradianceMap := m_irradianceMap rs; m_quadVAO := m_quadVAO rs;
     m_vibrance := m_vibrance rs; m_coefficient := m_coefficient rs |}.

Definition set_depthFBO (f : option GLFramebuffer) (rs : RenderSystem)
  : RenderSystem :=
  {| m_width := m_width rs; m_height := m_height rs;
     m_workGroupsX := m_workGroupsX rs; m_workGroupsY := m_workGroupsY rs;
     m_projMatrix := m_projMatrix rs;
     m_depthFBO := f; m_hdrFBO := m_hdrFBO rs;
     m_shaderCache := m_shaderCache rs;
     m_uboMatrices := m_uboMatrices rs; m_lightBuffer := m_lightBuffer rs;
     m_visibleLightIndicesBuffer := m_visibleLightIndicesBuffer rs;
     m_depthTexture := m_depthTexture rs;
     m_hdrColorBufferTexture := m_hdrColorBufferTexture rs;
     m_irradianceMap := m_irradianceMap rs; m_quadVAO := m_quadVAO rs;
     m_vibrance := m_vibrance rs; m_coefficient := m_coefficient rs |}.

Definition set_viewport (v : Z * Z * Z * Z) (gl : GLState) : GLState :=
  {| gl_viewport := v;
     gl_uboProjection := gl_uboProjection gl; gl_uboView := gl_uboView gl;
     gl_lights := gl_lights gl;
     gl_visibleLightIndices := gl_visibleLightIndices gl;
     gl_programs := gl_programs gl; gl_nextProgram := gl_nextProgram gl |}.

Definition set_uboProjection (m : option mat4) (gl : GLState) : GLState :=
  {| gl_viewport := gl_viewport gl;
     gl_uboProjection := m; gl_uboView := gl_uboView gl;
     gl_lights := gl_lights gl;
     gl_visibleLightIndices := gl_visibleLightIndices gl;
     gl_programs := gl_programs gl; gl_nextProgram := gl_nextProgram gl |}.

Definition set_uboView (m : option mat4) (gl : GLState) : GLState :=
  {| gl_viewport := gl_viewport gl;
     gl_uboProjection := gl_uboProjection gl; gl_uboView := m;
     gl_lights := gl_lights gl;
     gl_visibleLightIndices := gl_visibleLightIndices gl;
     gl_programs := gl_programs gl; gl_nextProgram := gl_nextProgram gl |}.

Definition set_lights (ls : list PointLight) (gl : GLState) : GLState :=
  {| gl_viewport := gl_viewport gl;
     gl_uboProjection := gl_uboProjection gl; gl_uboView := gl_uboView gl;
     gl_lights := ls;
     gl_visibleLightIndices := gl_visibleLightIndices gl;
     gl_programs := gl_programs gl; gl_nextProgram := gl_nextProgram gl |}.

Definition set_visibleLightIndices (n : Z) (gl : GLState) : GLState :=
  {| gl_viewport := gl_viewport gl;
     gl_uboProjection := gl_uboProjection gl; gl_uboView := gl_uboView gl;
     gl_lights := gl_lights gl;
     gl_visibleLightIndices := n;
     gl_programs := gl_programs gl; gl_nextProgram := gl_nextProgram gl |}.

Definition set_programs (ps : gset N) (next : N) (gl : GLState) : GLState :=
  {| gl_viewport := gl_viewport gl;
     gl_uboProjection := gl_uboProjection gl; gl_uboView := gl_uboView gl;
     gl_lights := gl_lights gl;
     gl_visibleLightIndices := gl_visibleLightIndices gl;
     gl_programs := ps; gl_nextProgram := next |}.

(** Modelled from the spec: GLShaderProgram.cpp is not among the sources.
    The constructor [GLShaderProgram(name, shaders)] assembles a named
    program from its stage sources; it is given the next free program name
    of the GL state, which becomes a live program object. *)
Definition GLShaderProgram_ctor (name : string) (shaders : list GLShader)
    (gl : GLState) : GLShaderProgram * GLState :=
  let id := gl_nextProgram gl in
  ({| m_programName := name; m_programShaders := shaders; m_programID := id |},
   set_programs ({[ id ]} ∪ gl_programs gl) (id + 1)%N gl).

(** Modelled from the spec: GLShaderProgram.cpp is not among the sources.
    [DeleteProgram()] releases the program object. *)
Definition DeleteProgram (p : GLShaderProgram) (gl : GLState) : GLState :=
  set_programs (gl_programs gl ∖ {[ m_programID p ]}) (gl_nextProgram gl) gl.

(** [std::unordered_map::try_emplace(key, name, shaders)]: when [key] is
    present nothing happens and no program is constructed; otherwise the
    program is constructed in place from [(name, shaders)]. *)
Definition try_emplace (key name : string) (shaders : list GLShader)
    (st : gmap string GLShaderProgram * GLState)
  : gmap string GLShaderProgram * GLState :=
  match st.1 !! key with
  | Some _ => st
  | None =>
      let (p, gl') := GLShaderProgram_ctor name shaders st.2 in
      (<[ key := p ]> st.1, gl')
  end.

(** [m_shaderCache.at(name)]: throws [std::out_of_range] when absent. *)
Definition cache_at (cache : gmap string GLShaderProgram) (name : string)
  : Outcome GLShaderProgram :=
  match cache !! name with
  | Some p => Returned p
  | None => Threw "out_of_range"
  end.

(** The loop of [Init] over the [Program] children. *)
Definition compile_programs (programs : list ProgramNode)
    (st : gmap string GLShaderProgram * GLState)
  : gmap string GLShaderProgram * GLState :=
  foldl (fun st program =>
           try_emplace (program_name program) (program_name program)
                       (program_shaders program) st)
        st programs.

(** ** The GL calls of a frame *)

Inductive Target := DefaultFramebuffer | DepthFBO | HdrFBO.

Inductive TextureTarget := TEXTURE_2D | TEXTURE_CUBE_MAP.

Inductive UniformValue :=
| UMatrix4 (m : mat4)
| U3f (v : vec3)
| U1f (q : Q)
| U1i (i : Z).

(** [FramebufferBind DepthFBO] is [m_depthFBO->Bind()], and likewise for
    the HDR framebuffer; [FramebufferBind DefaultFramebuffer] is
    [Unbind()] or [glBindFramebuffer(GL_FRAMEBUFFER, 0)]. *)
Inductive GLCall :=
| glBindBuffer_UNIFORM (buffer : Z)
| ShaderBind (p : GLShaderProgram)
| SetUniform (p : GLShaderProgram) (name : string) (v : UniformValue)
| FramebufferBind (t : Target)
| glClear (color depth : bool)
| glActiveTexture (unit : Z)
| glBindTexture (target : TextureTarget) (texture : Z)
| glBindBufferBase (index buffer : Z)
| glDispatchCompute (gx gy gz : Z)
| VAOBind (vao : Z)
| glDrawElements (count : Z)
| Skybox_Draw
| glDrawArrays (first count : Z).

Definition renderMesh (shader : GLShaderProgram) (model : Model)
    (depthPass : bool) (mesh : Mesh) : list GLCall :=
  (if negb depthPass then
     [ SetUniform shader "albedo" (U3f (Albedo (GetMaterial model)));
       SetUniform shader "metallic" (U1f (Metallic (GetMaterial model)));
       SetUniform shader "ao" (U1f (AO (GetMaterial model)));
       SetUniform shader "roughness" (U1f (Roughness (GetMaterial model))) ]
   else [])
  ++ [ VAOBind (GetVAO mesh);
       glDrawElements (GetIndexCount mesh);
       glBindTexture TEXTURE_2D 0 ].

Definition renderModel (shader : GLShaderProgram) (depthPass : bool)
    (model : Model) : list GLCall :=
  SetUniform shader "modelMatrix" (UMatrix4 (GetModelMatrix model))
  :: flat_map (renderMesh shader model depthPass) (GetMeshes model).

Definition renderModels (shader : GLShaderProgram) (renderList : list Model)
    (depthPass : bool) : list GLCall :=
  flat_map (renderModel shader depthPass) renderList.

Definition renderQuad (rs : RenderSystem) : list GLCall :=
  [ VAOBind (m_quadVAO rs); glDrawArrays 0 4 ].

Definition bind {A B : Type} (o : Outcome A) (k : A -> Outcome B)
  : Outcome B :=
  match o with
  | Returned a => k a
  | Aborted e => Aborted e
  | Threw what => Threw what
  end.

(** The four [static] references of [Render].  They are function-local
    statics: there is one set of them in the process, shared by every
    [RenderSystem]; each is bound, by [at] on the cache of the system that
    is rendering, the first time control passes its declaration, and is
    left unbound when [at] throws, to be tried again by the next call.
    [None] is an unbound reference.  A bound one refers to an entry of a
    cache; no entry is ever replaced or erased, so it is kept as the
    program it refers to. *)
Record RenderStatics := {
  static_depthShader : option GLShaderProgram;
  static_lightCullShader : option GLShaderProgram;
  static_pbrShader : option GLShaderProgram;
  static_postProcessShader : option GLShaderProgram
}.

(** The initialisation [static auto& x = m_shaderCache.at(name)]: nothing
    is looked up when [x] is bound already. *)
Definition static_init (static : option GLShaderProgram)
    (cache : gmap string GLShaderProgram) (name : string)
  : Outcome GLShaderProgram :=
  match static with
  | Some shader => Returned shader
  | None => cache_at cache name
  end.

(** Go on with [k] when [o] returned; otherwise the call ends as [o] did,
    with the statics [s] bound so far. *)
Definition and_then {A B : Type} (o : Outcome A) (s : RenderStatics)
    (k : A -> Outcome B * RenderStatics) : Outcome B * RenderStatics :=
  match o with
  | Returned a => k a
  | Aborted e => (Aborted e, s)
  | Threw what => (Threw what, s)
  end.

Definition Render_shaders (statics : RenderStatics) (rs : RenderSystem)
  : Outcome (GLShaderProgram * GLShaderProgram
             * GLShaderProgram * GLShaderProgram) * RenderStatics :=
  let cache := m_shaderCache rs in
  and_then (static_init (static_depthShader statics) cache "DepthPassShader")
           statics (fun depthShader =>
  let s1 :=
    {| static_depthShader := Some depthShader;
       static_lightCullShader := static_lightCullShader statics;
       static_pbrShader := static_pbrShader statics;
       static_postProcessShader := static_postProcessShader statics |} in
  and_then (static_init (static_lightCullShader s1) cache "LightCullShader")
           s1 (fun lightCullShader =>
  let s2 :=
    {| static_depthShader := static_depthShader s1;
       static_lightCullShader := Some lightCullShader;
       static_pbrShader := static_pbrShader s1;
       static_postProcessShader := static_postProcessShader s1 |} in
  and_then (static_init (static_pbrShader s2) cache "PBRShader")
           s2 (fun pbrShader =>
  let s3 :=
    {| static_depthShader := static_depthShader s2;
       static_lightCullShader := static_lightCullShader s2;
       static_pbrShader := Some pbrShader;
       static_postProcessShader := static_postProcessShader s2 |} in
  and_then (static_init (static_postProcessShader s3) cache
                        "PostProcessShader")
           s3 (fun postProcessShader =>
  let s4 :=
    {| static_depthShader := static_depthShader s3;
       static_lightCullShader := static_lightCullShader s3;
       static_pbrShader := static_pbrShader s3;
       static_postProcessShader := Some postProcessShader |} in
  (Returned (depthShader, lightCullShader, pbrShader, postProcessShader),
   s4))))).

(** Step 1: the depth of the scene to a depth map. *)
Definition depthPass (rs : RenderSystem) (scene : SceneBase)
    (depthShader : GLShaderProgram) : list GLCall :=
  [ ShaderBind depthShader;
    FramebufferBind DepthFBO;
    glClear false true ]
  ++ renderModels depthShader (m_renderList scene) true
  ++ [ FramebufferBind DefaultFramebuffer ].

(** Step 2: light culling on the point lights. *)
Definition cullPass (rs : RenderSystem) (scene : SceneBase)
    (lightCullShader : GLShaderProgram) : list GLCall :=
  [ ShaderBind lightCullShader;
    SetUniform lightCullShader "projection" (UMatrix4 (m_projMatrix rs));
    SetUniform lightCullShader "view"
               (UMatrix4 (GetViewMatrix (GetCamera scene)));
    glActiveTexture 5;
    SetUniform lightCullShader "depthMap" (U1i 5);
    glBindTexture TEXTURE_2D (m_depthTexture rs);
    glBindBufferBase 0 (m_lightBuffer rs);
    glBindBufferBase 1 (m_visibleLightIndicesBuffer rs);
    glDispatchCompute (m_workGroupsX rs) (m_workGroupsY rs) 1 ].

Definition shadingPass (rs : RenderSystem) (scene : SceneBase)
    (pbrShader : GLShaderProgram) : list GLCall :=
  [ FramebufferBind HdrFBO;
    glClear true true;
    glActiveTexture 0;
    glBindTexture TEXTURE_CUBE_MAP (m_irradianceMap rs);
    ShaderBind pbrShader;
    SetUniform pbrShader "irradianceMap" (U1i 0);
    SetUniform pbrShader "wireframe" (U1i 1);
    SetUniform pbrShader "viewPos" (U3f (GetPosition (GetCamera scene)));
    SetUniform pbrShader "sunDirection" (U3f (sun_Direction (m_sun scene)));
    SetUniform pbrShader "sunColor" (U3f (sun_Color (m_sun scene))) ]
  ++ renderModels pbrShader (m_renderList scene) false
  ++ [ Skybox_Draw ].

Definition postProcessPass (rs : RenderSystem)
    (postProcessShader : GLShaderProgram) : list GLCall :=
  [ FramebufferBind DefaultFramebuffer;
    ShaderBind postProcessShader;
    SetUniform postProcessShader "vibranceAmount" (U1f (m_vibrance rs));
    SetUniform postProcessShader "vibranceCoefficient" (U3f (m_coefficient rs));
    glActiveTexture 0;
    glBindTexture TEXTURE_2D (m_hdrColorBufferTexture rs) ]
  ++ renderQuad rs.

(** What a call of [Render] leaves: the GL calls issued, in order, how
    the call ended, and the static references as they are afterwards. *)
Record Frame := {
  frame_calls : list GLCall;
  frame_outcome : Outcome unit;
  frame_statics : RenderStatics
}.

(** [Render], entered with the static references [statics]. *)
Definition Render (statics : RenderStatics) (rs : RenderSystem)
    (scene : SceneBase) : Frame :=
  let entry := [ glBindBuffer_UNIFORM (m_uboMatrices rs) ] in
  match Render_shaders statics rs with
  | (Returned (depthShader, lightCullShader, pbrShader, postProcessShader),
     statics') =>
      {| frame_calls :=
           entry
           ++ depthPass rs scene depthShader
           ++ cullPass rs scene lightCullShader
           ++ shadingPass rs scene pbrShader
           ++ postProcessPass rs postProcessShader;
         frame_outcome := Returned tt;
         frame_statics := statics' |}
  | (Aborted e, statics') =>
      {| frame_calls := entry; frame_outcome := Aborted e;
         frame_statics := statics' |}
  | (Threw what, statics') =>
      {| frame_calls := entry; frame_outcome := Threw what;
         frame_statics := statics' |}
  end.

(** ** Initialisation, shutdown and per-frame update *)

Definition endl : string := String (Ascii.ascii_of_nat 10) EmptyString.

Section Lifecycle.

Variable fp : FP.Rounding.
Variable K : Consts.

(** The contents of a buffer allocated by [glBufferData(..., nullptr, ...)]
    are undefined; [setupLightStorageBuffer] overwrites every slot. *)
Definition undefined_light : PointLight :=
  {| Position := Vec4 0 0 0 0; Color := Vec4 0 0 0 0;
     RadiusAndPadding := Vec4 0 0 0 0 |}.

Definition setupLightStorageBuffer (drv : Driver) (rs : RenderSystem)
    (gl : GLState) : Outcome GLState :=
  if (m_lightBuffer rs =? 0)%Z then
    Aborted ("Error: Forward+ light buffer has not been created." ++ endl)
  else
    let gen := random_device drv in
    Returned
      (set_lights
         (fill_lights fp K (color_order drv) (MAX_NUM_LIGHTS K) 0 gen
                      (gl_lights gl)).1 gl).

(** [setupLightBuffers].  [numberOfTiles] is a product of two
    [unsigned int]; the size of the index buffer,
    [numberOfTiles * sizeof(VisibleLightIndex) * MAX_NUM_LIGHTS], is
    computed in [std::size_t] and passed for a [GLsizeiptr]. *)
Definition setupLightBuffers (drv : Driver) (rs : RenderSystem)
    (gl : GLState) : Outcome (RenderSystem * GLState) :=
  let numberOfTiles := UInt.mul (m_workGroupsX rs) (m_workGroupsY rs) in
  let rs1 :=
    {| m_width := m_width rs; m_height := m_height rs;
       m_workGroupsX := m_workGroupsX rs; m_workGroupsY := m_workGroupsY rs;
       m_projMatrix := m_projMatrix rs;
       m_depthFBO := m_depthFBO rs; m_hdrFBO := m_hdrFBO rs;
       m_shaderCache := m_shaderCache rs;
       m_uboMatrices := m_uboMatrices rs;
       m_lightBuffer := gen_lightBuffer drv;
       m_visibleLightIndicesBuffer := gen_visibleLightIndicesBuffer drv;
       m_depthTexture := m_depthTexture rs;
       m_hdrColorBufferTexture := m_hdrColorBufferTexture rs;
       m_irradianceMap := m_irradianceMap rs; m_quadVAO := m_quadVAO rs;
       m_vibrance := m_vibrance rs; m_coefficient := m_coefficient rs |} in
  let gl1 :=
    set_visibleLightIndices
      (to_GLsizeiptr
         (SizeT.mul (SizeT.mul numberOfTiles (sizeof_VisibleLightIndex K))
                    (Z.of_nat (MAX_NUM_LIGHTS K))))
      (set_lights (replicate (MAX_NUM_LIGHTS K) undefined_light) gl) in
  bind (setupLightStorageBuffer drv rs1 gl1) (fun gl2 =>
  Returned (rs1, gl2)).

(** [Init].  The skybox and the screen quad are kept as the names of their
    GL objects; the fixed-function state ([glEnable], [glCullFace], ...)
    is read by no property below and is left out.  [width] and [height]
    are [unsigned int]; [glViewport] takes them as [GLsizei]. *)
Definition Init (drv : Driver) (rendererNode : RendererNode)
    (rs : RenderSystem) (gl : GLState) : Outcome (RenderSystem * GLState) :=
  if negb (gladLoadGLLoader drv) then Aborted "Failed to start GLAD."
  else
    let width := attr_width rendererNode in
    let height := attr_height rendererNode in
    let workGroupsX := UInt.div (UInt.add width (UInt.rem width 8)) 8 in
    let workGroupsY := UInt.div (UInt.add height (UInt.rem height 8)) 8 in
    let depthFBO :=
      {| fbo_name := "Depth FBO"; fbo_width := width; fbo_height := height |} in
    let hdrFBO :=
      {| fbo_name := "HDR FBO"; fbo_width := width; fbo_height := height |} in
    (* Compile all shader programs *)
    let (cache, gl1) :=
      compile_programs (child_Program rendererNode) (m_shaderCache rs, gl) in
    (* the uniform buffer for the projection and view matrices *)
    let gl2 := set_uboView None (set_uboProjection None gl1) in
    let rs1 :=
      {| m_width := width; m_height := height;
         m_workGroupsX := workGroupsX; m_workGroupsY := workGroupsY;
         m_projMatrix := m_projMatrix rs;
         m_depthFBO := Some depthFBO; m_hdrFBO := Some hdrFBO;
         m_shaderCache := cache;
         m_uboMatrices := gen_uboMatrices drv;
         m_lightBuffer := m_lightBuffer rs;
         m_visibleLightIndicesBuffer := m_visibleLightIndicesBuffer rs;
         m_depthTexture := m_depthTexture rs;
         m_hdrColorBufferTexture := m_hdrColorBufferTexture rs;
         m_irradianceMap := gen_irradianceMap drv;
         m_quadVAO := m_quadVAO rs;
         m_vibrance := m_vibrance rs; m_coefficient := m_coefficient rs |} in
    bind (setupLightBuffers drv rs1 gl2) (fun '(rs2, gl3) =>
    (* setupScreenquad, setupDepthBuffer, setupHDRBuffer *)
    let rs3 :=
      {| m_width := m_width rs2; m_height := m_height rs2;
         m_workGroupsX := m_workGroupsX rs2;
         m_workGroupsY := m_workGroupsY rs2;
         m_projMatrix := m_projMatrix rs2;
         m_depthFBO := m_depthFBO rs2;
         m_hdrFBO :=
           GLFramebuffer_Reset (m_width rs2) (m_height rs2) <$> m_hdrFBO rs2;
         m_shaderCache := m_shaderCache rs2;
         m_uboMatrices := m_uboMatrices rs2;
         m_lightBuffer := m_lightBuffer rs2;
         m_visibleLightIndicesBuffer := m_visibleLightIndicesBuffer rs2;
         m_depthTexture := gen_depthTexture drv;
         m_hdrColorBufferTexture := gen_hdrColorBufferTexture drv;
         m_irradianceMap := m_irradianceMap rs2;
         m_quadVAO := gen_quadVAO drv;
         m_vibrance := m_vibrance rs2; m_coefficient := m_coefficient rs2 |} in
    Returned
      (rs3, set_viewport (0, 0, to_GLsizei width, to_GLsizei height) gl3)).

(** [Shutdown]: [DeleteProgram] on every entry of the cache.  The method
    is [const]: the members, the cache among them, are as before. *)
Definition Shutdown (st : RenderSystem * GLState) : RenderSystem * GLState :=
  (st.1,
   map_fold (fun _ shader g => DeleteProgram shader g) st.2
            (m_shaderCache st.1)).

Definition InitView (camera : Camera) (st : RenderSystem * GLState)
  : RenderSystem * GLState :=
  let proj := GetProjMatrix camera (m_width st.1) (m_height st.1) in
  (set_projMatrix proj st.1, set_uboProjection (Some proj) st.2).

(** [Update].  A null [m_depthFBO] (no [Init] before) would be
    dereferenced by the C++ code; here the resize then has no object to
    act on.  The closing [glClear] erases the contents of the bound
    framebuffer, which are not part of the state. *)
Definition Update (input : Input) (camera : Camera) (delta : Q)
    (st : RenderSystem * GLState) : RenderSystem * GLState :=
  let st1 :=
    if ShouldResize input then
      let rs1 := set_size (GetWidth input) (GetHeight input) st.1 in
      let rs2 :=
        set_projMatrix
          (GetProjMatrix camera (m_width rs1) (m_height rs1)) rs1 in
      let '(rs3, gl3) := InitView camera (rs2, st.2) in
      let gl4 := set_viewport (0, 0, m_width rs3, m_height rs3) gl3 in
      (set_depthFBO
         (GLFramebuffer_Resize (m_width rs3) (m_height rs3)
            <$> m_depthFBO rs3) rs3,
       gl4)
    else st in
  (* Update view matrix inside UBO *)
  let gl5 := set_uboView (Some (GetViewMatrix camera)) st1.2 in
  (st1.1, set_lights (UpdateLights fp K delta (gl_lights gl5)) gl5).

End Lifecycle.

(** ** Vocabulary of the properties *)

(** The assumptions on the arithmetic: both roundings are monotone and
    leave 0, 1 and 2 alone. *)
Definition sound_rounding (fp : FP.Rounding) : Prop :=
  FP.monotone (FP.RF fp) /\ FP.monotone (FP.RD fp)
  /\ FP.representable (FP.RF fp) 0
  /\ FP.representable (FP.RF fp) 1 /\ FP.representable (FP.RF fp) 2
  /\ FP.representable (FP.RD fp) 1 /\ FP.representable (FP.RD fp) 2.

(** The assumptions on the bounds along axis [i]: they are ordered, and
    they and their difference are [float] values. *)
Definition float_bounds_axis (fp : FP.Rounding) (K : Consts) (i : nat) : Prop :=
  let min := vec3_get (LIGHT_MIN_BOUNDS K) i in
  let max := vec3_get (LIGHT_MAX_BOUNDS K) i in
  (min <= max)%Q
  /\ FP.representable (FP.RF fp) min
  /\ FP.representable (FP.RF fp) max
  /\ FP.representable (FP.RF fp) (max - min).

Definition float_bounds (fp : FP.Rounding) (K : Consts) : Prop :=
  float_bounds_axis fp K 0 /\ float_bounds_axis fp K 1
  /\ float_bounds_axis fp K 2.

Definition within (lo hi a : Q) : Prop := (lo <= a /\ a <= hi)%Q.

Definition position_in_bounds (K : Consts) (p : vec4) : Prop :=
  within (v3x (LIGHT_MIN_BOUNDS K)) (v3x (LIGHT_MAX_BOUNDS K)) (vx p)
  /\ within (v3y (LIGHT_MIN_BOUNDS K)) (v3y (LIGHT_MAX_BOUNDS K)) (vy p)
  /\ within (v3z (LIGHT_MIN_BOUNDS K)) (v3z (LIGHT_MAX_BOUNDS K)) (vz p).

(** Colour channels in the closed interval [1, 2]. *)
Definition color_in_1_2 (c : vec4) : Prop :=
  within 1 2 (vx c) /\ within 1 2 (vy c) /\ within 1 2 (vz c).

(** Colour channels in the half-open interval [1, 2). *)
Definition color_below_2 (c : vec4) : Prop :=
  (1 <= vx c /\ vx c < 2)%Q /\ (1 <= vy c /\ vy c < 2)%Q
  /\ (1 <= vz c /\ vz c < 2)%Q.

(** What [setupLightStorageBuffer] establishes for a light: the position
    within the bounds, colour channels in [1, 2], radius 30. *)
Definition good_light (K : Consts) (light : PointLight) : Prop :=
  position_in_bounds K (Position light)
  /\ vw (Position light) = 1%Q
  /\ color_in_1_2 (Color light)
  /\ RadiusAndPadding light = Vec4 0 0 0 30.

(** The same with the colour channels in [1, 2). *)
Definition good_light_open (K : Consts) (light : PointLight) : Prop :=
  position_in_bounds K (Position light)
  /\ color_below_2 (Color light)
  /\ RadiusAndPadding light = Vec4 0 0 0 30.

(** The lights a call left in the light buffer (none if it did not
    return). *)
Definition lights_of (o : Outcome (RenderSystem * GLState))
  : list PointLight :=
  match o with
  | Returned st => gl_lights st.2
  | _ => []
  end.

(** [wrap_into lo m v]: [v] brought into [lo, lo + m) by adding a
    multiple of [m] (the mathematical modulo, for [0 < m]). *)
Definition wrap_into (lo m v : Q) : Q :=
  (v - inject_Z (Qfloor ((v - lo) / m)) * m)%Q.

Definition light_y (light : PointLight) : Q := vy (Position light).

(** The vertical position after [N] calls equals the initial one minus
    [4.5 * dt * N], wrapped modulo the vertical span
    [LIGHT_MAX_BOUNDS[1] - LIGHT_MIN_BOUNDS[1]] into the bounds. *)
Definition falls_modulo_span (fp : FP.Rounding) (K : Consts) : Prop :=
  let min := vec3_get (LIGHT_MIN_BOUNDS K) 1 in
  let max := vec3_get (LIGHT_MAX_BOUNDS K) 1 in
  forall (dt : Q) (N : nat) (pointLights : list PointLight) (i : nat)
         (light light' : PointLight),
    length pointLights = MAX_NUM_LIGHTS K ->
    pointLights !! i = Some light ->
    within min max (light_y light) ->
    Nat.iter N (UpdateLights fp K dt) pointLights !! i = Some light' ->
    (light_y light'
     == wrap_into min (max - min)
          (light_y light - (9 # 2) * dt * inject_Z (Z.of_nat N)))%Q.

(** [x] is a multiple of [g]. *)
Definition on_grid (g x : Q) : Prop := exists k : Z, (x == inject_Z k * g)%Q.

(** The arithmetic is exact on the multiples of [g] up to [B] in
    magnitude: each of them is a [float] and a [double].  For IEEE
    arithmetic this is so for [g] a power of two and [B] below
    [2^24 * g]. *)
Definition exact_on_grid (fp : FP.Rounding) (g B : Q) : Prop :=
  forall x, on_grid g x -> (Qabs x <= B)%Q ->
    FP.representable (FP.RF fp) x /\ FP.representable (FP.RD fp) x.

(** No operation of [fall] overflows: each rounded result is in the
    finite range of its type. *)
Definition fall_in_range (fp : FP.Rounding) (K : Consts) (dt py : Q) : Prop :=
  let min := vec3_get (LIGHT_MIN_BOUNDS K) 1 in
  let max := vec3_get (LIGHT_MAX_BOUNDS K) 1 in
  let step := FP.RD fp (- (9 # 2) * dt)%Q in
  let a1 := FP.RD fp (py + step)%Q in
  let a2 := FP.RD fp (a1 - min)%Q in
  let a3 := FP.RD fp (a2 + max)%Q in
  let r := FP.RD fp (FP.fmod a3 max + min)%Q in
  FP.finite FP.double_max step /\ FP.finite FP.double_max a1
  /\ FP.finite FP.double_max a2 /\ FP.finite FP.double_max a3
  /\ FP.finite FP.double_max r /\ FP.finite FP.float_max (FP.RF fp r).

(** The heights from which one step of [fall] is computed without
    rounding, when the arithmetic is exact on the multiples of [g] up to
    [B]: multiples of [g], not below the lower bound, and small enough for
    every intermediate result to stay within [B]. *)
Definition exact_height (K : Consts) (dt g B py : Q) : Prop :=
  let min := vec3_get (LIGHT_MIN_BOUNDS K) 1 in
  let max := vec3_get (LIGHT_MAX_BOUNDS K) 1 in
  on_grid g py /\ (min <= py)%Q
  /\ (Qabs py + Qabs ((9 # 2) * dt) + Qabs min + max <= B)%Q.

(** The first and the last [Program] node of a given name. *)
Definition first_named (name : string) (programs : list ProgramNode)
  : option ProgramNode :=
  find (fun program => bool_decide (program_name program = name)) programs.

Definition last_named (name : string) (programs : list ProgramNode)
  : option ProgramNode :=
  first_named name (rev programs).

(** Replacement semantics: after registering [programs], every name maps
    to the program compiled from the most recent node of that name. *)
Definition registers_latest (programs : list ProgramNode)
    (cache : gmap string GLShaderProgram) : Prop :=
  forall name node,
    last_named name programs = Some node ->
    m_programShaders <$> cache !! name = Some (program_shaders node).

(** The cache of a call that returned (empty otherwise). *)
Definition cache_of (o : Outcome (RenderSystem * GLState))
  : gmap string GLShaderProgram :=
  match o with
  | Returned st => m_shaderCache st.1
  | _ => ∅
  end.

(** A program object that has been deleted. *)
Definition released (gl : GLState) (p : GLShaderProgram) : Prop :=
  m_programID p ∉ gl_programs gl.

(** *** Replaying a trace

    What a draw or a dispatch works with is decided by the calls before
    it.  [Pipeline] is the part of the GL state needed to tell: the bound
    framebuffer, the program in use, and the uniforms of the program
    objects (by program name and uniform name). *)

Record Pipeline := {
  bound_fb : Target;
  cur_prog : option GLShaderProgram;
  uniforms : gmap (N * string) UniformValue
}.

Definition gl_step (st : Pipeline) (c : GLCall) : Pipeline :=
  match c with
  | FramebufferBind t =>
      {| bound_fb := t; cur_prog := cur_prog st; uniforms := uniforms st |}
  | ShaderBind p =>
      {| bound_fb := bound_fb st; cur_prog := Some p; uniforms := uniforms st |}
  | SetUniform p name v =>
      {| bound_fb := bound_fb st; cur_prog := cur_prog st;
         uniforms := <[ (m_programID p, name) := v ]> (uniforms st) |}
  | _ => st
  end.

Definition run (st : Pipeline) (trace : list GLCall) : Pipeline :=
  foldl gl_step st trace.

(** The calls that submit work to the GPU. *)
Definition is_work (c : GLCall) : bool :=
  match c with
  | glDispatchCompute _ _ _ | glDrawElements _ | Skybox_Draw
  | glDrawArrays _ _ => true
  | _ => false
  end.

(** The work submitted by a trace, in order, each with the state it was
    submitted in. *)
Fixpoint submissions (st : Pipeline) (trace : list GLCall)
  : list (GLCall * Pipeline) :=
  match trace with
  | [] => []
  | c :: rest =>
      (if is_work c then [(c, st)] else [])
      ++ submissions (gl_step st c) rest
  end.

(** What was submitted, into which framebuffer, under which program. *)
Definition submitted (s : GLCall * Pipeline)
  : GLCall * Target * option GLShaderProgram :=
  (s.1, bound_fb s.2, cur_prog s.2).

(** The value of uniform [name] of program [p] seen by a submission. *)
Definition uniform_at (s : GLCall * Pipeline) (p : GLShaderProgram)
    (name : string) : option UniformValue :=
  uniforms s.2 !! (m_programID p, name).

(** The meshes of a render list in drawing order, each with its model. *)
Definition draw_list (renderList : list Model) : list (Model * Mesh) :=
  flat_map (fun model => (fun mesh => (model, mesh)) <$> GetMeshes model)
           renderList.

Definition material_uniform (name : string) : Prop :=
  name = "albedo" \/ name = "metallic" \/ name = "ao" \/ name = "roughness".

(** A draw of the depth pass: the mesh of the entry is drawn with the
    model matrix of the entry, and every other uniform of the depth shader
    is what it was in [st0], when the frame began. *)
Definition depth_draw (st0 : Pipeline) (shader : GLShaderProgram)
    (entry : Model * Mesh) (s : GLCall * Pipeline) : Prop :=
  s.1 = glDrawElements (GetIndexCount entry.2)
  /\ uniform_at s shader "modelMatrix"
     = Some (UMatrix4 (GetModelMatrix entry.1))
  /\ forall name, name <> "modelMatrix" ->
       uniform_at s shader name = uniforms st0 !! (m_programID shader, name).

(** A draw of the shading pass: the mesh of the entry is drawn with the
    model matrix and the four material uniforms of the entry. *)
Definition shading_draw (shader : GLShaderProgram) (entry : Model * Mesh)
    (s : GLCall * Pipeline) : Prop :=
  let material := GetMaterial entry.1 in
  s.1 = glDrawElements (GetIndexCount entry.2)
  /\ uniform_at s shader "modelMatrix"
     = Some (UMatrix4 (GetModelMatrix entry.1))
  /\ uniform_at s shader "albedo" = Some (U3f (Albedo material))
  /\ uniform_at s shader "metallic" = Some (U1f (Metallic material))
  /\ uniform_at s shader "ao" = Some (U1f (AO material))
  /\ uniform_at s shader "roughness" = Some (U1f (Roughness material)).

(** The key of the model-matrix uniform of a program. *)
Definition modelMatrix_key (shader : GLShaderProgram) : N * string :=
  (m_programID shader, "modelMatrix").

(** What a draw of [renderModels] sees, relative to the state [st] in
    which the loop was entered. *)
Definition seen (shader : GLShaderProgram) (depthPass : bool) (st : Pipeline)
    (entry : Model * Mesh) (s : GLCall * Pipeline) : Prop :=
  s.1 = glDrawElements (GetIndexCount entry.2)
  /\ bound_fb s.2 = bound_fb st /\ cur_prog s.2 = cur_prog st
  /\ uniforms s.2 !! modelMatrix_key shader
     = Some (UMatrix4 (GetModelMatrix entry.1))
  /\ if depthPass
     then forall k, k <> modelMatrix_key shader ->
                    uniforms s.2 !! k = uniforms st !! k
     else shading_draw shader entry s.

(** What the loop of [renderModels] leaves behind. *)
Definition left_by (shader : GLShaderProgram) (depthPass : bool)
    (st st' : Pipeline) : Prop :=
  bound_fb st' = bound_fb st /\ cur_prog st' = cur_prog st
  /\ (depthPass = true ->
      forall k, k <> modelMatrix_key shader ->
                uniforms st' !! k = uniforms st !! k).

(** The static references of a process in which [Render] has not run. *)
Definition unbound_statics : RenderStatics :=
  {| static_depthShader := None; static_lightCullShader := None;
     static_pbrShader := None; static_postProcessShader := None |}.

(** The four static references are bound, to these programs. *)
Definition statics_hold (statics : RenderStatics)
    (depthShader lightCullShader pbrShader postProcessShader : GLShaderProgram)
  : Prop :=
  static_depthShader statics = Some depthShader
  /\ static_lightCullShader statics = Some lightCullShader
  /\ static_pbrShader statics = Some pbrShader
  /\ static_postProcessShader statics = Some postProcessShader.

(** The static reference that is initialised from the cache entry
    [name]. *)
Definition static_of (name : string) (statics : RenderStatics)
  : option GLShaderProgram :=
  if bool_decide (name = "DepthPassShader") then static_depthShader statics
  else if bool_decide (name = "LightCullShader")
       then static_lightCullShader statics
  else if bool_decide (name = "PBRShader") then static_pbrShader statics
  else if bool_decide (name = "PostProcessShader")
       then static_postProcessShader statics
  else None.

(** The names [Render] looks up, in the order of the declarations. *)
Definition required_programs : list string :=
  [ "DepthPassShader"; "LightCullShader"; "PBRShader"; "PostProcessShader" ].

(** Each static reference is bound already, or the cache of [rs] has the
    entry it is initialised from. *)
Definition renderable (statics : RenderStatics) (rs : RenderSystem) : Prop :=
  forall name, name ∈ required_programs ->
    is_Some (static_of name statics) \/ is_Some (m_shaderCache rs !! name).

(** The work of the four passes, in their order: one draw per mesh into
    the depth framebuffer under [d], the dispatch under [l], one draw per
    mesh into the HDR framebuffer and the skybox under [p], the screen
    quad into the default framebuffer under [pp]. *)
Definition four_passes (rs : RenderSystem) (scene : SceneBase)
    (d l p pp : GLShaderProgram)
  : list (GLCall * Target * option GLShaderProgram) :=
  ((fun entry => (glDrawElements (GetIndexCount entry.2), DepthFBO, Some d))
     <$> draw_list (m_renderList scene))
  ++ [ (glDispatchCompute (m_workGroupsX rs) (m_workGroupsY rs) 1,
        DefaultFramebuffer, Some l) ]
  ++ ((fun entry => (glDrawElements (GetIndexCount entry.2), HdrFBO, Some p))
        <$> draw_list (m_renderList scene))
  ++ [ (Skybox_Draw, HdrFBO, Some p);
       (glDrawArrays 0 4, DefaultFramebuffer, Some pp) ].

(** The four material uniforms of [model] are set on [shader] somewhere
    in [trace]. *)
Definition sets_material (trace : list GLCall) (shader : GLShaderProgram)
    (model : Model) : Prop :=
  SetUniform shader "albedo" (U3f (Albedo (GetMaterial model))) ∈ trace
  /\ SetUniform shader "metallic" (U1f (Metallic (GetMaterial model))) ∈ trace
  /\ SetUniform shader "ao" (U1f (AO (GetMaterial model))) ∈ trace
  /\ SetUniform shader "roughness" (U1f (Roughness (GetMaterial model)))
     ∈ trace.

(** The value the shading pass gives a material uniform of an entry. *)
Definition material_value (model : Model) (name : string)
    (v : UniformValue) : Prop :=
  (name = "albedo" /\ v = U3f (Albedo (GetMaterial model)))
  \/ (name = "metallic" /\ v = U1f (Metallic (GetMaterial model)))
  \/ (name = "ao" /\ v = U1f (AO (GetMaterial model)))
  \/ (name = "roughness" /\ v = U1f (Roughness (GetMaterial model))).

(** Every call of [Render] runs to its end. *)
Definition passes_always_execute : Prop :=
  forall statics rs scene,
    frame_outcome (Render statics rs scene) = Returned tt.

(** In the shading pass all four material uniforms are set for every
    entry of the render list. *)
Definition shading_sets_every_material (rs : RenderSystem)
    (scene : SceneBase) (pbrShader : GLShaderProgram) : Prop :=
  forall model, model ∈ m_renderList scene ->
    sets_material (shadingPass rs scene pbrShader) pbrShader model.

(** ** Sample data

    A freshly constructed render system (the constructor zeroes the sizes),
    an empty GL state, and sample values for the constants of
    RenderSystem.h. *)

Definition RenderSystem_ctor : RenderSystem :=
  {| m_width := 0; m_height := 0; m_workGroupsX := 0; m_workGroupsY := 0;
     m_projMatrix := [];
     m_depthFBO := None; m_hdrFBO := None;
     m_shaderCache := ∅;
     m_uboMatrices := 0; m_lightBuffer := 0;
     m_visibleLightIndicesBuffer := 0;
     m_depthTexture := 0; m_hdrColorBufferTexture := 0;
     m_irradianceMap := 0; m_quadVAO := 0;
     m_vibrance := 0; m_coefficient := Vec3 0 0 0 |}.

Definition gl_initial : GLState :=
  {| gl_viewport := (0, 0, 0, 0);
     gl_uboProjection := None; gl_uboView := None;
     gl_lights := [];
     gl_visibleLightIndices := 0;
     gl_programs := ∅; gl_nextProgram := 1 |}.

Definition sample_consts : Consts :=
  {| MAX_NUM_LIGHTS := 1024;
     LIGHT_MIN_BOUNDS := Vec3 (-135) (-20) (-60);
     LIGHT_MAX_BOUNDS := Vec3 135 170 60;
     sizeof_VisibleLightIndex := 4 |}.

(** A driver on which everything succeeds and whose generator produces
    the constant sample [u]. *)
Definition sample_driver (u : Q) : Driver :=
  {| gladLoadGLLoader := true;
     gen_uboMatrices := 1; gen_lightBuffer := 2;
     gen_visibleLightIndicesBuffer := 3;
     gen_depthTexture := 1; gen_hdrColorBufferTexture := 2;
     gen_irradianceMap := 3; gen_quadVAO := 1;
     random_device := {| samples := fun _ => u; cursor := 0 |};
     color_order := fun _ => Eval_012 |}.

(** A driver whose generator yields 1/8, 2/8, 3/8, 1/8, ... and on which
    the colour arguments are evaluated from right to left. *)
Definition right_to_left_driver : Driver :=
  {| gladLoadGLLoader := true;
     gen_uboMatrices := 1; gen_lightBuffer := 2;
     gen_visibleLightIndicesBuffer := 3;
     gen_depthTexture := 1; gen_hdrColorBufferTexture := 2;
     gen_irradianceMap := 3; gen_quadVAO := 1;
     random_device :=
       {| samples := fun k => (inject_Z (Z.of_nat (k mod 3) + 1) / 8)%Q;
          cursor := 0 |};
     color_order := fun _ => Eval_210 |}.

(** A configuration with the four programs that [Render] looks up. *)
Definition sample_programs : list ProgramNode :=
  [ {| program_name := "DepthPassShader";
       program_shaders := [ {| shader_path := "depth.vert"; shader_type := "vertex" |};
                            {| shader_path := "depth.frag"; shader_type := "fragment" |} ] |};
    {| program_name := "LightCullShader";
       program_shaders := [ {| shader_path := "cull.comp"; shader_type := "compute" |} ] |};
    {| program_name := "PBRShader";
       program_shaders := [ {| shader_path := "pbr.vert"; shader_type := "vertex" |};
                            {| shader_path := "pbr.frag"; shader_type := "fragment" |} ] |};
    {| program_name := "PostProcessShader";
       program_shaders := [ {| shader_path := "post.vert"; shader_type := "vertex" |};
                            {| shader_path := "post.frag"; shader_type := "fragment" |} ] |} ].

Definition sample_config (width height : Z) : RendererNode :=
  {| attr_width := width; attr_height := height;
     child_Program := sample_programs |}.

(** Two [Program] nodes of the same name with different shaders. *)
Definition duplicate_programs : list ProgramNode :=
  [ {| program_name := "PBRShader";
       program_shaders := [ {| shader_path := "pbr.frag"; shader_type := "fragment" |} ] |};
    {| program_name := "PBRShader";
       program_shaders := [ {| shader_path := "pbr_v2.frag"; shader_type := "fragment" |} ] |} ].

(** Drivers on which the loader fails, and on which no light buffer is
    created. *)
Definition driver_without_loader : Driver :=
  {| gladLoadGLLoader := false;
     gen_uboMatrices := 0; gen_lightBuffer := 0;
     gen_visibleLightIndicesBuffer := 0;
     gen_depthTexture := 0; gen_hdrColorBufferTexture := 0;
     gen_irradianceMap := 0; gen_quadVAO := 0;
     random_device := {| samples := fun _ => 0%Q; cursor := 0 |};
     color_order := fun _ => Eval_012 |}.

Definition driver_without_light_buffer : Driver :=
  {| gladLoadGLLoader := true;
     gen_uboMatrices := 1; gen_lightBuffer := 0;
     gen_visibleLightIndicesBuffer := 3;
     gen_depthTexture := 1; gen_hdrColorBufferTexture := 2;
     gen_irradianceMap := 3; gen_quadVAO := 1;
     random_device := {| samples := fun _ => 0%Q; cursor := 0 |};
     color_order := fun _ => Eval_012 |}.

(** The state a call returned (the initial one if it did not return). *)
Definition state_of (o : Outcome (RenderSystem * GLState))
  : RenderSystem * GLState :=
  match o with
  | Returned st => st
  | _ => (RenderSystem_ctor, gl_initial)
  end.

(** The state after [Init] on a [width] by [height] configuration. *)
Definition sample_state (width height : Z) : RenderSystem * GLState :=
  state_of (Init FP.ieee sample_consts (sample_driver (1 # 2))
                 (sample_config width height) RenderSystem_ctor gl_initial).

(** After [Shutdown], looking any name up fails. *)
Definition lookup_fails_after_shutdown (st : RenderSystem * GLState) : Prop :=
  forall name,
    cache_at (m_shaderCache (Shutdown st).1) name = Threw "out_of_range".

Definition sample_camera : Camera :=
  {| GetViewMatrix := [1; 0; 0; 0; 0; 1; 0; 0; 0; 0; 1; 0; 0; 0; 0; 1]%Q;
     GetPosition := Vec3 0 0 0;
     GetProjMatrix := fun width height =>
       [inject_Z height / inject_Z width; 1; -1; -1]%Q |}.

(** The window was resized to [width] by [height]. *)
Definition resized (width height : Z) : Input :=
  {| ShouldResize := true; GetWidth := width; GetHeight := height |}.

Definition not_resized : Input :=
  {| ShouldResize := false; GetWidth := 0; GetHeight := 0 |}.

(** The programs [Init] registered in [sample_state 800 600]. *)
Definition sample_shader (name : string) : GLShaderProgram :=
  default {| m_programName := name; m_programShaders := []; m_programID := 0 |}
          (m_shaderCache (sample_state 800 600).1 !! name).

(** A scene of three models: two meshes, none (a model that failed to
    load), one. *)
Definition sample_scene : SceneBase :=
  {| GetCamera := sample_camera;
     m_renderList :=
       [ {| GetModelMatrix := [1; 0; 0; 0; 0; 1; 0; 0; 0; 0; 1; 0; 2; 0; 0; 1]%Q;
            GetMaterial := {| Albedo := Vec3 1 0 0; Metallic := 1 # 2;
                              AO := 1; Roughness := 1 # 4 |};
            GetMeshes := [ {| GetVAO := 1; GetIndexCount := 36 |};
                           {| GetVAO := 2; GetIndexCount := 6 |} ] |};
         {| GetModelMatrix := [1; 0; 0; 0; 0; 1; 0; 0; 0; 0; 1; 0; 0; 0; 0; 1]%Q;
            GetMaterial := {| Albedo := Vec3 0 1 0; Metallic := 0;
                              AO := 1; Roughness := 1 |};
            GetMeshes := [] |};
         {| GetModelMatrix := [1; 0; 0; 0; 0; 1; 0; 0; 0; 0; 1; 0; 0; 3; 0; 1]%Q;
            GetMaterial := {| Albedo := Vec3 0 0 1; Metallic := 3 # 4;
                              AO := 1 # 2; Roughness := 1 # 8 |};
            GetMeshes := [ {| GetVAO := 3; GetIndexCount := 12 |} ] |} ];
     m_sun := {| sun_Direction := Vec3 0 (-1) 0; sun_Color := Vec3 1 1 1 |} |}.

Definition pipeline_initial : Pipeline :=
  {| bound_fb := DefaultFramebuffer; cur_prog := None; uniforms := ∅ |}.

(** A light at height [py], and a buffer filled with it. *)
Definition sample_light (py : Q) : PointLight :=
  {| Position := Vec4 0 py 0 1;
     Color := Vec4 1 1 1 1;
     RadiusAndPadding := Vec4 0 0 0 30 |}.

Definition sample_buffer (py : Q) : list PointLight :=
  replicate (MAX_NUM_LIGHTS sample_consts) (sample_light py).

(** Bounds that are [float] values while their difference is not:
    [min = -2^-24], [max = 2 - 2^-23] along every axis. *)
Definition tight_consts : Consts :=
  {| MAX_NUM_LIGHTS := 4;
     LIGHT_MIN_BOUNDS :=
       Vec3 (-(1 # 16777216)) (-(1 # 16777216)) (-(1 # 16777216));
     LIGHT_MAX_BOUNDS :=
       Vec3 (16777215 # 8388608) (16777215 # 8388608) (16777215 # 8388608);
     sizeof_VisibleLightIndex := 4 |}.

(** A sample close to 1: the [double] value [1 - 2^-30]. *)
Definition high_sample : Q := 1073741823 # 1073741824.

(** ** The calls made on an initialised render system *)

Inductive Call :=
| CallInitView (camera : Camera)
| CallUpdate (input : Input) (camera : Camera) (delta : Q)
| CallShutdown.

Definition call (fp : FP.Rounding) (K : Consts)
    (st : RenderSystem * GLState) (c : Call) : RenderSystem * GLState :=
  match c with
  | CallInitView camera => InitView camera st
  | CallUpdate input camera delta => Update fp K input camera delta st
  | CallShutdown => Shutdown st
  end.

Definition calls (fp : FP.Rounding) (K : Consts)
    (st : RenderSystem * GLState) (cs : list Call) : RenderSystem * GLState :=
  foldl (call fp K) st cs.

(** A call that writes the projection matrix: [InitView], or an [Update]
    that sees a resize. *)
Definition writes_projection (c : Call) : bool :=
  match c with
  | CallInitView _ => true
  | CallUpdate input _ _ => ShouldResize input
  | CallShutdown => false
  end.

(** The projection half of the uniform buffer holds the member
    [m_projMatrix]. *)
Definition projection_uploaded (st : RenderSystem * GLState) : Prop :=
  gl_uboProjection st.2 = Some (m_projMatrix st.1).

(** The viewport and the depth framebuffer have the current size
    [m_width] x [m_height]; the HDR framebuffer has the size [w] x [h]. *)
Definition sized (w h : Z) (st : RenderSystem * GLState) : Prop :=
  gl_viewport st.2 = (0, 0, m_width st.1, m_height st.1)
  /\ (exists f, m_depthFBO st.1 = Some f
        /\ fbo_width f = m_width st.1 /\ fbo_height f = m_height st.1)
  /\ (exists f, m_hdrFBO st.1 = Some f
        /\ fbo_width f = w /\ fbo_height f = h).

(** A size that [glViewport] receives unchanged: a value of [GLsizei]
    that is not negative. *)
Definition GLsizei_range (x : Z) : Prop := 0 <= x < 2 ^ 31.

(** Every resize among [cs] announces such a size. *)
Definition resizes_in_range (cs : list Call) : Prop :=
  Forall (fun c =>
            match c with
            | CallUpdate input _ _ =>
                ShouldResize input = true ->
                GLsizei_range (GetWidth input)
                /\ GLsizei_range (GetHeight input)
            | _ => True
            end) cs.

(** The size the last resize among [cs] announced, [size] if there was
    none. *)
Definition last_size (size : Z * Z) (cs : list Call) : Z * Z :=
  foldl (fun size c =>
           match c with
           | CallUpdate input _ _ =>
               if ShouldResize input then (GetWidth input, GetHeight input)
               else size
           | _ => size
           end) size cs.

(** ** Counting calls *)

Definition is_uniform (c : GLCall) : bool :=
  match c with SetUniform _ _ _ => true | _ => false end.

Definition is_draw (c : GLCall) : bool :=
  match c with glDrawElements _ => true | _ => false end.

(** ** The samples behind a light *)

(** The generator after [k] more calls [dist(gen)]. *)
Definition advance (gen : mt19937_64) (k : nat) : mt19937_64 :=
  {| samples := samples gen; cursor := k + cursor gen |}.

(** The coordinate along axis [i] that [RandomPosition] computes from the
    sample [u], and the colour channel that [setupLightStorageBuffer]
    computes from it. *)
Definition axis_value (fp : FP.Rounding) (K : Consts) (i : nat) (u : Q) : Q :=
  let min := vec3_get (LIGHT_MIN_BOUNDS K) i in
  let max := vec3_get (LIGHT_MAX_BOUNDS K) i in
  FP.RF fp (FP.RF fp (FP.RF fp u * FP.RF fp (max - min)) + min)%Q.

Definition channel_value (fp : FP.Rounding) (u : Q) : Q :=
  FP.RF fp (FP.RD fp (1 + u)%Q).

(** The sample drawn in place [r] among [u0], [u1], [u2]. *)
Definition pick (u0 u1 u2 : Q) (r : nat) : Q :=
  match r with
  | O => u0
  | S O => u1
  | _ => u2
  end.

(** The light built from the three samples [u0], [u1], [u2], drawn in
    this order, when the colour arguments are evaluated in the order
    [order]: coordinate [j] of the position comes from the sample [j],
    channel [j] of the colour from the sample of rank [rank order j]. *)
Definition light_from (fp : FP.Rounding) (K : Consts) (order : ArgOrder)
    (u0 u1 u2 : Q) : PointLight :=
  {| Position := Vec4 (axis_value fp K 0 u0) (axis_value fp K 1 u1)
                      (axis_value fp K 2 u2) 1;
     Color := Vec4 (channel_value fp (pick u0 u1 u2 (rank order 0)))
                   (channel_value fp (pick u0 u1 u2 (rank order 1)))
                   (channel_value fp (pick u0 u1 u2 (rank order 2))) 1;
     RadiusAndPadding := Vec4 0 0 0 30 |}.

(** ** Texture and buffer bindings

    The bindings a draw or a dispatch reads through: the active texture
    unit, the texture bound to each target of each unit, and the buffer
    bound to each indexed shader-storage binding point. *)

Record Bindings := {
  active_unit : Z;
  texture_at : Z -> TextureTarget -> Z;
  buffer_base : Z -> Z
}.

Definition TextureTarget_eqb (a b : TextureTarget) : bool :=
  match a, b with
  | TEXTURE_2D, TEXTURE_2D | TEXTURE_CUBE_MAP, TEXTURE_CUBE_MAP => true
  | _, _ => false
  end.

Definition bind_step (b : Bindings) (c : GLCall) : Bindings :=
  match c with
  | glActiveTexture unit =>
      {| active_unit := unit; texture_at := texture_at b;
         buffer_base := buffer_base b |}
  | glBindTexture target texture =>
      {| active_unit := active_unit b;
         texture_at := fun u t =>
           if (u =? active_unit b) && TextureTarget_eqb t target
           then texture else texture_at b u t;
         buffer_base := buffer_base b |}
  | glBindBufferBase index buffer =>
      {| active_unit := active_unit b; texture_at := texture_at b;
         buffer_base := fun i =>
           if i =? index then buffer else buffer_base b i |}
  | _ => b
  end.

Definition context_step (st : Pipeline * Bindings) (c : GLCall)
  : Pipeline * Bindings :=
  (gl_step st.1 c, bind_step st.2 c).

Definition run_context (st : Pipeline * Bindings) (trace : list GLCall)
  : Pipeline * Bindings :=
  foldl context_step st trace.

(** The work submitted by a trace, each with the pipeline state and the
    bindings it was submitted under. *)
Fixpoint snapshots (st : Pipeline * Bindings) (trace : list GLCall)
  : list (GLCall * (Pipeline * Bindings)) :=
  match trace with
  | [] => []
  | c :: rest =>
      (if is_work c then [(c, st)] else [])
      ++ snapshots (context_step st c) rest
  end.

(** The value of uniform [name] of program [p] in a context. *)
Definition uniform_in (st : Pipeline * Bindings) (p : GLShaderProgram)
    (name : string) : option UniformValue :=
  uniforms st.1 !! (m_programID p, name).

(** What the culling dispatch runs under. *)
Definition cull_context (rs : RenderSystem) (scene : SceneBase)
    (lightCullShader : GLShaderProgram) (st : Pipeline * Bindings) : Prop :=
  cur_prog st.1 = Some lightCullShader
  /\ uniform_in st lightCullShader "projection"
     = Some (UMatrix4 (m_projMatrix rs))
  /\ uniform_in st lightCullShader "view"
     = Some (UMatrix4 (GetViewMatrix (GetCamera scene)))
  /\ uniform_in st lightCullShader "depthMap" = Some (U1i 5)
  /\ texture_at st.2 5 TEXTURE_2D = m_depthTexture rs
  /\ buffer_base st.2 0 = m_lightBuffer rs
  /\ buffer_base st.2 1 = m_visibleLightIndicesBuffer rs.

(** What every draw of the shading pass runs under. *)
Definition shading_context (rs : RenderSystem) (scene : SceneBase)
    (pbrShader : GLShaderProgram) (st : Pipeline * Bindings) : Prop :=
  bound_fb st.1 = HdrFBO
  /\ cur_prog st.1 = Some pbrShader
  /\ uniform_in st pbrShader "irradianceMap" = Some (U1i 0)
  /\ uniform_in st pbrShader "wireframe" = Some (U1i 1)
  /\ uniform_in st pbrShader "viewPos"
     = Some (U3f (GetPosition (GetCamera scene)))
  /\ uniform_in st pbrShader "sunDirection"
     = Some (U3f (sun_Direction (m_sun scene)))
  /\ uniform_in st pbrShader "sunColor" = Some (U3f (sun_Color (m_sun scene)))
  /\ active_unit st.2 = 0
  /\ texture_at st.2 0 TEXTURE_CUBE_MAP = m_irradianceMap rs.

(** What the screen quad is drawn under. *)
Definition post_context (rs : RenderSystem)
    (postProcessShader : GLShaderProgram) (st : Pipeline * Bindings) : Prop :=
  bound_fb st.1 = DefaultFramebuffer
  /\ cur_prog st.1 = Some postProcessShader
  /\ uniform_in st postProcessShader "vibranceAmount"
     = Some (U1f (m_vibrance rs))
  /\ uniform_in st postProcessShader "vibranceCoefficient"
     = Some (U3f (m_coefficient rs))
  /\ active_unit st.2 = 0
  /\ texture_at st.2 0 TEXTURE_2D = m_hdrColorBufferTexture rs.

(** The uniforms [renderModels] sets. *)
Definition model_uniforms : list string :=
  [ "modelMatrix"; "albedo"; "metallic"; "ao"; "roughness" ].

(** ** More sample data *)

Definition bindings_initial : Bindings :=
  {| active_unit := 0; texture_at := fun _ _ => 0; buffer_base := fun _ => 0 |}.

(** The submissions of a frame on [sample_state 800 600], and the [k]-th
    of them. *)
Definition sample_snapshots : list (GLCall * (Pipeline * Bindings)) :=
  snapshots (pipeline_initial, bindings_initial)
            (frame_calls
               (Render unbound_statics (sample_state 800 600).1
                       sample_scene)).

Definition sample_snapshot (k : nat) : GLCall * (Pipeline * Bindings) :=
  default (Skybox_Draw, (pipeline_initial, bindings_initial))
          (sample_snapshots !! k).

(** Calls on an initialised render system: a resize, a shutdown, a frame
    update. *)
Definition sample_calls : list Call :=
  [ CallUpdate (resized 1024 768) sample_camera (1 # 64);
    CallShutdown;
    CallUpdate not_resized sample_camera (1 # 64) ].

(** * Model loading: a shallow embedding of [Model] (Model.cpp)

    [Model] imports a scene through Assimp and copies it into meshes.  The
    importer is an oracle; what it hands back is kept as the data the code
    reads: the scene flags, the node tree, the mesh and material arrays. *)

Module ModelFile.

Import Stdlib.Strings.Ascii.

(** ** What the importer hands back *)

Record aiVector3D := { ai_x : Q; ai_y : Q; ai_z : Q }.

(** A face: [mNumIndices] is the length of [mIndices]. *)
Record aiFace := { mIndices : list Z }.

Inductive aiTextureType :=
| aiTextureType_DIFFUSE
| aiTextureType_SPECULAR
| aiTextureType_AMBIENT
| aiTextureType_HEIGHT.

(** A material: [GetTextureCount(type)] is the length of
    [material_textures type], [GetTexture(type, i, &str)] stores its
    [i]-th element in [str]. *)
Record aiMaterial := { material_textures : aiTextureType -> list string }.

Definition GetTextureCount (mat : aiMaterial) (type : aiTextureType) : nat :=
  length (material_textures mat type).

(** A mesh.  The per-vertex arrays are null ([None]) or hold one entry per
    vertex; [mTextureCoords0] is the channel [mTextureCoords[0]];
    [mNumFaces] is the length of [mFaces]. *)
Record aiMesh := {
  mNumVertices : nat;
  mVertices : option (list aiVector3D);
  mNormals : option (list aiVector3D);
  mTangents : option (list aiVector3D);
  mBitangents : option (list aiVector3D);
  mTextureCoords0 : option (list aiVector3D);
  mFaces : list aiFace;
  mMaterialIndex : nat
}.

Definition HasPositions (mesh : aiMesh) : bool :=
  bool_decide (is_Some (mVertices mesh)) && bool_decide (0 < mNumVertices mesh)%nat.

Definition HasNormals (mesh : aiMesh) : bool :=
  bool_decide (is_Some (mNormals mesh)) && bool_decide (0 < mNumVertices mesh)%nat.

Definition HasTangentsAndBitangents (mesh : aiMesh) : bool :=
  bool_decide (is_Some (mTangents mesh))
  && bool_decide (is_Some (mBitangents mesh))
  && bool_decide (0 < mNumVertices mesh)%nat.

(** A node of the scene graph: the indices of its meshes in the mesh array
    of the scene ([aiNode::mMeshes]) and its children. *)
#[warnings="-register-all"]
Inductive aiNode :=
| Build_aiNode (node_mMeshes : list nat) (mChildren : list aiNode).

Definition node_mMeshes (node : aiNode) : list nat :=
  match node with Build_aiNode ids _ => ids end.

Definition mChildren (node : aiNode) : list aiNode :=
  match node with Build_aiNode _ children => children end.

Record aiScene := {
  mFlags : Z;
  mRootNode : option aiNode;
  mMeshes : list aiMesh;
  mMaterials : list aiMaterial
}.

(** [AI_SCENE_FLAGS_INCOMPLETE] of assimp/scene.h. *)
Definition AI_SCENE_FLAGS_INCOMPLETE : Z := 1.

(** [Assimp::Importer]: [ReadFile] answers a scene or null for a path and
    one of the two sets of post-processing flags [loadModel] passes (the
    set with [aiProcess_FlipWindingOrder] when the boolean is set);
    [GetErrorString] is its message. *)
Record Importer := {
  ReadFile : string -> bool -> option aiScene;
  GetErrorString : string
}.

(** ** What the loader builds *)

Inductive WrapMode := REPEAT.

(** A texture, as the arguments it was constructed from. *)
Record Texture := {
  texture_path : string;
  texture_samplerName : string;
  texture_wrapMode : WrapMode
}.

(** A vertex.  [Position], [Normal] and [Tangent] are [None] where
    [processMesh] assigns nothing to the default-constructed vertex. *)
Record Vertex := {
  Position : option vec3;
  Normal : option vec3;
  Tangent : option vec3;
  TexCoords : Q * Q
}.

(** A mesh, as the arguments of [Mesh(vertices, indices, textures)]. *)
Record Mesh := {
  vertices : list Vertex;
  indices : list Z;
  textures : list Texture
}.

Record Model := {
  m_name : string;
  m_path : string;
  m_meshes : list Mesh;
  m_loadedTextures : list Texture
}.

Definition set_path (path : string) (m : Model) : Model :=
  {| m_name := m_name m; m_path := path; m_meshes := m_meshes m;
     m_loadedTextures := m_loadedTextures m |}.

Definition push_mesh (mesh : Mesh) (m : Model) : Model :=
  {| m_name := m_name m; m_path := m_path m;
     m_meshes := m_meshes m ++ [mesh];
     m_loadedTextures := m_loadedTextures m |}.

Definition push_loadedTexture (texture : Texture) (m : Model) : Model :=
  {| m_name := m_name m; m_path := m_path m; m_meshes := m_meshes m;
     m_loadedTextures := m_loadedTextures m ++ [texture] |}.

(** ** Strings *)

(** [s.find_last_of(c)]: the position of the last [c] in [s], [None] for
    [npos]. *)
Fixpoint find_last_of (c : ascii) (s : string) : option nat :=
  match s with
  | EmptyString => None
  | String a rest =>
      match find_last_of c rest with
      | Some i => Some (S i)
      | None => if Ascii.eqb a c then Some 0%nat else None
      end
  end.

(** [s.substr(0, count)]: the first [count] characters, all of [s] when
    [count] is [npos] or past the end. *)
Definition substr0 (count : option nat) (s : string) : string :=
  match count with
  | Some n => String.substring 0 n s
  | None => s
  end.

(** ** [loadMatTextures] *)

Section Loading.

(** [loadedTex.GetPath().c_str() == str.C_Str()] compares two pointers:
    the character buffer of the path of a loaded texture and the buffer of
    the local [aiString].  [same_buffer] answers that comparison. *)
Variable same_buffer : Texture -> string -> bool.

(** The inner loop: the first loaded texture the comparison accepts. *)
Fixpoint find_loaded (loaded : list Texture) (str : string)
  : option Texture :=
  match loaded with
  | [] => None
  | loadedTex :: rest =>
      if same_buffer loadedTex str then Some loadedTex
      else find_loaded rest str
  end.

(** One iteration of the outer loop, for the texture name [str]. *)
Definition loadMatTextures_step (samplerName : string)
    (acc : list Texture * Model) (str : string) : list Texture * Model :=
  let '(textures, m) := acc in
  match find_loaded (m_loadedTextures m) str with
  | Some loadedTex => (textures ++ [loadedTex], m)
  | None =>
      let texDirPrefix := (m_path m ++ "/")%string in
      let texture :=
        {| texture_path := (texDirPrefix ++ str)%string;
           texture_samplerName := samplerName;
           texture_wrapMode := REPEAT |} in
      (textures ++ [texture], push_loadedTexture texture m)
  end.

Definition loadMatTextures (mat : aiMaterial) (type : aiTextureType)
    (samplerName : string) (m : Model) : list Texture * Model :=
  foldl (loadMatTextures_step samplerName) ([], m)
        (material_textures mat type).

(** ** [processMesh]

    Reading an array past its end, or through a null pointer, has no
    defined behaviour: the functions below answer [None] there. *)

Definition to_vec3 (v : aiVector3D) : vec3 := Vec3 (ai_x v) (ai_y v) (ai_z v).

(** One of the three guarded copies: [if (has) { ... = arr[i]; }]. *)
Definition copy_component (has : bool) (arr : option (list aiVector3D))
    (i : nat) : option (option vec3) :=
  if has then
    a ← arr; v ← a !! i; Some (Some (to_vec3 v))
  else Some None.

Definition processVertex (mesh : aiMesh) (i : nat) : option Vertex :=
  position ← copy_component (HasPositions mesh) (mVertices mesh) i;
  normal ← copy_component (HasNormals mesh) (mNormals mesh) i;
  tangent ← copy_component (HasTangentsAndBitangents mesh) (mTangents mesh) i;
  texCoords ← (match mTextureCoords0 mesh with
               | Some coords => v ← coords !! i; Some (ai_x v, ai_y v)
               | None => Some (0%Q, 0%Q)
               end : option (Q * Q));
  Some {| Position := position; Normal := normal; Tangent := tangent;
          TexCoords := texCoords |}.

(** The vertex loop, [n] iterations from index [i] on. *)
Fixpoint vertices_loop (mesh : aiMesh) (n i : nat) (vertices : list Vertex)
  : option (list Vertex) :=
  match n with
  | O => Some vertices
  | S n' =>
      vertex ← processVertex mesh i;
      vertices_loop mesh n' (S i) (vertices ++ [vertex])
  end.

(** The face loop and, in it, the loop over the indices of a face. *)
Definition indices_loop (faces : list aiFace) (indices : list Z) : list Z :=
  foldl (fun indices face =>
           foldl (fun indices j => indices ++ [j]) indices (mIndices face))
        indices faces.

(** [processMesh].  [mMaterialIndex] is unsigned, so the test
    [mesh->mMaterialIndex >= 0] always holds. *)
Definition processMesh (scene : aiScene) (mesh : aiMesh) (m : Model)
  : option (Mesh * Model) :=
  vertices ← vertices_loop mesh (mNumVertices mesh) 0 [];
  let indices := indices_loop (mFaces mesh) [] in
  material ← mMaterials scene !! mMaterialIndex mesh;
  (* 1. Diffuse maps *)
  let '(diffuseMaps, m1) :=
    loadMatTextures material aiTextureType_DIFFUSE "texture_diffuse" m in
  (* 2. Specular maps *)
  let '(specularMaps, m2) :=
    loadMatTextures material aiTextureType_SPECULAR "texture_specular" m1 in
  Some ({| vertices := vertices; indices := indices;
           textures := diffuseMaps ++ specularMaps |}, m2).

(** ** [processNode] *)

(** The first loop: the meshes of the node. *)
Definition node_meshes_loop (scene : aiScene) (ids : list nat) (m : Model)
  : option Model :=
  foldl (fun acc id =>
           m ← acc;
           mesh ← mMeshes scene !! id;
           '(out, m1) ← processMesh scene mesh m;
           Some (push_mesh out m1))
        (Some m) ids.

Fixpoint processNode (scene : aiScene) (node : aiNode) (m : Model)
  : option Model :=
  match node with
  | Build_aiNode ids children =>
      m1 ← node_meshes_loop scene ids m;
      (fix children_loop (children : list aiNode) (m : Model)
         : option Model :=
         match children with
         | [] => Some m
         | child :: rest =>
             m' ← processNode scene child m; children_loop rest m'
         end) children m1
  end.

(** The second loop of [processNode], as a function of its own. *)
Definition children_loop (scene : aiScene) (children : list aiNode)
    (m : Model) : option Model :=
  foldl (fun acc child => m ← acc; processNode scene child m)
        (Some m) children.

(** ** [loadModel] and the constructor

    Both write to the console; the lines sent to [std::cerr] are kept, the
    progress lines sent to [std::cout] are not. *)

Definition loadModel (importer : Importer) (Path : string)
    (flipWindingOrder : bool) (m : Model)
  : option (bool * Model * list string) :=
  let scene := ReadFile importer Path flipWindingOrder in
  let failed :=
    ([ ("Assimp Error for " ++ m_name m ++ ": " ++ GetErrorString importer
        ++ endl)%string ]) in
  match scene with
  | None => Some (false, m, failed)
  | Some scene =>
      if (mFlags scene =? AI_SCENE_FLAGS_INCOMPLETE)%Z
      then Some (false, m, failed)
      else
        match mRootNode scene with
        | None => Some (false, m, failed)
        | Some root =>
            let m1 := set_path (substr0 (find_last_of "/"%char Path) Path) m in
            m2 ← processNode scene root m1;
            Some (true, m2, [])
        end
  end.

(** The constructor: the members are initialised from the arguments, then
    [loadModel] runs. *)
Definition Model_ctor (importer : Importer) (Path Name : string)
    (flipWindingOrder : bool) : option (Model * list string) :=
  let m := {| m_name := Name; m_path := Path; m_meshes := [];
              m_loadedTextures := [] |} in
  match loadModel importer Path flipWindingOrder m with
  | None => None
  | Some (true, m1, cerr) => Some (m1, cerr)
  | Some (false, m1, cerr) =>
      Some (m1, cerr ++ [ ("Failed to load: " ++ Name ++ endl)%string ])
  end.

End Loading.

(** ** Vocabulary of the loader's properties *)

(** The mesh references below a node, in the order [processNode] visits
    them: those of the node, then those of each child in turn. *)
Fixpoint preorder (node : aiNode) : list nat :=
  match node with
  | Build_aiNode ids children =>
      ids ++ (fix go (children : list aiNode) : list nat :=
                match children with
                | [] => []
                | child :: rest => preorder child ++ go rest
                end) children
  end.

(** The arrays of a mesh hold an entry for each of its vertices, and its
    material is in the material array of the scene. *)
Definition long_enough (n : nat) (arr : option (list aiVector3D)) : Prop :=
  forall a, arr = Some a -> (n <= length a)%nat.

Definition mesh_ok (scene : aiScene) (mesh : aiMesh) : Prop :=
  long_enough (mNumVertices mesh) (mVertices mesh)
  /\ long_enough (mNumVertices mesh) (mNormals mesh)
  /\ long_enough (mNumVertices mesh) (mTangents mesh)
  /\ long_enough (mNumVertices mesh) (mTextureCoords0 mesh)
  /\ (mMaterialIndex mesh < length (mMaterials scene))%nat.

(** Every mesh reference below [node] is an index into the mesh array of
    the scene, and every mesh of the scene is [mesh_ok]. *)
Definition scene_ok (scene : aiScene) (node : aiNode) : Prop :=
  Forall (fun id => (id < length (mMeshes scene))%nat) (preorder node)
  /\ Forall (mesh_ok scene) (mMeshes scene).

(** The vertex [processMesh] builds from entry [i] of the arrays of a
    mesh. *)
Definition vertex_of (mesh : aiMesh) (i : nat) (v : Vertex) : Prop :=
  Position v = (to_vec3 <$> (mVertices mesh ≫= (.!! i)))
  /\ Normal v = (to_vec3 <$> (mNormals mesh ≫= (.!! i)))
  /\ Tangent v
     = (if bool_decide (is_Some (mBitangents mesh))
        then to_vec3 <$> (mTangents mesh ≫= (.!! i)) else None)
  /\ TexCoords v
     = match mTextureCoords0 mesh ≫= (.!! i) with
       | Some c => (ai_x c, ai_y c)
       | None => (0%Q, 0%Q)
       end.

(** [out] carries the vertex and index data of [mesh]. *)
Definition mesh_of (mesh : aiMesh) (out : Mesh) : Prop :=
  length (vertices out) = mNumVertices mesh
  /\ (forall i v, vertices out !! i = Some v -> vertex_of mesh i v)
  /\ indices out = concat (mIndices <$> mFaces mesh).

(** [out] was built from the mesh that [id] refers to in [scene]. *)
Definition emitted (scene : aiScene) (out : Mesh) (id : nat) : Prop :=
  exists mesh, mMeshes scene !! id = Some mesh /\ mesh_of mesh out.

(** The number of textures [processMesh] asks for on behalf of the mesh
    that [id] refers to: the diffuse and the specular textures of its
    material. *)
Definition texture_requests (scene : aiScene) (id : nat) : nat :=
  match mMeshes scene !! id ≫= (fun mesh =>
          mMaterials scene !! mMaterialIndex mesh) with
  | Some material =>
      GetTextureCount material aiTextureType_DIFFUSE
      + GetTextureCount material aiTextureType_SPECULAR
  | None => 0
  end.

(** What the loader leaves alone while it appends meshes and textures:
    the name and the directory, and what was loaded before. *)
Definition extends (m m' : Model) : Prop :=
  m_name m' = m_name m /\ m_path m' = m_path m
  /\ m_loadedTextures m `prefix_of` m_loadedTextures m'.

(** The texture [loadMatTextures] constructs for the name [str]. *)
Definition fresh_texture (m : Model) (samplerName str : string) : Texture :=
  {| texture_path := ((m_path m ++ "/") ++ str)%string;
     texture_samplerName := samplerName;
     texture_wrapMode := REPEAT |}.

(** The character [c] does not occur in [s]. *)
Definition free_of (c : ascii) (s : string) : Prop :=
  ~ In c (String.list_ascii_of_string s).

(** The check of [loadModel] turns the answer of the importer down. *)
Definition rejected (scene : option aiScene) : Prop :=
  match scene with
  | None => True
  | Some scene =>
      mFlags scene = AI_SCENE_FLAGS_INCOMPLETE \/ mRootNode scene = None
  end.

(** ** Sample data

    A scene of two meshes (a triangle with texture coordinates, a quad of
    two faces without) sharing a material whose diffuse texture is named
    twice; the root node refers to the quad and has two children that
    refer to the triangle, the second of them also to the quad. *)

Definition sample_material : aiMaterial :=
  {| material_textures := fun type =>
       match type with
       | aiTextureType_DIFFUSE => [ "wood.png"; "wood.png" ]
       | aiTextureType_SPECULAR => [ "wood_spec.png" ]
       | _ => []
       end |}.

Definition sample_triangle : aiMesh :=
  {| mNumVertices := 3;
     mVertices := Some [ Build_aiVector3D 0 0 0; Build_aiVector3D 1 0 0;
                         Build_aiVector3D 0 1 0 ]%Q;
     mNormals := Some [ Build_aiVector3D 0 0 1; Build_aiVector3D 0 0 1;
                        Build_aiVector3D 0 0 1 ]%Q;
     mTangents := Some [ Build_aiVector3D 1 0 0; Build_aiVector3D 1 0 0;
                         Build_aiVector3D 1 0 0 ]%Q;
     mBitangents := None;
     mTextureCoords0 := Some [ Build_aiVector3D 0 0 0; Build_aiVector3D 1 0 0;
                               Build_aiVector3D 0 1 0 ]%Q;
     mFaces := [ {| mIndices := [0; 1; 2] |} ];
     mMaterialIndex := 0 |}.

Definition sample_quad : aiMesh :=
  {| mNumVertices := 4;
     mVertices := Some [ Build_aiVector3D 0 0 0; Build_aiVector3D 1 0 0;
                         Build_aiVector3D 1 1 0; Build_aiVector3D 0 1 0 ]%Q;
     mNormals := None; mTangents := None; mBitangents := None;
     mTextureCoords0 := None;
     mFaces := [ {| mIndices := [0; 1; 2] |}; {| mIndices := [0; 2; 3] |} ];
     mMaterialIndex := 0 |}.

Definition sample_root : aiNode :=
  Build_aiNode [1%nat]
    [ Build_aiNode [0%nat] []; Build_aiNode [0%nat; 1%nat] [] ].

Definition sample_aiScene (flags : Z) : aiScene :=
  {| mFlags := flags; mRootNode := Some sample_root;
     mMeshes := [ sample_triangle; sample_quad ];
     mMaterials := [ sample_material ] |}.

(** An importer that answers [scene] for every path. *)
Definition sample_importer (scene : option aiScene) : Importer :=
  {| ReadFile := fun _ _ => scene; GetErrorString := "No such file" |}.

(** The comparison of two pointers to distinct objects. *)
Definition distinct_buffers (loadedTex : Texture) (str : string) : bool :=
  false.

Definition sample_model : Model :=
  {| m_name := "crate"; m_path := "Data/models/crate.obj"; m_meshes := [];
     m_loadedTextures := [] |}.

End ModelFile.

(** * Sanity checks of the arithmetic *)

Example pow2_neg : (FP.pow2 (-3) == 1 # 8)%Q.
Proof. reflexivity. Qed.
Example ilog2_5 : FP.ilog2 5 = 2. Proof. reflexivity. Qed.
Example ilog2_third : FP.ilog2 (1 # 3) = -2. Proof. reflexivity. Qed.
Example rne_half : FP.rne (5 # 2) = 2 /\ FP.rne (7 # 2) = 4. Proof. split; reflexivity. Qed.
Example round_tenth :
  (FP.RF FP.ieee (1 # 10) == 13421773 # 134217728)%Q.
Proof. vm_compute. reflexivity. Qed.
Example fmod_neg : (FP.fmod (-260) 170 == -90)%Q.
Proof. vm_compute. reflexivity. Qed.

(** * Properties *)

(** ** The animation step touches one coordinate *)

Section UpdateLightsFacts.

Variable fp : FP.Rounding.
Variable K : Consts.
Variable dt : Q.

Lemma UpdateLights_loop_S (n : nat) (ls : list PointLight) :
  UpdateLights_loop fp K dt (S n) ls
  = alter (update_light fp K dt) n (UpdateLights_loop fp K dt n ls).
Proof.
  unfold UpdateLights_loop. rewrite seq_S, foldl_app. reflexivity.
Qed.

Lemma UpdateLights_loop_lookup (n : nat) (ls : list PointLight) (i : nat) :
  UpdateLights_loop fp K dt n ls !! i
  = (if decide (i < n)%nat then update_light fp K dt <$> ls !! i
     else ls !! i).
Proof.
  induction n as [|n IH].
  - reflexivity.
  - rewrite UpdateLights_loop_S.
    destruct (decide (i = n)) as [->|Hne].
    + rewrite list_lookup_alter, IH.
      repeat case_decide; try lia. reflexivity.
    + rewrite list_lookup_alter_ne by congruence. rewrite IH.
      repeat case_decide; try lia; reflexivity.
Qed.

Lemma UpdateLights_loop_length (n : nat) (ls : list PointLight) :
  length (UpdateLights_loop fp K dt n ls) = length ls.
Proof.
  induction n as [|n IH]; [reflexivity|].
  rewrite UpdateLights_loop_S, length_alter. exact IH.
Qed.

(** A projection that [update_light] preserves is preserved, slot by
    slot, by the whole loop. *)
Lemma UpdateLights_frame {A : Type} (proj : PointLight -> A) :
  (forall l, proj (update_light fp K dt l) = proj l) ->
  forall ls, proj <$> UpdateLights fp K dt ls = proj <$> ls.
Proof.
  intros Hproj ls. apply list_eq. intros i.
  rewrite !list_lookup_fmap. unfold UpdateLights.
  rewrite UpdateLights_loop_lookup.
  case_decide; [|reflexivity].
  destruct (ls !! i) as [l|]; simpl; [|reflexivity].
  by rewrite Hproj.
Qed.

End UpdateLightsFacts.

(** C10.  [UpdateLights] changes nothing but the y coordinate of the
    positions: the x, z and w components of every position, every colour
    and every radius are the same before and after, and so is the number
    of lights. *)
Theorem UpdateLights_only_moves_y (fp : FP.Rounding) (K : Consts) (dt : Q)
    (pointLights : list PointLight) :
  let after := UpdateLights fp K dt pointLights in
  (fun l => vx (Position l)) <$> after = (fun l => vx (Position l)) <$> pointLights
  /\ (fun l => vz (Position l)) <$> after = (fun l => vz (Position l)) <$> pointLights
  /\ (fun l => vw (Position l)) <$> after = (fun l => vw (Position l)) <$> pointLights
  /\ Color <$> after = Color <$> pointLights
  /\ RadiusAndPadding <$> after = RadiusAndPadding <$> pointLights
  /\ length after = length pointLights.
Proof.
  cbv zeta.
  repeat split; try (apply UpdateLights_frame; reflexivity).
  apply UpdateLights_loop_length.
Qed.

(** ** The IEEE roundings are monotone *)

Section RoundingFacts.

Local Open Scope Q_scope.

Lemma pow2_pos (e : Z) : 0 < FP.pow2 e.
Proof. apply Qpower_0_lt. reflexivity. Qed.

Lemma pow2_add (a b : Z) : FP.pow2 (a + b) == FP.pow2 a * FP.pow2 b.
Proof. apply Qpower_plus. discriminate. Qed.

Lemma pow2_le (a b : Z) : (a <= b)%Z -> FP.pow2 a <= FP.pow2 b.
Proof. intros H. apply Qpower_le_compat_l; [exact H | discriminate]. Qed.

Lemma pow2_lt (a b : Z) : (a < b)%Z -> FP.pow2 a < FP.pow2 b.
Proof. intros H. apply Qpower_lt_compat_l; [exact H | reflexivity]. Qed.

Lemma pow2_Z (e : Z) : (0 <= e)%Z -> FP.pow2 e == inject_Z (2 ^ e).
Proof. intros H. unfold FP.pow2. rewrite Zpower_Qpower by exact H. reflexivity. Qed.

Lemma Q_num_den (a : Q) : a * inject_Z (Zpos (Qden a)) == inject_Z (Qnum a).
Proof. destruct a as [n d]. unfold Qeq, Qmult, inject_Z. simpl. lia. Qed.

Lemma ilog2_spec (a : Q) :
  0 < a -> FP.pow2 (FP.ilog2 a) <= a /\ a < FP.pow2 (FP.ilog2 a + 1).
Proof.
  intros Ha. unfold FP.ilog2.
  set (n := Qnum a). set (d := Zpos (Qden a)).
  assert (Hn : (0 < n)%Z) by (unfold Qlt in Ha; simpl in Ha; unfold n; lia).
  assert (Hd : (0 < d)%Z) by (unfold d; lia).
  pose proof (Z.log2_spec n Hn) as [Hn1 Hn2].
  pose proof (Z.log2_spec d Hd) as [Hd1 Hd2].
  pose proof (Z.log2_nonneg n) as Hln. pose proof (Z.log2_nonneg d) as Hld.
  set (ln := Z.log2 n) in *. set (ld := Z.log2 d) in *.
  pose proof (Q_num_den a) as E. fold n d in E.
  assert (HdQ : 0 < inject_Z d) by (rewrite <- (Zlt_Qlt 0); exact Hd).
  (* the integer bounds as rational ones *)
  assert (Qn1 : FP.pow2 ln <= inject_Z n)
    by (rewrite pow2_Z by exact Hln; rewrite <- Zle_Qle; exact Hn1).
  assert (Qn2 : inject_Z n < FP.pow2 (ln + 1))
    by (rewrite pow2_Z by lia; rewrite <- Zlt_Qlt; exact Hn2).
  assert (Qd1 : FP.pow2 ld <= inject_Z d)
    by (rewrite pow2_Z by exact Hld; rewrite <- Zle_Qle; exact Hd1).
  assert (Qd2 : inject_Z d < FP.pow2 (ld + 1))
    by (rewrite pow2_Z by lia; rewrite <- Zlt_Qlt; exact Hd2).
  destruct (Qle_bool (FP.pow2 (ln - ld)) a) eqn:Eb.
  - apply Qle_bool_iff in Eb. split; [exact Eb|].
    (* a * d = n < 2^(ln+1) = 2^(k+1) * 2^ld <= 2^(k+1) * d *)
    apply (Qmult_lt_r _ _ (inject_Z d) HdQ). rewrite E.
    eapply Qlt_le_trans; [exact Qn2|].
    replace (ln + 1)%Z with ((ln - ld + 1) + ld)%Z by lia.
    rewrite pow2_add.
    apply Qmult_le_l; [apply pow2_pos | exact Qd1].
  - assert (Hlt : a < FP.pow2 (ln - ld)).
    { apply Qnot_le_lt. intros H. apply Qle_bool_iff in H. congruence. }
    split.
    + apply (Qmult_le_r _ _ (inject_Z d) HdQ). rewrite E.
      eapply Qle_trans; [|exact Qn1].
      replace ln with ((ln - ld - 1) + (ld + 1))%Z at 2 by lia.
      rewrite pow2_add.
      apply Qmult_le_l; [apply pow2_pos | apply Qlt_le_weak, Qd2].
    + replace (ln - ld - 1 + 1)%Z with (ln - ld)%Z by lia. exact Hlt.
Qed.

Lemma ilog2_mono (a b : Q) :
  0 < a -> a <= b -> (FP.ilog2 a <= FP.ilog2 b)%Z.
Proof.
  intros Ha Hab.
  assert (Hb : 0 < b) by (eapply Qlt_le_trans; eassumption).
  destruct (ilog2_spec a Ha) as [Ha1 _].
  destruct (ilog2_spec b Hb) as [_ Hb2].
  destruct (Z_lt_le_dec (FP.ilog2 b) (FP.ilog2 a)) as [Hlt|Hle]; [|exact Hle].
  exfalso.
  assert (H : FP.pow2 (FP.ilog2 b + 1) <= FP.pow2 (FP.ilog2 a))
    by (apply pow2_le; lia).
  apply (Qlt_irrefl b).
  eapply Qlt_le_trans; [exact Hb2|].
  eapply Qle_trans; [exact H|]. eapply Qle_trans; eassumption.
Qed.

Lemma rne_Z (n : Z) : FP.rne (inject_Z n) = n.
Proof.
  unfold FP.rne. rewrite Qfloor_Z.
  destruct (Qcompare_spec (inject_Z n - inject_Z n) (1 # 2)) as [H|H|H].
  - exfalso. lra.
  - reflexivity.
  - exfalso. lra.
Qed.

(** [rne] picks the floor or the next integer, and which one it picks
    bounds the fractional part. *)
Lemma rne_cases (a : Q) :
  (FP.rne a = Qfloor a /\ a - inject_Z (Qfloor a) <= 1 # 2)
  \/ (FP.rne a = (Qfloor a + 1)%Z /\ 1 # 2 <= a - inject_Z (Qfloor a)).
Proof.
  unfold FP.rne.
  destruct (Qcompare_spec (a - inject_Z (Qfloor a)) (1 # 2)) as [H|H|H].
  - destruct (Z.even (Qfloor a)); [left | right]; (split; [reflexivity | lra]).
  - left. split; [reflexivity | lra].
  - right. split; [reflexivity | lra].
Qed.

Lemma rne_mono (a b : Q) : a <= b -> (FP.rne a <= FP.rne b)%Z.
Proof.
  intros Hab.
  pose proof (Qfloor_resp_le _ _ Hab) as Hf.
  destruct (Z_lt_le_dec (Qfloor a) (Qfloor b)) as [Hlt|Hge].
  - destruct (rne_cases a) as [[-> _]|[-> _]],
             (rne_cases b) as [[-> _]|[-> _]]; lia.
  - assert (Ef : Qfloor b = Qfloor a) by lia.
    unfold FP.rne. rewrite Ef.
    destruct (Qcompare_spec (a - inject_Z (Qfloor a)) (1 # 2)) as [H|H|H],
             (Qcompare_spec (b - inject_Z (Qfloor a)) (1 # 2)) as [G|G|G];
      try lia; try (exfalso; lra);
      destruct (Z.even (Qfloor a)); lia.
Qed.

Lemma rne_le_Z (a : Q) (n : Z) : a <= inject_Z n -> (FP.rne a <= n)%Z.
Proof. intros H. rewrite <- (rne_Z n). apply rne_mono, H. Qed.

Lemma rne_ge_Z (a : Q) (n : Z) : inject_Z n <= a -> (n <= FP.rne a)%Z.
Proof. intros H. rewrite <- (rne_Z n). apply rne_mono, H. Qed.

(** The exponent of the unit in the last place. *)
Lemma round_pos_eq (prec emin : Z) (a : Q) :
  FP.round_pos prec emin a
  = inject_Z (FP.rne (a / FP.pow2 (Z.max (FP.ilog2 a - prec + 1) emin)))
    * FP.pow2 (Z.max (FP.ilog2 a - prec + 1) emin).
Proof. reflexivity. Qed.

Lemma div_pow2_le (a b : Q) (e : Z) :
  a <= b -> a / FP.pow2 e <= b / FP.pow2 e.
Proof.
  intros H. unfold Qdiv. apply Qmult_le_compat_r; [exact H|].
  apply Qlt_le_weak, Qinv_lt_0_compat, pow2_pos.
Qed.

Lemma round_pos_nonneg (prec emin : Z) (a : Q) :
  0 <= a -> 0 <= FP.round_pos prec emin a.
Proof.
  intros Ha. rewrite round_pos_eq.
  set (e := Z.max _ _).
  apply Qmult_le_0_compat; [|apply Qlt_le_weak, pow2_pos].
  change 0 with (inject_Z 0). rewrite <- Zle_Qle.
  apply rne_ge_Z. apply Qle_shift_div_l; [apply pow2_pos|].
  change (inject_Z 0) with 0. rewrite Qmult_0_l. exact Ha.
Qed.

(** Below: a positive number rounds to at most the next power of two
    above it (or to one unit, for a number below the smallest unit). *)
Lemma round_pos_upper (prec emin : Z) (a : Q) :
  (1 <= prec)%Z -> 0 < a ->
  let e := Z.max (FP.ilog2 a - prec + 1) emin in
  FP.round_pos prec emin a <= FP.pow2 (Z.max (FP.ilog2 a + 1) e).
Proof.
  intros Hp Ha. cbv zeta. rewrite round_pos_eq.
  set (e := Z.max _ emin).
  destruct (ilog2_spec a Ha) as [_ Hhi].
  set (m := Z.max (FP.ilog2 a + 1 - e) 0).
  assert (Hq : a / FP.pow2 e <= inject_Z (2 ^ m)).
  { rewrite <- pow2_Z by (unfold m; lia).
    apply Qle_shift_div_r; [apply pow2_pos|].
    rewrite <- pow2_add.
    eapply Qle_trans; [apply Qlt_le_weak, Hhi|]. apply pow2_le. unfold m. lia. }
  apply rne_le_Z in Hq. rewrite Zle_Qle in Hq.
  rewrite <- pow2_Z in Hq by (unfold m; lia).
  eapply Qle_trans.
  - apply Qmult_le_compat_r; [exact Hq | apply Qlt_le_weak, pow2_pos].
  - rewrite <- pow2_add. apply pow2_le. unfold m. lia.
Qed.

(** Above: a normal number rounds to at least the power of two below
    it. *)
Lemma round_pos_lower (prec emin : Z) (a : Q) :
  (1 <= prec)%Z -> 0 < a ->
  (emin <= FP.ilog2 a - prec + 1)%Z ->
  FP.pow2 (FP.ilog2 a) <= FP.round_pos prec emin a.
Proof.
  intros Hp Ha He. rewrite round_pos_eq.
  rewrite Z.max_l by exact He.
  set (e := (FP.ilog2 a - prec + 1)%Z).
  destruct (ilog2_spec a Ha) as [Hlo _].
  assert (Hq : inject_Z (2 ^ (prec - 1)) <= a / FP.pow2 e).
  { rewrite <- pow2_Z by lia.
    apply Qle_shift_div_l; [apply pow2_pos|].
    rewrite <- pow2_add.
    replace (prec - 1 + e)%Z with (FP.ilog2 a) by (unfold e; lia).
    exact Hlo. }
  apply rne_ge_Z in Hq. rewrite Zle_Qle in Hq.
  rewrite <- pow2_Z in Hq by lia.
  replace (FP.ilog2 a) with (prec - 1 + e)%Z at 1 by (unfold e; lia).
  rewrite pow2_add.
  apply Qmult_le_compat_r; [exact Hq | apply Qlt_le_weak, pow2_pos].
Qed.

Lemma round_pos_mono (prec emin : Z) (a b : Q) :
  (1 <= prec)%Z -> 0 < a -> a <= b ->
  FP.round_pos prec emin a <= FP.round_pos prec emin b.
Proof.
  intros Hp Ha Hab.
  assert (Hb : 0 < b) by (eapply Qlt_le_trans; eassumption).
  pose proof (ilog2_mono a b Ha Hab) as Hlog.
  set (ea := Z.max (FP.ilog2 a - prec + 1) emin).
  set (eb := Z.max (FP.ilog2 b - prec + 1) emin).
  destruct (Z.eq_dec ea eb) as [E|Hne].
  - rewrite !round_pos_eq. fold ea eb. rewrite <- E.
    apply Qmult_le_compat_r; [|apply Qlt_le_weak, pow2_pos].
    rewrite <- Zle_Qle. apply rne_mono, div_pow2_le, Hab.
  - assert (Hlt : (ea < eb)%Z) by (unfold ea, eb in *; lia).
    eapply Qle_trans; [apply round_pos_upper; assumption|].
    eapply Qle_trans; [|apply round_pos_lower; try assumption].
    + apply pow2_le. fold ea. unfold ea, eb in *. lia.
    + unfold ea, eb in *. lia.
Qed.

Lemma round_binary_mono (prec emin : Z) :
  (1 <= prec)%Z -> FP.monotone (FP.round_binary prec emin).
Proof.
  intros Hp a b Hab. unfold FP.round_binary.
  destruct a as [na da], b as [nb db]. cbn [Qnum].
  destruct na as [|pa|pa], nb as [|pb|pb];
    try (exfalso; unfold Qle in Hab; simpl in Hab; lia).
  - apply Qle_refl.
  - apply round_pos_nonneg. unfold Qle. simpl. lia.
  - apply round_pos_mono; [exact Hp | reflexivity | exact Hab].
  - apply (Qopp_le_compat 0), round_pos_nonneg. unfold Qle. simpl. lia.
  - apply Qle_trans with 0.
    + apply (Qopp_le_compat 0), round_pos_nonneg. unfold Qle. simpl. lia.
    + apply round_pos_nonneg. unfold Qle. simpl. lia.
  - apply Qopp_le_compat, round_pos_mono.
    + exact Hp.
    + reflexivity.
    + apply Qopp_le_compat, Hab.
Qed.

End RoundingFacts.

Lemma ieee_sound : sound_rounding FP.ieee.
Proof.
  split; [apply round_binary_mono; lia|].
  split; [apply round_binary_mono; lia|].
  unfold FP.representable. repeat split; vm_compute; reflexivity.
Qed.

Lemma ieee_sample_bounds : float_bounds FP.ieee sample_consts.
Proof.
  unfold float_bounds, float_bounds_axis, FP.representable.
  repeat split; vm_compute; first [reflexivity | discriminate].
Qed.

(** ** Initial lights *)

Section InitialLights.

Variable fp : FP.Rounding.
Variable K : Consts.
Hypothesis Hfp : sound_rounding fp.
Hypothesis HK : float_bounds fp K.

Local Open Scope Q_scope.

Lemma axis_sample_within (i : nat) (u : Q) :
  float_bounds_axis fp K i -> 0 <= u -> u <= 1 ->
  let min := vec3_get (LIGHT_MIN_BOUNDS K) i in
  let max := vec3_get (LIGHT_MAX_BOUNDS K) i in
  within min max (FP.RF fp (FP.RF fp (FP.RF fp u * FP.RF fp (max - min)) + min)).
Proof.
  intros (Hle & Hmin & Hmax & Hspan) Hu0 Hu1. cbv zeta.
  destruct Hfp as (HF & _ & H0 & H1 & _).
  unfold FP.representable in *.
  set (lo := vec3_get (LIGHT_MIN_BOUNDS K) i) in *.
  set (hi := vec3_get (LIGHT_MAX_BOUNDS K) i) in *.
  assert (Ha0 : 0 <= FP.RF fp u).
  { apply Qle_trans with (FP.RF fp 0);
      [rewrite H0; apply Qle_refl | apply HF, Hu0]. }
  assert (Ha1 : FP.RF fp u <= 1).
  { apply Qle_trans with (FP.RF fp 1);
      [apply HF, Hu1 | rewrite H1; apply Qle_refl]. }
  set (a := FP.RF fp u) in *.
  assert (Hp0 : 0 <= a * FP.RF fp (hi - lo)).
  { rewrite Hspan. apply Qmult_le_0_compat; [exact Ha0 | lra]. }
  assert (Hp1 : a * FP.RF fp (hi - lo) <= hi - lo).
  { rewrite Hspan. apply Qle_trans with (1 * (hi - lo)).
    - apply Qmult_le_compat_r; [exact Ha1 | lra].
    - rewrite Qmult_1_l. apply Qle_refl. }
  set (p := a * FP.RF fp (hi - lo)) in *.
  assert (Hq0 : 0 <= FP.RF fp p).
  { apply Qle_trans with (FP.RF fp 0);
      [rewrite H0; apply Qle_refl | apply HF, Hp0]. }
  assert (Hq1 : FP.RF fp p <= hi - lo).
  { apply Qle_trans with (FP.RF fp (hi - lo));
      [apply HF, Hp1 | rewrite Hspan; apply Qle_refl]. }
  split.
  - apply Qle_trans with (FP.RF fp lo);
      [rewrite Hmin; apply Qle_refl | apply HF; lra].
  - apply Qle_trans with (FP.RF fp hi);
      [apply HF; lra | rewrite Hmax; apply Qle_refl].
Qed.

Lemma channel_within (u : Q) :
  0 <= u -> u < 1 -> within 1 2 (FP.RF fp (FP.RD fp (1 + u))).
Proof.
  intros Hu0 Hu1.
  destruct Hfp as (HF & HD & _ & HF1 & HF2 & HD1 & HD2).
  unfold FP.representable in *.
  assert (Hd1 : 1 <= FP.RD fp (1 + u)).
  { apply Qle_trans with (FP.RD fp 1);
      [rewrite HD1; apply Qle_refl | apply HD; lra]. }
  assert (Hd2 : FP.RD fp (1 + u) <= 2).
  { apply Qle_trans with (FP.RD fp 2);
      [apply HD; lra | rewrite HD2; apply Qle_refl]. }
  split.
  - apply Qle_trans with (FP.RF fp 1);
      [rewrite HF1; apply Qle_refl | apply HF, Hd1].
  - apply Qle_trans with (FP.RF fp 2);
      [apply HF, Hd2 | rewrite HF2; apply Qle_refl].
Qed.

Lemma make_light_good (order : ArgOrder) (gen : mt19937_64) :
  unit_samples gen -> good_light K (make_light fp K order gen).1.
Proof.
  intros Hs. destruct HK as (Hx & Hy & Hz).
  pose proof (fun k => proj1 (Hs k)) as Hs0.
  pose proof (fun k => proj2 (Hs k)) as Hs1.
  split; [|split; [reflexivity|split; [|reflexivity]]].
  - split; [|split].
    + apply (axis_sample_within 0%nat _ Hx (Hs0 _) (Qlt_le_weak _ _ (Hs1 _))).
    + apply (axis_sample_within 1%nat _ Hy (Hs0 _) (Qlt_le_weak _ _ (Hs1 _))).
    + apply (axis_sample_within 2%nat _ Hz (Hs0 _) (Qlt_le_weak _ _ (Hs1 _))).
  - destruct order; (split; [|split]);
      (apply channel_within; [apply Hs0 | apply Hs1]).
Qed.

Lemma fill_lights_S (order : nat -> ArgOrder) (n i : nat) (gen : mt19937_64)
    (ls : list PointLight) :
  fill_lights fp K order (S n) i gen ls
  = fill_lights fp K order n (S i) (make_light fp K (order i) gen).2
      (<[i := (make_light fp K (order i) gen).1]> ls).
Proof. reflexivity. Qed.

Lemma fill_lights_length (order : nat -> ArgOrder) (n i : nat)
    (gen : mt19937_64) (ls : list PointLight) :
  length (fill_lights fp K order n i gen ls).1 = length ls.
Proof.
  revert i gen ls. induction n as [|n IH]; intros i gen ls.
  - reflexivity.
  - rewrite fill_lights_S, IH. apply length_insert.
Qed.

(** Slots [i .. i+n-1] are written with lights of [make_light]; the
    others keep their contents. *)
Lemma fill_lights_lookup (order : nat -> ArgOrder) (n i : nat)
    (gen : mt19937_64) (ls : list PointLight) (j : nat) (l : PointLight) :
  unit_samples gen ->
  (fill_lights fp K order n i gen ls).1 !! j = Some l ->
  ((i <= j < i + n)%nat /\ good_light K l)
  \/ (~ (i <= j < i + n)%nat /\ ls !! j = Some l).
Proof.
  revert i gen ls. induction n as [|n IH]; intros i gen ls Hs Hj.
  - right. split; [lia | exact Hj].
  - rewrite fill_lights_S in Hj.
    pose proof (make_light_good (order i) gen Hs) as Hg.
    assert (Hs' : unit_samples (make_light fp K (order i) gen).2)
      by exact Hs.
    destruct (IH _ _ _ Hs' Hj) as [[Hr Hgood]|[Hr Hl]].
    + left. split; [lia | exact Hgood].
    + destruct (decide (i = j)) as [->|Hne].
      * apply lookup_lt_Some in Hl as Hlen. rewrite length_insert in Hlen.
        rewrite list_lookup_insert_eq in Hl by exact Hlen.
        injection Hl as <-. left. split; [lia | exact Hg].
      * rewrite list_lookup_insert_ne in Hl by exact Hne.
        right. split; [lia | exact Hl].
Qed.

End InitialLights.

(** C7 (as amended).  When the light buffer exists, [setupLightBuffers]
    returns, and the buffer then holds [MAX_NUM_LIGHTS] lights, each with
    its position within [LIGHT_MIN_BOUNDS, LIGHT_MAX_BOUNDS] componentwise,
    every colour channel in the closed interval [1, 2], and radius 30. *)
Theorem setupLightBuffers_lights (fp : FP.Rounding) (K : Consts)
    (drv : Driver) (rs : RenderSystem) (gl : GLState) :
  sound_rounding fp -> float_bounds fp K ->
  unit_samples (random_device drv) ->
  gen_lightBuffer drv <> 0 ->
  exists rs' gl',
    setupLightBuffers fp K drv rs gl = Returned (rs', gl')
    /\ length (gl_lights gl') = MAX_NUM_LIGHTS K
    /\ forall light, light ∈ gl_lights gl' -> good_light K light.
Proof.
  intros Hfp HK Hs Hbuf.
  unfold setupLightBuffers, setupLightStorageBuffer. cbn [m_lightBuffer].
  destruct (Z.eqb_spec (gen_lightBuffer drv) 0) as [E|_]; [contradiction|].
  cbn [bind]. eexists _, _. split; [reflexivity|].
  cbn [gl_lights set_lights set_visibleLightIndices]. split.
  - rewrite fill_lights_length. apply length_replicate.
  - intros light Hin. apply list_elem_of_lookup in Hin as [j Hj].
    destruct (fill_lights_lookup fp K Hfp HK _ _ _ _ _ _ _ Hs Hj)
      as [[_ Hgood]|[Hout Hl]]; [exact Hgood|].
    apply lookup_lt_Some in Hl. rewrite length_replicate in Hl. lia.
Qed.

(** ** The falling animation *)

Section Floor.

Local Open Scope Q_scope.

Lemma Qfloor_unique (k : Z) (a : Q) :
  inject_Z k <= a -> a < inject_Z (k + 1) -> Qfloor a = k.
Proof.
  intros Hlo Hhi.
  apply Qfloor_resp_le in Hlo. rewrite Qfloor_Z in Hlo.
  pose proof (Qfloor_le a) as Hf.
  assert (Hlt : inject_Z (Qfloor a) < inject_Z (k + 1))
    by (eapply Qle_lt_trans; eassumption).
  rewrite <- Zlt_Qlt in Hlt. lia.
Qed.

Lemma Qfloor_add_Z (a : Q) (k : Z) :
  Qfloor (a + inject_Z k) = (Qfloor a + k)%Z.
Proof.
  apply Qfloor_unique.
  - rewrite inject_Z_plus. pose proof (Qfloor_le a). lra.
  - replace (Qfloor a + k + 1)%Z with ((Qfloor a + 1) + k)%Z by lia.
    rewrite inject_Z_plus. pose proof (Qlt_floor a). lra.
Qed.

Lemma trunc_nonneg (a : Q) : 0 <= a -> FP.trunc a = Qfloor a.
Proof.
  intros Ha. unfold FP.trunc.
  destruct (Qle_bool 0 a) eqn:E; [reflexivity|].
  apply Qle_bool_iff in Ha. congruence.
Qed.

Lemma wrap_into_range (lo m v : Q) :
  0 < m -> lo <= wrap_into lo m v /\ wrap_into lo m v < lo + m.
Proof.
  intros Hm. unfold wrap_into.
  set (k := Qfloor ((v - lo) / m)).
  assert (Hne : ~ m == 0) by lra.
  assert (E : v - lo == (v - lo) / m * m) by (field; exact Hne).
  pose proof (Qfloor_le ((v - lo) / m)) as H1.
  pose proof (Qlt_floor ((v - lo) / m)) as H2. fold k in H1, H2.
  rewrite inject_Z_plus in H2.
  assert (G1 : inject_Z k * m <= (v - lo) / m * m)
    by (apply Qmult_le_compat_r; lra).
  assert (G2 : (v - lo) / m * m < (inject_Z k + inject_Z 1) * m)
    by (apply Qmult_lt_compat_r; lra).
  change (inject_Z 1) with 1 in G2. split; lra.
Qed.

#[global] Instance wrap_into_proper (lo m : Q) :
  Proper (Qeq ==> Qeq) (wrap_into lo m).
Proof.
  intros v v' E. unfold wrap_into.
  assert (E' : (v - lo) / m == (v' - lo) / m) by (rewrite E; reflexivity).
  rewrite (Qfloor_comp _ _ E'). rewrite E. reflexivity.
Qed.

(** Wrapping forgets whole multiples of the modulus. *)
Lemma wrap_into_shift (lo m v : Q) (k : Z) :
  0 < m -> wrap_into lo m (v + inject_Z k * m) == wrap_into lo m v.
Proof.
  intros Hm. unfold wrap_into.
  assert (Hne : ~ m == 0) by lra.
  assert (E : (v + inject_Z k * m - lo) / m == (v - lo) / m + inject_Z k)
    by (field; exact Hne).
  rewrite (Qfloor_comp _ _ E), Qfloor_add_Z, inject_Z_plus. ring.
Qed.

Lemma wrap_into_wrap (lo m v s : Q) :
  0 < m ->
  wrap_into lo m (wrap_into lo m v - s) == wrap_into lo m (v - s).
Proof.
  intros Hm. unfold wrap_into at 2.
  set (k := Qfloor ((v - lo) / m)).
  rewrite <- (wrap_into_shift lo m (v - s) (- k) Hm).
  apply wrap_into_proper. rewrite inject_Z_opp. ring.
Qed.

End Floor.

Section Falling.

Variable K : Consts.
Variable dt : Q.

Local Open Scope Q_scope.

Local Abbreviation lo := (vec3_get (LIGHT_MIN_BOUNDS K) 1).
Local Abbreviation hi := (vec3_get (LIGHT_MAX_BOUNDS K) 1).
Local Abbreviation s := ((9 # 2) * dt).

Hypothesis Hhi : 0 < hi.
Hypothesis Hstep : s <= hi.

(** Without rounding, one step from a position not below the lower
    bound is a wrap modulo [LIGHT_MAX_BOUNDS[1]]. *)
Lemma fall_exact_wrap (py : Q) :
  lo <= py ->
  fall FP.exact_arith K dt py == wrap_into lo hi (py - s).
Proof.
  intros Hpy. unfold fall. cbn [FP.RF FP.RD FP.exact_arith].
  unfold FP.fmod, wrap_into.
  set (c := py + - (9 # 2) * dt - lo + hi).
  assert (Hne : ~ hi == 0) by lra.
  assert (Hc : 0 <= c) by (unfold c; lra).
  assert (Hq : 0 <= c / hi).
  { apply Qle_shift_div_l; [exact Hhi | lra]. }
  rewrite (trunc_nonneg _ Hq).
  assert (E : c / hi == (py - s - lo) / hi + inject_Z 1).
  { unfold c. change (inject_Z 1) with 1. field. exact Hne. }
  rewrite (Qfloor_comp _ _ E), Qfloor_add_Z, inject_Z_plus.
  unfold c. change (inject_Z 1) with 1. ring.
Qed.

Lemma UpdateLights_iter_lookup (fp : FP.Rounding) (N : nat)
    (ls : list PointLight) (i : nat) :
  (i < MAX_NUM_LIGHTS K)%nat ->
  Nat.iter N (UpdateLights fp K dt) ls !! i
  = Nat.iter N (update_light fp K dt) <$> ls !! i.
Proof.
  intros Hi. induction N as [|N IH].
  - cbn [Nat.iter nat_rect]. by destruct (ls !! i).
  - change (Nat.iter (S N) (UpdateLights fp K dt) ls)
      with (UpdateLights fp K dt (Nat.iter N (UpdateLights fp K dt) ls)).
    unfold UpdateLights at 1. rewrite UpdateLights_loop_lookup.
    case_decide; [|lia]. rewrite IH.
    by destruct (ls !! i).
Qed.

Lemma update_light_iter_y (fp : FP.Rounding) (N : nat) (l : PointLight) :
  light_y (Nat.iter N (update_light fp K dt) l)
  = Nat.iter N (fall fp K dt) (light_y l).
Proof.
  induction N as [|N IH]; [reflexivity|].
  change (Nat.iter (S N) (update_light fp K dt) l)
    with (update_light fp K dt (Nat.iter N (update_light fp K dt) l)).
  change (Nat.iter (S N) (fall fp K dt) (light_y l))
    with (fall fp K dt (Nat.iter N (fall fp K dt) (light_y l))).
  rewrite <- IH. reflexivity.
Qed.

End Falling.

(** ** Values the arithmetic computes exactly *)

Section ExactValues.

Local Open Scope Q_scope.

Lemma monotone_Qeq (r : Q -> Q) :
  FP.monotone r -> forall x y, x == y -> r x == r y.
Proof.
  intros Hm x y E. apply Qle_antisym; apply Hm; rewrite E; apply Qle_refl.
Qed.

Lemma rne_comp (a b : Q) : a == b -> FP.rne a = FP.rne b.
Proof.
  intros E. apply Z.le_antisymm; apply rne_mono; rewrite E; apply Qle_refl.
Qed.

Lemma round_binary_pos (prec emin : Z) (x : Q) :
  0 < x -> FP.round_binary prec emin x = FP.round_pos prec emin x.
Proof.
  intros H. destruct x as [[|n|n] d]; unfold Qlt in H; simpl in H;
    [lia | reflexivity | lia].
Qed.

Lemma round_binary_neg (prec emin : Z) (x : Q) :
  x < 0 -> FP.round_binary prec emin x = - FP.round_pos prec emin (- x).
Proof.
  intros H. destruct x as [[|n|n] d]; unfold Qlt in H; simpl in H;
    [lia | lia | reflexivity].
Qed.

Lemma round_binary_0 (prec emin : Z) (x : Q) :
  x == 0 -> FP.round_binary prec emin x = 0.
Proof.
  intros H. destruct x as [[|n|n] d]; unfold Qeq in H; simpl in H;
    [reflexivity | lia | lia].
Qed.

(** A positive integer below [2^prec] times a power of two not below
    the smallest subnormal is a number of the format. *)
Lemma round_pos_dyadic (prec emin k e : Z) :
  (0 <= prec)%Z -> (0 < k < 2 ^ prec)%Z -> (emin <= e)%Z ->
  FP.round_pos prec emin (inject_Z k * FP.pow2 e) == inject_Z k * FP.pow2 e.
Proof.
  intros Hp Hk He. rewrite round_pos_eq.
  set (x := inject_Z k * FP.pow2 e).
  pose proof (pow2_pos e) as Hpe.
  assert (Hk0 : 0 < inject_Z k) by (change 0 with (inject_Z 0); rewrite <- Zlt_Qlt; lia).
  assert (Hx : 0 < x) by (unfold x; apply Qmult_lt_0_compat; assumption).
  destruct (ilog2_spec x Hx) as [Hlo _].
  assert (Hup : x < FP.pow2 (prec + e)).
  { rewrite pow2_add, (pow2_Z prec) by lia. unfold x.
    apply Qmult_lt_compat_r; [exact Hpe | rewrite <- Zlt_Qlt; lia]. }
  assert (HL : (FP.ilog2 x < prec + e)%Z).
  { destruct (Z_lt_le_dec (FP.ilog2 x) (prec + e)) as [?|Hge]; [assumption|].
    apply pow2_le in Hge. exfalso. lra. }
  set (ex := Z.max (FP.ilog2 x - prec + 1) emin).
  assert (Hex : (ex <= e)%Z) by (unfold ex; lia).
  pose proof (pow2_pos ex) as Hpx.
  assert (Epow : FP.pow2 e == inject_Z (2 ^ (e - ex)) * FP.pow2 ex).
  { rewrite <- pow2_Z, <- pow2_add by lia.
    replace (e - ex + ex)%Z with e by lia. reflexivity. }
  assert (E : x / FP.pow2 ex == inject_Z (k * 2 ^ (e - ex))).
  { unfold x. rewrite Epow, inject_Z_mult. field. lra. }
  rewrite (rne_comp _ _ E), rne_Z, inject_Z_mult.
  unfold x. rewrite Epow. ring.
Qed.

Lemma round_pos_comp (prec emin : Z) (a b : Q) :
  (1 <= prec)%Z -> 0 < a -> a == b ->
  FP.round_pos prec emin a == FP.round_pos prec emin b.
Proof.
  intros Hp Ha E. apply Qle_antisym; apply round_pos_mono; try exact Hp; lra.
Qed.

Lemma round_binary_dyadic (prec emin k e : Z) :
  (1 <= prec)%Z -> (Z.abs k < 2 ^ prec)%Z -> (emin <= e)%Z ->
  FP.round_binary prec emin (inject_Z k * FP.pow2 e)
  == inject_Z k * FP.pow2 e.
Proof.
  intros Hp Hk He. pose proof (pow2_pos e) as Hpe.
  destruct (Z.lt_trichotomy k 0) as [Hneg|[->|Hpos]].
  - assert (Hk0 : inject_Z k < 0)
      by (change 0 with (inject_Z 0); rewrite <- Zlt_Qlt; lia).
    assert (Hx : inject_Z k * FP.pow2 e < 0).
    { assert (0 < (- inject_Z k) * FP.pow2 e)
        by (apply Qmult_lt_0_compat; lra).
      lra. }
    rewrite (round_binary_neg _ _ _ Hx).
    assert (E : - (inject_Z k * FP.pow2 e) == inject_Z (- k) * FP.pow2 e)
      by (rewrite inject_Z_opp; ring).
    assert (Hx' : 0 < - (inject_Z k * FP.pow2 e)) by lra.
    rewrite (round_pos_comp prec emin _ _ Hp Hx' E).
    rewrite round_pos_dyadic by lia. rewrite inject_Z_opp. ring.
  - rewrite round_binary_0; [|ring]. ring.
  - assert (Hk0 : 0 < inject_Z k)
      by (change 0 with (inject_Z 0); rewrite <- Zlt_Qlt; lia).
    assert (Hx : 0 < inject_Z k * FP.pow2 e)
      by (apply Qmult_lt_0_compat; assumption).
    rewrite (round_binary_pos _ _ _ Hx). apply round_pos_dyadic; lia.
Qed.

(** IEEE arithmetic is exact on the multiples of [2^e] below [2^(24+e)]
    in magnitude, as long as [2^e] is not below the smallest subnormal
    [float]. *)
Lemma ieee_exact_on_grid (e : Z) (B : Q) :
  (-149 <= e)%Z -> B < FP.pow2 (24 + e) ->
  exact_on_grid FP.ieee (FP.pow2 e) B.
Proof.
  intros He HB x [k Ek] Hx. pose proof (pow2_pos e) as Hpe.
  assert (Hk : (Z.abs k < 2 ^ 24)%Z).
  { rewrite Ek, Qabs_Qmult, (Qabs_pos (FP.pow2 e)) in Hx by lra.
    change (Qabs (inject_Z k)) with (inject_Z (Z.abs k)) in Hx.
    rewrite pow2_add, (pow2_Z 24) in HB by lia.
    assert (H : inject_Z (Z.abs k) * FP.pow2 e < inject_Z (2 ^ 24) * FP.pow2 e)
      by lra.
    apply Qmult_lt_r in H; [|exact Hpe]. rewrite <- Zlt_Qlt in H. exact H. }
  assert (Hk' : (Z.abs k < 2 ^ 53)%Z).
  { eapply Z.lt_trans; [exact Hk | reflexivity]. }
  split; unfold FP.representable; cbn [FP.RF FP.RD FP.ieee].
  - rewrite (monotone_Qeq _ (round_binary_mono 24 (-149) ltac:(lia)) _ _ Ek), Ek.
    apply round_binary_dyadic; [lia | exact Hk | exact He].
  - rewrite (monotone_Qeq _ (round_binary_mono 53 (-1074) ltac:(lia)) _ _ Ek), Ek.
    apply round_binary_dyadic; [lia | exact Hk' | lia].
Qed.

Lemma on_grid_comp (g x y : Q) : x == y -> on_grid g x -> on_grid g y.
Proof. intros E [k Hk]. exists k. rewrite <- E. exact Hk. Qed.

Lemma on_grid_plus (g x y : Q) : on_grid g x -> on_grid g y -> on_grid g (x + y).
Proof.
  intros [k Hk] [l Hl]. exists (k + l)%Z. rewrite inject_Z_plus, Hk, Hl. ring.
Qed.

Lemma on_grid_opp (g x : Q) : on_grid g x -> on_grid g (- x).
Proof. intros [k Hk]. exists (- k)%Z. rewrite inject_Z_opp, Hk. ring. Qed.

Lemma on_grid_minus (g x y : Q) : on_grid g x -> on_grid g y -> on_grid g (x - y).
Proof. intros Hx Hy. apply on_grid_plus; [exact Hx | apply on_grid_opp, Hy]. Qed.

Lemma on_grid_scale (g x : Q) (n : Z) : on_grid g x -> on_grid g (inject_Z n * x).
Proof. intros [k Hk]. exists (n * k)%Z. rewrite inject_Z_mult, Hk. ring. Qed.

Lemma on_grid_fmod (g a m : Q) :
  on_grid g a -> on_grid g m -> on_grid g (FP.fmod a m).
Proof.
  intros Ha Hm. unfold FP.fmod.
  apply on_grid_minus; [exact Ha | apply on_grid_scale, Hm].
Qed.

Lemma trunc_comp (a b : Q) : a == b -> FP.trunc a = FP.trunc b.
Proof.
  intros E. unfold FP.trunc.
  destruct (Qle_bool 0 a) eqn:Ea, (Qle_bool 0 b) eqn:Eb.
  - apply Qfloor_comp, E.
  - apply Qle_bool_iff in Ea. rewrite E in Ea. apply Qle_bool_iff in Ea.
    congruence.
  - apply Qle_bool_iff in Eb. rewrite <- E in Eb. apply Qle_bool_iff in Eb.
    congruence.
  - apply Qceiling_comp, E.
Qed.

Lemma fmod_comp (a b m : Q) : a == b -> FP.fmod a m == FP.fmod b m.
Proof.
  intros E. unfold FP.fmod.
  assert (E' : a / m == b / m) by (rewrite E; reflexivity).
  rewrite (trunc_comp _ _ E'), E. reflexivity.
Qed.

(** For a non-negative argument [fmod] is the mathematical remainder. *)
Lemma fmod_nonneg (c m : Q) :
  0 < m -> 0 <= c -> FP.fmod c m == wrap_into 0 m c.
Proof.
  intros Hm Hc. unfold FP.fmod, wrap_into.
  assert (Hq : 0 <= c / m) by (apply Qle_shift_div_l; [exact Hm | lra]).
  rewrite (trunc_nonneg _ Hq).
  assert (E : c / m == (c - 0) / m) by (field; lra).
  rewrite (Qfloor_comp _ _ E). reflexivity.
Qed.

Lemma Qabs_both (x : Q) : x <= Qabs x /\ - x <= Qabs x.
Proof.
  split; [apply Qle_Qabs|]. rewrite <- Qabs_opp. apply Qle_Qabs.
Qed.

Lemma Qabs_le (x b : Q) : - b <= x -> x <= b -> Qabs x <= b.
Proof. intros H1 H2. apply Qabs_Qle_condition. split; assumption. Qed.

Lemma float_max_le_double_max : FP.float_max <= FP.double_max.
Proof. vm_compute. discriminate. Qed.

End ExactValues.

Section FallingOnGrid.

Variable fp : FP.Rounding.
Variable K : Consts.
Variables dt g B : Q.

Local Open Scope Q_scope.

Local Abbreviation lo := (vec3_get (LIGHT_MIN_BOUNDS K) 1).
Local Abbreviation hi := (vec3_get (LIGHT_MAX_BOUNDS K) 1).
Local Abbreviation s := ((9 # 2) * dt).

Hypothesis HmF : FP.monotone (FP.RF fp).
Hypothesis HmD : FP.monotone (FP.RD fp).
Hypothesis Hexact : exact_on_grid fp g B.
Hypothesis HB : B <= FP.float_max.
Hypothesis Hglo : on_grid g lo.
Hypothesis Hghi : on_grid g hi.
Hypothesis Hgs : on_grid g s.
Hypothesis Hhi : 0 < hi.
Hypothesis Hstep : s <= hi.

Lemma exact_RD (x y : Q) :
  x == y -> on_grid g y -> Qabs y <= B -> FP.RD fp x == y.
Proof.
  intros E Hy Hb. rewrite (monotone_Qeq _ HmD _ _ E).
  apply (Hexact y Hy Hb).
Qed.

Lemma exact_RF (x y : Q) :
  x == y -> on_grid g y -> Qabs y <= B -> FP.RF fp x == y.
Proof.
  intros E Hy Hb. rewrite (monotone_Qeq _ HmF _ _ E).
  apply (Hexact y Hy Hb).
Qed.

(** On the grid, one step is the step of exact arithmetic, and none of
    its operations overflows. *)
Lemma fall_on_grid (py : Q) :
  exact_height K dt g B py ->
  fall fp K dt py == fall FP.exact_arith K dt py
  /\ on_grid g (fall fp K dt py)
  /\ fall_in_range fp K dt py.
Proof.
  intros (Hgy & Hpy & Hb). cbv zeta in Hb.
  destruct (Qabs_both py), (Qabs_both s), (Qabs_both lo).
  pose proof float_max_le_double_max as Hfd.
  set (t0 := - (9 # 2) * dt).
  assert (Hg0 : on_grid g t0).
  { apply (on_grid_comp g (- s)); [unfold t0; ring | apply on_grid_opp, Hgs]. }
  assert (E0 : FP.RD fp t0 == t0).
  { apply exact_RD; [reflexivity | exact Hg0 |].
    apply Qabs_le; unfold t0; lra. }
  assert (Hg1 : on_grid g (py + t0)) by (apply on_grid_plus; assumption).
  assert (E1 : FP.RD fp (py + FP.RD fp t0) == py + t0).
  { apply exact_RD; [rewrite E0; reflexivity | exact Hg1 |].
    apply Qabs_le; unfold t0; lra. }
  assert (Hg2 : on_grid g (py + t0 - lo)) by (apply on_grid_minus; assumption).
  assert (E2 : FP.RD fp (FP.RD fp (py + FP.RD fp t0) - lo) == py + t0 - lo).
  { apply exact_RD; [rewrite E1; reflexivity | exact Hg2 |].
    apply Qabs_le; unfold t0; lra. }
  set (c := py + t0 - lo + hi).
  assert (Hg3 : on_grid g c) by (apply on_grid_plus; assumption).
  assert (E3 : FP.RD fp (FP.RD fp (FP.RD fp (py + FP.RD fp t0) - lo) + hi)
               == c).
  { apply exact_RD; [rewrite E2; reflexivity | exact Hg3 |].
    apply Qabs_le; unfold c, t0; lra. }
  assert (Hc : 0 <= c) by (unfold c, t0; lra).
  pose proof (fmod_nonneg c hi Hhi Hc) as Ef.
  pose proof (wrap_into_range 0 hi c Hhi) as Hr. rewrite <- Ef in Hr.
  assert (Hg4 : on_grid g (FP.fmod c hi + lo)).
  { apply on_grid_plus; [apply on_grid_fmod; assumption | exact Hglo]. }
  assert (Hb4 : Qabs (FP.fmod c hi + lo) <= B) by (apply Qabs_le; lra).
  assert (E4 : FP.RD fp
                 (FP.fmod
                    (FP.RD fp (FP.RD fp (FP.RD fp (py + FP.RD fp t0) - lo) + hi))
                    hi + lo)
               == FP.fmod c hi + lo).
  { apply exact_RD; [|exact Hg4 | exact Hb4].
    rewrite (fmod_comp _ _ hi E3). reflexivity. }
  assert (E5 : fall fp K dt py == FP.fmod c hi + lo).
  { unfold fall. fold t0. apply exact_RF; [exact E4 | exact Hg4 | exact Hb4]. }
  split; [|split].
  - rewrite E5. unfold fall. cbn [FP.RF FP.RD FP.exact_arith]. reflexivity.
  - apply (on_grid_comp g (FP.fmod c hi + lo)); [symmetry; exact E5 | exact Hg4].
  - assert (Hfin : forall x y bound,
              x == y -> Qabs y <= B -> B <= bound -> FP.finite bound x).
    { intros x y bound E Hy Hle. unfold FP.finite. rewrite E. lra. }
    assert (HBd : B <= FP.double_max) by lra.
    unfold fall_in_range. cbv zeta. fold t0.
    split; [apply (Hfin _ _ _ E0); [apply Qabs_le; unfold t0; lra | exact HBd]|].
    split; [apply (Hfin _ _ _ E1); [apply Qabs_le; unfold t0; lra | exact HBd]|].
    split; [apply (Hfin _ _ _ E2); [apply Qabs_le; unfold t0; lra | exact HBd]|].
    split; [apply (Hfin _ _ _ E3); [apply Qabs_le; unfold c, t0; lra | exact HBd]|].
    split; [apply (Hfin _ _ _ E4); [exact Hb4 | exact HBd]|].
    apply (Hfin _ _ _ E5); [exact Hb4 | exact HB].
Qed.

(** One step from such a height is a wrap modulo [LIGHT_MAX_BOUNDS[1]],
    and leaves a height of the same kind. *)
Lemma fall_on_grid_wrap (py : Q) :
  Qabs s + 2 * Qabs lo + 2 * hi <= B ->
  exact_height K dt g B py ->
  fall fp K dt py == wrap_into lo hi (py - s)
  /\ exact_height K dt g B (fall fp K dt py)
  /\ fall_in_range fp K dt py.
Proof.
  intros Hb Hy. destruct (fall_on_grid py Hy) as (E & Hg' & Hr).
  destruct Hy as (Hgy & Hpy & Hby).
  pose proof (fall_exact_wrap K dt Hhi Hstep py Hpy) as Ew.
  pose proof (wrap_into_range lo hi (py - s) Hhi) as [R1 R2].
  rewrite <- Ew, <- E in R1, R2.
  split; [rewrite E; exact Ew|]. split; [|exact Hr].
  split; [exact Hg'|]. split; [exact R1|].
  destruct (Qabs_both lo).
  assert (Qabs (fall fp K dt py) <= Qabs lo + hi) by (apply Qabs_le; lra).
  lra.
Qed.

Lemma fall_on_grid_iter (py : Q) (n : nat) :
  Qabs s + 2 * Qabs lo + 2 * hi <= B ->
  exact_height K dt g B py ->
  exact_height K dt g B (Nat.iter n (fall fp K dt) py).
Proof.
  intros Hb Hy. induction n as [|n IH]; [exact Hy|].
  change (Nat.iter (S n) (fall fp K dt) py)
    with (fall fp K dt (Nat.iter n (fall fp K dt) py)).
  apply (fall_on_grid_wrap _ Hb IH).
Qed.

Lemma fall_on_grid_steps (N : nat) (py : Q) :
  Qabs s + 2 * Qabs lo + 2 * hi <= B ->
  exact_height K dt g B py ->
  let after := Nat.iter (S N) (fall fp K dt) py in
  after == wrap_into lo hi (py - s * inject_Z (Z.of_nat (S N)))
  /\ lo <= after /\ after < lo + hi.
Proof.
  intros Hb Hy. cbv zeta. induction N as [|N IH].
  - cbn [Nat.iter nat_rect].
    pose proof (wrap_into_range lo hi (py - s) Hhi) as Hr.
    destruct (fall_on_grid_wrap py Hb Hy) as (E & _).
    rewrite E. split; [|exact Hr].
    apply wrap_into_proper. change (inject_Z (Z.of_nat 1)) with 1. ring.
  - destruct IH as (IH & _).
    change (Nat.iter (S (S N)) (fall fp K dt) py)
      with (fall fp K dt (Nat.iter (S N) (fall fp K dt) py)).
    pose proof (fall_on_grid_iter py (S N) Hb Hy) as Hn.
    remember (Nat.iter (S N) (fall fp K dt) py) as prev.
    pose proof (wrap_into_range lo hi (prev - s) Hhi) as Hr.
    destruct (fall_on_grid_wrap prev Hb Hn) as (E & _).
    rewrite E. split; [|exact Hr].
    rewrite IH, wrap_into_wrap by exact Hhi.
    apply wrap_into_proper.
    rewrite (Nat2Z.inj_succ (S N)). unfold Z.succ.
    rewrite inject_Z_plus. change (inject_Z 1) with 1. ring.
Qed.

End FallingOnGrid.


Lemma sample_driver_unit (u : Q) :
  (0 <= u)%Q -> (u < 1)%Q -> unit_samples (random_device (sample_driver u)).
Proof. intros H0 H1 k. simpl. split; assumption. Qed.

Lemma setupLightBuffers_lights_witness :
  exists rs' gl',
    setupLightBuffers FP.ieee sample_consts (sample_driver (1 # 3))
                      RenderSystem_ctor gl_initial
    = Returned (rs', gl')
    /\ length (gl_lights gl') = MAX_NUM_LIGHTS sample_consts
    /\ forall light, light ∈ gl_lights gl' -> good_light sample_consts light.
Proof.
  apply (setupLightBuffers_lights FP.ieee sample_consts
           (sample_driver (1 # 3)) RenderSystem_ctor gl_initial).
  - exact ieee_sound.
  - exact ieee_sample_bounds.
  - apply sample_driver_unit; [discriminate | reflexivity].
  - discriminate.
Defined.

(** Without rounding the channels stay below 2: the closed end of the
    interval is reached through rounding only. *)
Lemma channel_below_2_exact (order : ArgOrder) (gen : mt19937_64) :
  unit_samples gen ->
  color_below_2
    (Color (make_light FP.exact_arith sample_consts order gen).1).
Proof.
  intros Hs. unfold color_below_2.
  pose proof (Hs (cursor gen)) as [? ?].
  pose proof (Hs (S (cursor gen))) as [? ?].
  pose proof (Hs (S (S (cursor gen)))) as [? ?].
  destruct order; cbn; repeat split; lra.
Qed.

(** The assumption that the difference of the bounds is a [float] cannot
    be dropped: with [tight_consts], whose bounds are [float] values, the
    sample [1 - 2^-30] puts a light at 2, above the upper bound. *)
Lemma position_needs_float_span :
  FP.representable (FP.RF FP.ieee) (v3x (LIGHT_MIN_BOUNDS tight_consts))
  /\ FP.representable (FP.RF FP.ieee) (v3x (LIGHT_MAX_BOUNDS tight_consts))
  /\ (vx (Position (make_light FP.ieee tight_consts Eval_012
                               (random_device (sample_driver high_sample))).1)
      == 2)%Q
  /\ (v3x (LIGHT_MAX_BOUNDS tight_consts) < 2)%Q.
Proof. vm_compute. repeat split. Qed.

(** C7 as stated fails: with IEEE arithmetic and the sample [1 - 2^-30],
    the sum [1.0f + dist(gen)] is [2 - 2^-30], which the conversion to
    [float] rounds to 2, so a colour channel is not below 2. *)
Lemma color_channel_reaches_2 :
  unit_samples (random_device (sample_driver high_sample))
  /\ ~ (forall light,
          light ∈ lights_of
                    (setupLightBuffers FP.ieee sample_consts
                       (sample_driver high_sample)
                       RenderSystem_ctor gl_initial) ->
          good_light_open sample_consts light).
Proof.
  split; [apply sample_driver_unit; [discriminate | reflexivity]|].
  intros H.
  destruct (lights_of
              (setupLightBuffers FP.ieee sample_consts
                 (sample_driver high_sample) RenderSystem_ctor gl_initial)
              !! 0%nat) as [l0|] eqn:E.
  - pose proof (H _ (list_elem_of_lookup_2 _ _ _ E)) as Hl0.
    destruct Hl0 as (_ & ((_ & Hlt) & _) & _).
    vm_compute in E. injection E as <-.
    vm_compute in Hlt. discriminate.
  - vm_compute in E. discriminate.
Qed.


(** The fourth step of that light crosses the lower bound -20 and brings
    it to 149.96875, just below [min + max = 150]. *)
Example fall_wraps_below_150 :
  (wrap_into (-20) 170 (- (79 # 4) - (9 # 2) * (1 # 64) * 4) == 4799 # 32)%Q
  /\ (Nat.iter 4 (fall FP.ieee sample_consts (1 # 64)) (- (79 # 4))
      == 4799 # 32)%Q.
Proof. split; vm_compute; reflexivity. Qed.

(** Off the grid the rounding shows: with IEEE arithmetic, a light at
    the lower bound -20 and the step [dt = 2^-20], the sum
    [149.9999952...] is rounded to the [float] 150 when stored, which is
    [min + max] itself, outside [min, min + max). *)
Example fall_rounds_up_to_150 :
  (fall FP.ieee sample_consts (FP.pow2 (-20)) (-20) == 150)%Q
  /\ (wrap_into (-20) 170 (-20 - (9 # 2) * FP.pow2 (-20)) < 150)%Q.
Proof. split; vm_compute; reflexivity. Qed.


Example initial_height :
  exists light,
    lights_of (setupLightBuffers FP.ieee sample_consts
                 (sample_driver (15 # 16)) RenderSystem_ctor gl_initial)
      !! 0%nat = Some light
    /\ (light_y light == 1265 # 8)%Q
    /\ (light_y (update_light FP.ieee sample_consts (1 # 64) light)
        == - (1529 # 128))%Q.
Proof. eexists. split; [vm_compute; reflexivity|]. split; reflexivity. Qed.

(** That failure does not hang on the sample bounds: for
    any bounds with [min <= max] and [0 < max], a light at the lower bound
    and a step of [1.5 * max] end below the lower bound, because [fmod]
    keeps the sign of a negative argument. *)
Lemma fall_below_min (K : Consts) :
  let min := vec3_get (LIGHT_MIN_BOUNDS K) 1 in
  let max := vec3_get (LIGHT_MAX_BOUNDS K) 1 in
  (0 < max)%Q ->
  (fall FP.exact_arith K (max / 3) min == min - max / 2)%Q.
Proof.
  intros lo hi Hhi. unfold fall. cbn [FP.RF FP.RD FP.exact_arith].
  fold lo hi. unfold FP.fmod.
  assert (Hne : ~ (hi == 0)%Q) by lra.
  assert (E : ((lo + - (9 # 2) * (hi / 3) - lo + hi) / hi == - (1 # 2))%Q)
    by (field; exact Hne).
  assert (Ht : FP.trunc ((lo + - (9 # 2) * (hi / 3) - lo + hi) / hi) = 0).
  { unfold FP.trunc.
    destruct (Qle_bool 0 _) eqn:Eb.
    - apply Qle_bool_iff in Eb. rewrite E in Eb. exfalso. lra.
    - unfold Qceiling. rewrite (Qfloor_comp _ (1 # 2)%Q); [reflexivity|].
      rewrite E. reflexivity. }
  rewrite Ht. change (inject_Z 0) with 0%Q. field.
Qed.

(** ** The shader cache *)

Lemma try_emplace_lookup (key name : string) (shaders : list GLShader)
    (cache : gmap string GLShaderProgram) (gl : GLState) (k : string) :
  (try_emplace key name shaders (cache, gl)).1 !! k
  = match cache !! k with
    | Some p => Some p
    | None =>
        if decide (key = k)
        then Some (GLShaderProgram_ctor name shaders gl).1
        else None
    end.
Proof.
  unfold try_emplace. cbn [fst snd].
  destruct (cache !! key) as [q|] eqn:E.
  - cbn [fst]. destruct (cache !! k) eqn:Ek; [reflexivity|].
    case_decide; [congruence | reflexivity].
  - cbn [GLShaderProgram_ctor fst].
    destruct (decide (key = k)) as [->|Hne].
    + rewrite lookup_insert_eq, E. reflexivity.
    + rewrite lookup_insert_ne by exact Hne. by destruct (cache !! k).
Qed.

(** Registering under a cached name changes neither the cache nor the GL
    state: no program is constructed. *)
Lemma try_emplace_cached (key name : string) (shaders : list GLShader)
    (st : gmap string GLShaderProgram * GLState) :
  is_Some (st.1 !! key) -> try_emplace key name shaders st = st.
Proof. intros [p Hp]. unfold try_emplace. by rewrite Hp. Qed.

Lemma compile_programs_cons (program : ProgramNode)
    (programs : list ProgramNode)
    (st : gmap string GLShaderProgram * GLState) :
  compile_programs (program :: programs) st
  = compile_programs programs
      (try_emplace (program_name program) (program_name program)
                   (program_shaders program) st).
Proof. reflexivity. Qed.

Lemma compile_programs_shaders (programs : list ProgramNode)
    (st : gmap string GLShaderProgram * GLState) (name : string) :
  m_programShaders <$> (compile_programs programs st).1 !! name
  = match st.1 !! name with
    | Some p => Some (m_programShaders p)
    | None => program_shaders <$> first_named name programs
    end.
Proof.
  revert st. induction programs as [|program programs IH]; intros [cache gl].
  - cbn. by destruct (cache !! name).
  - rewrite compile_programs_cons, IH.
    pose proof (try_emplace_lookup (program_name program)
                  (program_name program) (program_shaders program)
                  cache gl name) as Hl.
    destruct (try_emplace _ _ _ (cache, gl)) as [cache' gl'] eqn:Et.
    cbn [fst] in Hl |- *. rewrite Hl.
    unfold first_named. cbn [find].
    destruct (cache !! name) as [p|]; [reflexivity|].
    destruct (decide (program_name program = name)) as [Heq|Hne].
    + rewrite bool_decide_eq_true_2 by exact Heq. reflexivity.
    + rewrite bool_decide_eq_false_2 by exact Hne. reflexivity.
Qed.

Lemma Init_shaderCache (fp : FP.Rounding) (K : Consts) (drv : Driver)
    (cfg : RendererNode) (rs : RenderSystem) (gl : GLState) :
  gladLoadGLLoader drv = true -> gen_lightBuffer drv <> 0 ->
  cache_of (Init fp K drv cfg rs gl)
  = (compile_programs (child_Program cfg) (m_shaderCache rs, gl)).1.
Proof.
  intros Hglad Hbuf. unfold Init. rewrite Hglad. cbn [negb].
  destruct (compile_programs _ _) as [cache gl1].
  unfold setupLightBuffers, setupLightStorageBuffer. cbn [m_lightBuffer].
  destruct (Z.eqb_spec (gen_lightBuffer drv) 0) as [E|_]; [contradiction|].
  reflexivity.
Qed.

(** The programs constructed by the registration loop: one for each name
    it adds to the cache, none for a name already there. *)
Lemma compile_programs_count (programs : list ProgramNode)
    (st : gmap string GLShaderProgram * GLState) :
  let st' := compile_programs programs st in
  (size st.1 <= size st'.1)%nat
  /\ gl_nextProgram st'.2
     = (gl_nextProgram st.2 + N.of_nat (size st'.1 - size st.1))%N.
Proof.
  cbv zeta. revert st.
  induction programs as [|program programs IH]; intros [cache gl].
  - cbn. split; [lia|]. rewrite Nat.sub_diag. cbn. lia.
  - rewrite compile_programs_cons.
    destruct (IH (try_emplace (program_name program) (program_name program)
                    (program_shaders program) (cache, gl))) as [Hle Hn].
    unfold try_emplace in Hle, Hn |- *. cbn [fst snd] in Hle, Hn |- *.
    destruct (cache !! program_name program) as [q|] eqn:E.
    + split; [exact Hle | exact Hn].
    + cbn [GLShaderProgram_ctor fst snd] in Hle, Hn |- *.
      rewrite map_size_insert_None in Hle, Hn by exact E.
      split; [lia|]. rewrite Hn. cbn. lia.
Qed.

Lemma compile_programs_cached (programs : list ProgramNode)
    (st : gmap string GLShaderProgram * GLState) :
  (forall program, program ∈ programs ->
     is_Some (st.1 !! program_name program)) ->
  compile_programs programs st = st.
Proof.
  induction programs as [|program programs IH]; intros H; [reflexivity|].
  rewrite compile_programs_cons, try_emplace_cached.
  - apply IH. intros q Hq. apply H. by right.
  - apply H. by left.
Qed.

(** C5 (as amended).  Registration keeps the first program of each name.
    After the registration loop of [Init], a name that was already cached
    still maps to the very same program, and any other name maps to the
    program compiled from the first [Program] node of that name (to
    nothing if there is none).  The loop constructs one program for each
    name it adds to the cache and none for a name already cached: when
    every node's name is cached, the cache and the GL state are left as
    they were. *)
Theorem shader_registration_keeps_first (programs : list ProgramNode)
    (cache : gmap string GLShaderProgram) (gl : GLState) (name : string) :
  let st' := compile_programs programs (cache, gl) in
  match cache !! name with
  | Some p => st'.1 !! name = Some p
  | None =>
      m_programShaders <$> st'.1 !! name
      = program_shaders <$> first_named name programs
  end
  /\ gl_nextProgram st'.2
     = (gl_nextProgram gl + N.of_nat (size st'.1 - size cache))%N
  /\ ((forall program, program ∈ programs ->
         is_Some (cache !! program_name program)) ->
      st' = (cache, gl)).
Proof.
  cbv zeta. split; [|split].
  - pose proof (compile_programs_shaders programs (cache, gl) name) as Hs.
    cbn [fst] in Hs.
    destruct (cache !! name) as [p|] eqn:E; [|exact Hs].
    clear Hs. revert cache gl E.
    induction programs as [|program programs IH]; intros cache gl E.
    + exact E.
    + rewrite compile_programs_cons.
      destruct (try_emplace _ _ _ (cache, gl)) as [cache1 gl1] eqn:Et.
      apply IH.
      pose proof (try_emplace_lookup (program_name program)
                    (program_name program) (program_shaders program)
                    cache gl name) as Hl.
      rewrite Et, E in Hl. exact Hl.
  - exact (proj2 (compile_programs_count programs (cache, gl))).
  - intros H. exact (compile_programs_cached programs (cache, gl) H).
Qed.

(** A second node of a cached name constructs nothing: the registration
    of [duplicate_programs] leaves one program in the GL state. *)
Example duplicate_programs_construct_one :
  let st' := compile_programs duplicate_programs (∅, gl_initial) in
  size st'.1 = 1%nat
  /\ gl_nextProgram st'.2 = (gl_nextProgram gl_initial + 1)%N.
Proof. vm_compute. split; reflexivity. Qed.

(** C5 as stated fails: with two [Program] nodes named PBRShader, the
    cache left by [Init] holds the program of the first node, not the one
    compiled most recently. *)
Lemma shader_registration_not_latest :
  ~ registers_latest duplicate_programs
      (cache_of (Init FP.ieee sample_consts (sample_driver (1 # 2))
                      {| attr_width := 800; attr_height := 600;
                         child_Program := duplicate_programs |}
                      RenderSystem_ctor gl_initial)).
Proof.
  intros H. specialize (H "PBRShader" _ eq_refl).
  vm_compute in H. discriminate.
Qed.

(** ** Shutdown *)

Lemma Shutdown_programs (st : RenderSystem * GLState) (h : N) :
  h ∈ gl_programs (Shutdown st).2
  <-> h ∈ gl_programs st.2
      /\ forall k p, m_shaderCache st.1 !! k = Some p -> m_programID p <> h.
Proof.
  unfold Shutdown. cbn [snd].
  apply (map_fold_weak_ind
           (fun g (m : gmap string GLShaderProgram) =>
              h ∈ gl_programs g
              <-> h ∈ gl_programs st.2
                  /\ forall k p, m !! k = Some p -> m_programID p <> h)).
  - split; [intros Hh; split; [exact Hh|] | intros [Hh _]; exact Hh].
    intros k p Hk. rewrite lookup_empty in Hk. discriminate.
  - intros i p m g Hi IH. cbn [DeleteProgram set_programs gl_programs].
    rewrite elem_of_difference, elem_of_singleton, IH. split.
    + intros [[Hh Hm] Hne]. split; [exact Hh|].
      intros k q Hk. destruct (decide (i = k)) as [->|Hik].
      * rewrite lookup_insert_eq in Hk. injection Hk as <-. congruence.
      * rewrite lookup_insert_ne in Hk by exact Hik. eapply Hm, Hk.
    + intros [Hh Hm]. split; [split; [exact Hh|] |].
      * intros k q Hk. apply (Hm k). rewrite lookup_insert_ne; [exact Hk|].
        intros ->. congruence.
      * intros Heq. apply (Hm i p); [apply lookup_insert_eq | congruence].
Qed.

(** C6 (as amended).  [Shutdown] releases every program of the cache and
    leaves the cache itself as it was: afterwards a registered name is
    still found, and what is found is a released program; only a name
    that was never registered fails to be found. *)
Theorem Shutdown_releases_and_keeps_cache (st : RenderSystem * GLState)
    (name : string) :
  (Shutdown st).1 = st.1
  /\ match m_shaderCache st.1 !! name with
     | Some p =>
         cache_at (m_shaderCache (Shutdown st).1) name = Returned p
         /\ released (Shutdown st).2 p
     | None =>
         cache_at (m_shaderCache (Shutdown st).1) name = Threw "out_of_range"
     end.
Proof.
  split; [reflexivity|].
  unfold cache_at. cbn [Shutdown fst].
  destruct (m_shaderCache st.1 !! name) as [p|] eqn:E; [|reflexivity].
  split; [reflexivity|].
  unfold released. rewrite Shutdown_programs.
  intros [_ Hm]. exact (Hm name p E eq_refl).
Qed.

(** C6 as stated fails: after [Init] and [Shutdown], looking up
    PBRShader does not fail; it returns program 3, which is released. *)
Lemma lookup_after_shutdown_succeeds :
  ~ lookup_fails_after_shutdown (sample_state 800 600).
Proof.
  intros H. specialize (H "PBRShader"). vm_compute in H. discriminate.
Qed.

(** ** Initialisation *)

(** C9.  [Init] aborts the process with its message when the loader
    fails, and aborts it with its message when the light buffer was not
    created; in every other case it returns a state.  An aborted call
    leaves no state behind. *)
Theorem Init_fails_fatally (fp : FP.Rounding) (K : Consts) (drv : Driver)
    (cfg : RendererNode) (rs : RenderSystem) (gl : GLState) :
  if gladLoadGLLoader drv then
    if (gen_lightBuffer drv =? 0)%Z then
      Init fp K drv cfg rs gl
      = Aborted ("Error: Forward+ light buffer has not been created." ++ endl)
    else
      exists st, Init fp K drv cfg rs gl = Returned st
  else
    Init fp K drv cfg rs gl = Aborted "Failed to start GLAD.".
Proof.
  unfold Init.
  destruct (gladLoadGLLoader drv); cbn [negb]; [|reflexivity].
  destruct (compile_programs _ _) as [cache gl1].
  unfold setupLightBuffers, setupLightStorageBuffer. cbn [m_lightBuffer].
  destruct (gen_lightBuffer drv =? 0)%Z.
  - reflexivity.
  - cbn [bind]. eexists. reflexivity.
Qed.

Example Init_without_loader :
  Init FP.ieee sample_consts driver_without_loader (sample_config 800 600)
       RenderSystem_ctor gl_initial
  = Aborted "Failed to start GLAD.".
Proof. reflexivity. Qed.

Example Init_without_light_buffer :
  Init FP.ieee sample_consts driver_without_light_buffer
       (sample_config 800 600) RenderSystem_ctor gl_initial
  = Aborted ("Error: Forward+ light buffer has not been created." ++ endl).
Proof. vm_compute. reflexivity. Qed.

(** ** The tile grid *)

Lemma Init_workGroups (fp : FP.Rounding) (K : Consts) (drv : Driver)
    (cfg : RendererNode) (rs : RenderSystem) (gl : GLState)
    (st : RenderSystem * GLState) :
  Init fp K drv cfg rs gl = Returned st ->
  m_width st.1 = attr_width cfg /\ m_height st.1 = attr_height cfg
  /\ m_workGroupsX st.1
     = UInt.div (UInt.add (attr_width cfg) (UInt.rem (attr_width cfg) 8)) 8
  /\ m_workGroupsY st.1
     = UInt.div (UInt.add (attr_height cfg) (UInt.rem (attr_height cfg) 8)) 8.
Proof.
  unfold Init. destruct (gladLoadGLLoader drv); cbn [negb]; [|discriminate].
  destruct (compile_programs _ _) as [cache gl1].
  unfold setupLightBuffers, setupLightStorageBuffer. cbn [m_lightBuffer].
  destruct (gen_lightBuffer drv =? 0)%Z; [discriminate|].
  cbn [bind]. intros [= <-]. cbn. auto.
Qed.

(** What [(w + w % 8) / 8] computes: the quotient rounded to the nearest
    integer (halves up), not the ceiling. *)
Lemma workGroups_formula (w : Z) :
  0 <= w -> w + 7 < UInt.modulus ->
  UInt.div (UInt.add w (UInt.rem w 8)) 8
  = w / 8 + (if 4 <=? w mod 8 then 1 else 0).
Proof.
  intros H0 Hlt. unfold UInt.div, UInt.add, UInt.rem, UInt.wrap.
  rewrite Z.rem_mod_nonneg by lia.
  pose proof (Z.mod_pos_bound w 8 ltac:(lia)) as Hm.
  rewrite (Z.mod_small (w + w mod 8)) by lia.
  rewrite Z.quot_div_nonneg by lia.
  pose proof (Z.div_mod w 8 ltac:(lia)) as Hd.
  destruct (Z.leb_spec 4 (w mod 8)).
  - symmetry. apply (Z.div_unique _ 8 _ (2 * (w mod 8) - 8)); lia.
  - symmetry. apply (Z.div_unique _ 8 _ (2 * (w mod 8))); lia.
Qed.

Lemma workGroups_is_ceiling_iff (w : Z) :
  0 <= w -> w + 7 < UInt.modulus ->
  UInt.div (UInt.add w (UInt.rem w 8)) 8 = ceil_div w 8
  <-> w mod 8 = 0 \/ 4 <= w mod 8.
Proof.
  intros H0 Hlt. rewrite workGroups_formula by assumption.
  unfold ceil_div.
  pose proof (Z.mod_pos_bound w 8 ltac:(lia)) as Hm.
  pose proof (Z.div_mod w 8 ltac:(lia)) as Hd.
  destruct (decide (w mod 8 = 0)) as [Ez|Hnz].
  - assert (E : (w + 8 - 1) / 8 = w / 8)
      by (symmetry; apply (Z.div_unique _ 8 _ 7); lia).
    rewrite E, Ez. cbn. split; [auto | lia].
  - assert (E : (w + 8 - 1) / 8 = w / 8 + 1)
      by (symmetry; apply (Z.div_unique _ 8 _ (w mod 8 - 1)); lia).
    rewrite E. destruct (Z.leb_spec 4 (w mod 8)); split; lia.
Qed.

(** C1 (the code departs from it).  [Init] on a 1680 by 1050 viewport
    sets the tile grid to 210 by 131, while the ceilings are 210 and 132;
    and a resize from 800 by 600 to 1600 by 1200 in [Update] leaves the
    grid at 100 by 75, while the ceilings for the new viewport are 200
    and 150. *)
Theorem tile_grid_is_not_the_ceiling :
  (let st := sample_state 1680 1050 in
   (m_width st.1, m_height st.1) = (1680, 1050)
   /\ (m_workGroupsX st.1, m_workGroupsY st.1) = (210, 131)
   /\ (ceil_div 1680 8, ceil_div 1050 8) = (210, 132))
  /\ (let st := Update FP.ieee sample_consts (resized 1600 1200)
                       sample_camera (1 # 64) (sample_state 800 600) in
      (m_width st.1, m_height st.1) = (1600, 1200)
      /\ (m_workGroupsX st.1, m_workGroupsY st.1) = (100, 75)
      /\ (ceil_div 1600 8, ceil_div 1200 8) = (200, 150)).
Proof. vm_compute. repeat split. Qed.

(** ** Resize handling *)

(** C3.  When [Update] sees [ShouldResize()], it takes the new size,
    recomputes the projection matrix for it, writes it to the projection
    half of the uniform buffer, sets the viewport to it and resizes the
    depth framebuffer to it, and it leaves the HDR framebuffer alone;
    otherwise the size, the projection matrix, the projection half of the
    uniform buffer, the viewport and both framebuffers are unchanged. *)
Theorem Update_resize (fp : FP.Rounding) (K : Consts) (input : Input)
    (camera : Camera) (delta : Q) (st : RenderSystem * GLState) :
  let st' := Update fp K input camera delta st in
  if ShouldResize input then
    let width := GetWidth input in
    let height := GetHeight input in
    (m_width st'.1, m_height st'.1) = (width, height)
    /\ m_projMatrix st'.1 = GetProjMatrix camera width height
    /\ gl_uboProjection st'.2 = Some (GetProjMatrix camera width height)
    /\ gl_viewport st'.2 = (0, 0, width, height)
    /\ m_depthFBO st'.1 = GLFramebuffer_Resize width height <$> m_depthFBO st.1
    /\ (fbo_width <$> m_depthFBO st'.1) = (fun _ => width) <$> m_depthFBO st.1
    /\ (fbo_height <$> m_depthFBO st'.1) = (fun _ => height) <$> m_depthFBO st.1
    /\ m_hdrFBO st'.1 = m_hdrFBO st.1
  else
    (m_width st'.1, m_height st'.1) = (m_width st.1, m_height st.1)
    /\ m_projMatrix st'.1 = m_projMatrix st.1
    /\ gl_uboProjection st'.2 = gl_uboProjection st.2
    /\ gl_viewport st'.2 = gl_viewport st.2
    /\ m_depthFBO st'.1 = m_depthFBO st.1
    /\ m_hdrFBO st'.1 = m_hdrFBO st.1.
Proof.
  cbv zeta. unfold Update. destruct st as [rs gl].
  destruct (ShouldResize input); cbn.
  - repeat split; by destruct (m_depthFBO rs).
  - repeat split.
Qed.

(** ** The frame *)

Lemma run_app (st : Pipeline) (t1 t2 : list GLCall) :
  run st (t1 ++ t2) = run (run st t1) t2.
Proof. apply foldl_app. Qed.

Lemma submissions_app (st : Pipeline) (t1 t2 : list GLCall) :
  submissions st (t1 ++ t2)
  = submissions st t1 ++ submissions (run st t1) t2.
Proof.
  revert st. induction t1 as [|c t1 IH]; intros st; [reflexivity|].
  cbn [app submissions]. rewrite IH, <- app_assoc. reflexivity.
Qed.

Section RenderModels.

Variable shader : GLShaderProgram.

Local Abbreviation mm := (modelMatrix_key shader).

Lemma renderMesh_depth (model : Model) (mesh : Mesh) (st : Pipeline) :
  submissions st (renderMesh shader model true mesh)
  = [(glDrawElements (GetIndexCount mesh), st)]
  /\ run st (renderMesh shader model true mesh) = st.
Proof. split; reflexivity. Qed.

Lemma renderMesh_shading (model : Model) (mesh : Mesh) (st : Pipeline) :
  exists st',
    submissions st (renderMesh shader model false mesh)
    = [(glDrawElements (GetIndexCount mesh), st')]
    /\ run st (renderMesh shader model false mesh) = st'
    /\ bound_fb st' = bound_fb st /\ cur_prog st' = cur_prog st
    /\ uniforms st' !! mm = uniforms st !! mm
    /\ uniforms st' !! (m_programID shader, "albedo")
       = Some (U3f (Albedo (GetMaterial model)))
    /\ uniforms st' !! (m_programID shader, "metallic")
       = Some (U1f (Metallic (GetMaterial model)))
    /\ uniforms st' !! (m_programID shader, "ao")
       = Some (U1f (AO (GetMaterial model)))
    /\ uniforms st' !! (m_programID shader, "roughness")
       = Some (U1f (Roughness (GetMaterial model))).
Proof.
  eexists. split; [reflexivity|]. split; [reflexivity|].
  cbn. unfold modelMatrix_key. repeat split; by simplify_map_eq.
Qed.

Lemma renderMeshes_seen (depthPass : bool) (model : Model)
    (meshes : list Mesh) (st0 st : Pipeline) :
  bound_fb st = bound_fb st0 -> cur_prog st = cur_prog st0 ->
  uniforms st !! mm = Some (UMatrix4 (GetModelMatrix model)) ->
  (depthPass = true ->
   forall k, k <> mm -> uniforms st !! k = uniforms st0 !! k) ->
  Forall2 (seen shader depthPass st0)
          ((fun mesh => (model, mesh)) <$> meshes)
          (submissions st
             (flat_map (renderMesh shader model depthPass) meshes))
  /\ left_by shader depthPass st0
       (run st (flat_map (renderMesh shader model depthPass) meshes))
  /\ uniforms (run st (flat_map (renderMesh shader model depthPass) meshes))
       !! mm = Some (UMatrix4 (GetModelMatrix model)).
Proof.
  revert st. induction meshes as [|mesh meshes IH]; intros st Hfb Hp Hmm Hk.
  - cbn. split; [constructor|]. split; [|exact Hmm].
    split; [exact Hfb|]. split; [exact Hp | exact Hk].
  - cbn [flat_map fmap list_fmap]. rewrite submissions_app, run_app.
    destruct depthPass.
    + destruct (renderMesh_depth model mesh st) as [-> ->].
      destruct (IH st Hfb Hp Hmm Hk) as (IH1 & IH2 & IH3).
      split; [|split; assumption].
      cbn [app]. constructor; [|exact IH1].
      unfold seen. cbn [fst snd].
      repeat split; try assumption. apply Hk. reflexivity.
    + destruct (renderMesh_shading model mesh st)
        as (st' & -> & -> & Hfb' & Hp' & Hmm' & Ha & Hm & Hao & Hr).
      destruct (IH st') as (IH1 & IH2 & IH3);
        [congruence | congruence | congruence | discriminate |].
      split; [|split; assumption].
      cbn [app]. constructor; [|exact IH1].
      unfold seen, shading_draw, uniform_at. cbn [fst snd].
      change (m_programID shader, "modelMatrix") with (modelMatrix_key shader).
      repeat split; congruence.
Qed.

Lemma renderModels_seen (depthPass : bool) (renderList : list Model)
    (st0 st : Pipeline) :
  bound_fb st = bound_fb st0 -> cur_prog st = cur_prog st0 ->
  (depthPass = true ->
   forall k, k <> mm -> uniforms st !! k = uniforms st0 !! k) ->
  Forall2 (seen shader depthPass st0) (draw_list renderList)
          (submissions st (renderModels shader renderList depthPass))
  /\ left_by shader depthPass st0
       (run st (renderModels shader renderList depthPass)).
Proof.
  revert st.
  induction renderList as [|model renderList IH]; intros st Hfb Hp Hk.
  - cbn. split; [constructor|]. split; [exact Hfb|]. split; assumption.
  - unfold renderModels, draw_list. cbn [flat_map].
    fold (renderModels shader renderList depthPass).
    fold (draw_list renderList).
    rewrite submissions_app, run_app.
    unfold renderModel at 1 3. cbn [submissions is_work app run foldl].
    fold (run (gl_step st (SetUniform shader "modelMatrix"
                             (UMatrix4 (GetModelMatrix model))))
              (flat_map (renderMesh shader model depthPass)
                        (GetMeshes model))).
    set (st1 := gl_step st (SetUniform shader "modelMatrix"
                              (UMatrix4 (GetModelMatrix model)))).
    assert (Hmm1 : uniforms st1 !! mm
                   = Some (UMatrix4 (GetModelMatrix model)))
      by (cbn; apply lookup_insert_eq).
    assert (Hk1 : depthPass = true ->
                  forall k, k <> mm -> uniforms st1 !! k = uniforms st0 !! k).
    { intros Hd k Hne.
      assert (Hne' : mm <> k) by (intros E; apply Hne; symmetry; exact E).
      unfold st1. cbn [gl_step uniforms].
      rewrite (lookup_insert_ne _ mm k _ Hne'). by apply Hk. }
    destruct (renderMeshes_seen depthPass model (GetMeshes model) st0 st1
                Hfb Hp Hmm1 Hk1) as (H1 & (Hfb2 & Hp2 & Hk2) & _).
    destruct (IH _ Hfb2 Hp2 Hk2) as (H3 & H4).
    split; [|exact H4].
    apply Forall2_app; assumption.
Qed.

(** The depth loop: every mesh is drawn, in order, into the bound
    framebuffer under the program in use, as a [depth_draw]. *)
Lemma renderModels_depth (renderList : list Model) (st : Pipeline) :
  Forall2 (fun entry s =>
             submitted s
             = (glDrawElements (GetIndexCount entry.2),
                bound_fb st, cur_prog st)
             /\ depth_draw st shader entry s)
          (draw_list renderList)
          (submissions st (renderModels shader renderList true))
  /\ bound_fb (run st (renderModels shader renderList true)) = bound_fb st
  /\ cur_prog (run st (renderModels shader renderList true)) = cur_prog st.
Proof.
  destruct (renderModels_seen true renderList st st eq_refl eq_refl
              (fun _ _ _ => eq_refl)) as (HF & Hfb & Hp & _).
  split; [|split; assumption].
  eapply Forall2_impl; [exact HF|].
  intros entry [c st'] (Hc & Hfb' & Hp' & Hmm & Hk).
  cbn [fst snd] in *. subst c. unfold submitted, depth_draw, uniform_at.
  cbn [fst snd]. rewrite Hfb', Hp'.
  repeat split; [exact Hmm|].
  intros name Hne. apply Hk. unfold modelMatrix_key. congruence.
Qed.

(** The shading loop: every mesh is drawn, in order, as a
    [shading_draw]. *)
Lemma renderModels_shading (renderList : list Model) (st : Pipeline) :
  Forall2 (fun entry s =>
             submitted s
             = (glDrawElements (GetIndexCount entry.2),
                bound_fb st, cur_prog st)
             /\ shading_draw shader entry s)
          (draw_list renderList)
          (submissions st (renderModels shader renderList false))
  /\ bound_fb (run st (renderModels shader renderList false)) = bound_fb st
  /\ cur_prog (run st (renderModels shader renderList false)) = cur_prog st.
Proof.
  destruct (renderModels_seen false renderList st st eq_refl eq_refl)
    as (HF & Hfb & Hp & _); [discriminate|].
  split; [|split; assumption].
  eapply Forall2_impl; [exact HF|].
  intros entry [c st'] (Hc & Hfb' & Hp' & Hmm & Hs).
  cbn [fst snd] in *. subst c. unfold submitted.
  cbn [fst snd]. rewrite Hfb', Hp'. split; [reflexivity | exact Hs].
Qed.

(** The only uniform the depth loop sets is the model matrix. *)
Lemma renderModels_depth_uniforms (renderList : list Model)
    (q : GLShaderProgram) (name : string) (v : UniformValue) :
  SetUniform q name v ∈ renderModels shader renderList true ->
  q = shader /\ name = "modelMatrix"
  /\ exists model, model ∈ renderList /\ v = UMatrix4 (GetModelMatrix model).
Proof.
  unfold renderModels. rewrite list_elem_of_In, in_flat_map.
  intros (model & Hin & Hc). apply list_elem_of_In in Hin.
  unfold renderModel in Hc. destruct Hc as [Hc|Hc].
  - injection Hc as <- <- <-. eauto.
  - apply in_flat_map in Hc as (mesh & _ & Hc).
    cbn in Hc. destruct Hc as [Hc|[Hc|[Hc|[]]]]; discriminate.
Qed.

End RenderModels.

Lemma static_of_names (statics : RenderStatics) :
  static_of "DepthPassShader" statics = static_depthShader statics
  /\ static_of "LightCullShader" statics = static_lightCullShader statics
  /\ static_of "PBRShader" statics = static_pbrShader statics
  /\ static_of "PostProcessShader" statics = static_postProcessShader statics.
Proof. repeat split. Qed.

Lemma renderable_spec (statics : RenderStatics) (rs : RenderSystem) :
  renderable statics rs
  <-> (is_Some (static_depthShader statics)
       \/ is_Some (m_shaderCache rs !! "DepthPassShader"))
      /\ (is_Some (static_lightCullShader statics)
          \/ is_Some (m_shaderCache rs !! "LightCullShader"))
      /\ (is_Some (static_pbrShader statics)
          \/ is_Some (m_shaderCache rs !! "PBRShader"))
      /\ (is_Some (static_postProcessShader statics)
          \/ is_Some (m_shaderCache rs !! "PostProcessShader")).
Proof.
  unfold renderable, required_programs. split.
  - intros H. split_and!.
    + apply (H "DepthPassShader"). rewrite !elem_of_cons. tauto.
    + apply (H "LightCullShader"). rewrite !elem_of_cons. tauto.
    + apply (H "PBRShader"). rewrite !elem_of_cons. tauto.
    + apply (H "PostProcessShader"). rewrite !elem_of_cons. tauto.
  - intros (H1 & H2 & H3 & H4) name. rewrite !elem_of_cons.
    intros [->|[->|[->|[->|H]]]]; [assumption.. |].
    by apply elem_of_nil in H.
Qed.

(** What [Render] does, by cases on the static references and the cache:
    either every reference is bound or can be bound, and the frame runs to
    its end with the programs the references hold afterwards; or [at]
    throws, after the call that binds the uniform buffer and before
    anything else. *)
Lemma Render_cases (statics : RenderStatics) (rs : RenderSystem)
    (scene : SceneBase) :
  (renderable statics rs
   /\ exists d l p pp,
       Render statics rs scene
       = {| frame_calls :=
              [ glBindBuffer_UNIFORM (m_uboMatrices rs) ]
              ++ depthPass rs scene d ++ cullPass rs scene l
              ++ shadingPass rs scene p ++ postProcessPass rs pp;
            frame_outcome := Returned tt;
            frame_statics :=
              {| static_depthShader := Some d;
                 static_lightCullShader := Some l;
                 static_pbrShader := Some p;
                 static_postProcessShader := Some pp |} |})
  \/ (~ renderable statics rs
      /\ frame_outcome (Render statics rs scene) = Threw "out_of_range"
      /\ frame_calls (Render statics rs scene)
         = [ glBindBuffer_UNIFORM (m_uboMatrices rs) ]
      /\ ~ exists d l p pp,
            statics_hold (frame_statics (Render statics rs scene)) d l p pp).
Proof.
  rewrite renderable_spec.
  unfold Render, Render_shaders, static_init, cache_at, statics_hold.
  destruct statics as [sd sl sp spp]. cbn.
  destruct sd as [d|];
    [|destruct (m_shaderCache rs !! "DepthPassShader") as [d|]]; cbn.
  3: { right. split_and!; try reflexivity.
       - intros ([[? [=]]|[? [=]]] & _).
       - intros (? & ? & ? & ? & [=] & _). }
  all: destruct sl as [l|];
    [|destruct (m_shaderCache rs !! "LightCullShader") as [l|]]; cbn.
  3, 6: right; split_and!; try reflexivity;
    [ intros (_ & [[? [=]]|[? [=]]] & _)
    | intros (? & ? & ? & ? & _ & [=] & _) ].
  all: destruct sp as [p|];
    [|destruct (m_shaderCache rs !! "PBRShader") as [p|]]; cbn.
  3, 6, 9, 12: right; split_and!; try reflexivity;
    [ intros (_ & _ & [[? [=]]|[? [=]]] & _)
    | intros (? & ? & ? & ? & _ & _ & [=] & _) ].
  all: destruct spp as [pp|];
    [|destruct (m_shaderCache rs !! "PostProcessShader") as [pp|]]; cbn.
  all: first
    [ left; split; [split_and!; eauto | by exists d, l, p, pp]
    | right; split_and!; try reflexivity;
      [ intros (_ & _ & _ & [[? [=]]|[? [=]]])
      | intros (? & ? & ? & ? & _ & _ & _ & [=]) ] ].
Qed.

(** When the static references are bound after the call, the call ran the
    four passes with the programs they hold. *)
Lemma Render_bound (statics : RenderStatics) (rs : RenderSystem)
    (scene : SceneBase) (d l p pp : GLShaderProgram) :
  statics_hold (frame_statics (Render statics rs scene)) d l p pp ->
  renderable statics rs
  /\ frame_outcome (Render statics rs scene) = Returned tt
  /\ frame_calls (Render statics rs scene)
     = [ glBindBuffer_UNIFORM (m_uboMatrices rs) ]
       ++ depthPass rs scene d ++ cullPass rs scene l
       ++ shadingPass rs scene p ++ postProcessPass rs pp.
Proof.
  intros Hh.
  destruct (Render_cases statics rs scene)
    as [(Hr & d' & l' & p' & pp' & E)|(_ & _ & _ & Hn)].
  - rewrite E in Hh |- *. destruct Hh as ([= <-] & [= <-] & [= <-] & [= <-]).
    cbn. auto.
  - exfalso. apply Hn. eauto.
Qed.

(** A call that does not run to its end throws before any work is
    submitted. *)
Lemma Render_throws_before_any_work (statics : RenderStatics)
    (rs : RenderSystem) (scene : SceneBase) (st0 : Pipeline) :
  frame_outcome (Render statics rs scene) <> Returned tt ->
  frame_outcome (Render statics rs scene) = Threw "out_of_range"
  /\ submissions st0 (frame_calls (Render statics rs scene)) = [].
Proof.
  intros Hne.
  destruct (Render_cases statics rs scene)
    as [(_ & d & l & p & pp & E)|(_ & Ho & Hc & _)].
  - rewrite E in Hne. cbn in Hne. congruence.
  - rewrite Ho, Hc. split; reflexivity.
Qed.

Section Passes.

Variable rs : RenderSystem.
Variable scene : SceneBase.

Lemma depthPass_replay (d : GLShaderProgram) (st : Pipeline) :
  exists draws,
    submissions st (depthPass rs scene d) = draws
    /\ Forall2 (fun entry s =>
                  submitted s
                  = (glDrawElements (GetIndexCount entry.2),
                     DepthFBO, Some d)
                  /\ depth_draw st d entry s)
               (draw_list (m_renderList scene)) draws
    /\ bound_fb (run st (depthPass rs scene d)) = DefaultFramebuffer.
Proof.
  eexists. split; [reflexivity|].
  unfold depthPass. split.
  - cbn [app submissions is_work gl_step].
    rewrite submissions_app.
    cbn [submissions is_work app]. rewrite app_nil_r.
    set (st1 := {| bound_fb := DepthFBO; cur_prog := Some d;
                   uniforms := uniforms st |}).
    destruct (renderModels_depth d (m_renderList scene) st1) as (HF & _).
    exact HF.
  - rewrite app_assoc, run_app. reflexivity.
Qed.

Lemma cullPass_replay (l : GLShaderProgram) (st : Pipeline) :
  exists st',
    submissions st (cullPass rs scene l)
    = [(glDispatchCompute (m_workGroupsX rs) (m_workGroupsY rs) 1, st')]
    /\ bound_fb st' = bound_fb st /\ cur_prog st' = Some l
    /\ run st (cullPass rs scene l) = st'.
Proof. eexists. repeat split. Qed.

Lemma shadingPass_replay (p : GLShaderProgram) (st : Pipeline) :
  exists draws sky,
    submissions st (shadingPass rs scene p) = draws ++ [sky]
    /\ Forall2 (fun entry s =>
                  submitted s
                  = (glDrawElements (GetIndexCount entry.2),
                     HdrFBO, Some p)
                  /\ shading_draw p entry s)
               (draw_list (m_renderList scene)) draws
    /\ submitted sky = (Skybox_Draw, HdrFBO, Some p).
Proof.
  unfold shadingPass. cbn [app submissions is_work gl_step].
  match goal with
  | |- context [submissions ?s (renderModels _ _ _ ++ _)] => set (st1 := s)
  end.
  rewrite submissions_app.
  destruct (renderModels_shading p (m_renderList scene) st1)
    as (HF & Hfb & Hp).
  eexists _, _. split; [reflexivity|]. split; [exact HF|].
  unfold submitted. cbn [fst snd]. rewrite Hfb, Hp. reflexivity.
Qed.

Lemma postProcessPass_replay (pp : GLShaderProgram) (st : Pipeline) :
  exists st',
    submissions st (postProcessPass rs pp) = [(glDrawArrays 0 4, st')]
    /\ bound_fb st' = DefaultFramebuffer /\ cur_prog st' = Some pp.
Proof. eexists. repeat split. Qed.

End Passes.

Lemma Forall2_fmap_eq {A B C : Type} (f : A -> C) (g : B -> C)
    (P : A -> B -> Prop) (l : list A) (k : list B) :
  (forall a b, P a b -> g b = f a) ->
  Forall2 P l k -> g <$> k = f <$> l.
Proof.
  intros HP HF. induction HF as [|a b l k Hab _ IH]; [reflexivity|].
  cbn. rewrite (HP _ _ Hab), IH. reflexivity.
Qed.

Lemma frame_submissions (rs : RenderSystem) (scene : SceneBase)
    (d l p pp : GLShaderProgram) (st0 : Pipeline) :
  exists depth_draws stc shading_draws sky stq,
    submissions st0
      ([ glBindBuffer_UNIFORM (m_uboMatrices rs) ]
       ++ depthPass rs scene d ++ cullPass rs scene l
       ++ shadingPass rs scene p ++ postProcessPass rs pp)
    = depth_draws
      ++ (glDispatchCompute (m_workGroupsX rs) (m_workGroupsY rs) 1, stc)
      :: shading_draws ++ [sky; (glDrawArrays 0 4, stq)]
    /\ Forall2 (fun entry s =>
                  submitted s
                  = (glDrawElements (GetIndexCount entry.2),
                     DepthFBO, Some d)
                  /\ depth_draw st0 d entry s)
               (draw_list (m_renderList scene)) depth_draws
    /\ bound_fb stc = DefaultFramebuffer /\ cur_prog stc = Some l
    /\ Forall2 (fun entry s =>
                  submitted s
                  = (glDrawElements (GetIndexCount entry.2),
                     HdrFBO, Some p)
                  /\ shading_draw p entry s)
               (draw_list (m_renderList scene)) shading_draws
    /\ submitted sky = (Skybox_Draw, HdrFBO, Some p)
    /\ bound_fb stq = DefaultFramebuffer /\ cur_prog stq = Some pp.
Proof.
  cbn [app submissions is_work].
  set (st1 := gl_step st0 (glBindBuffer_UNIFORM (m_uboMatrices rs))).
  rewrite submissions_app.
  destruct (depthPass_replay rs scene d st1) as (dd & -> & Hdd & Hfb1).
  rewrite submissions_app.
  destruct (cullPass_replay rs scene l (run st1 (depthPass rs scene d)))
    as (stc & -> & Hfbc & Hpc & ->).
  rewrite submissions_app.
  destruct (shadingPass_replay rs scene p stc) as (sd & sky & -> & Hsd & Hsky).
  destruct (postProcessPass_replay rs pp (run stc (shadingPass rs scene p)))
    as (stq & -> & Hfbq & Hpq).
  exists dd, stc, sd, sky, stq.
  split; [cbn [app]; rewrite <- app_assoc; reflexivity|].
  split_and!; try assumption. congruence.
Qed.


Lemma material_uniform_model (name : string) :
  material_uniform name -> name <> "modelMatrix".
Proof. intros [->|[->|[->| ->]]]; discriminate. Qed.

(** The material uniforms the shading loop sets are those of the entries
    that have a mesh. *)
Lemma renderModels_material_uniforms (shader : GLShaderProgram)
    (renderList : list Model) (q : GLShaderProgram) (name : string)
    (v : UniformValue) :
  SetUniform q name v ∈ renderModels shader renderList false ->
  material_uniform name ->
  q = shader
  /\ exists model,
      model ∈ renderList /\ GetMeshes model <> []
      /\ material_value model name v.
Proof.
  unfold renderModels. rewrite list_elem_of_In, in_flat_map.
  intros (model & Hin & Hc) Hm. apply list_elem_of_In in Hin.
  unfold renderModel in Hc. destruct Hc as [Hc|Hc].
  - injection Hc as <- <- <-. by apply material_uniform_model in Hm.
  - apply in_flat_map in Hc as (mesh & Hmesh & Hc).
    assert (Hne : GetMeshes model <> []) by (by destruct (GetMeshes model)).
    unfold material_value. cbn in Hc.
    destruct Hc as [Hc|[Hc|[Hc|[Hc|[Hc|[Hc|[Hc|[]]]]]]]];
      try discriminate; injection Hc as <- <- <-;
      (split; [reflexivity|]); exists model; tauto.
Qed.

Lemma shadingPass_material_uniforms (rs : RenderSystem) (scene : SceneBase)
    (p q : GLShaderProgram) (name : string) (v : UniformValue) :
  SetUniform q name v ∈ shadingPass rs scene p ->
  material_uniform name ->
  q = p
  /\ exists model,
      model ∈ m_renderList scene /\ GetMeshes model <> []
      /\ material_value model name v.
Proof.
  intros Hin Hm. unfold shadingPass in Hin.
  rewrite !elem_of_app in Hin.
  destruct Hin as [Hin|[Hin|Hin]].
  - rewrite !elem_of_cons in Hin.
    destruct Hm as [->|[->|[->| ->]]];
      repeat (destruct Hin as [Hin|Hin]; [discriminate|]);
      by apply elem_of_nil in Hin.
  - by apply renderModels_material_uniforms in Hin.
  - apply list_elem_of_singleton in Hin. discriminate.
Qed.

(** C8 (as amended).  In a frame that runs, the only uniform set during
    the depth pass is the model matrix, and every draw of the depth pass
    sees the model matrix of its entry while all other uniforms of the
    depth shader (the material uniforms among them) are as they were when
    the frame began; every draw of the shading pass sees the model matrix
    and the albedo, metallic, ambient-occlusion and roughness uniforms of
    its entry.  The material uniforms are set once per mesh: a material
    uniform set in the shading pass is that of an entry with a mesh, and
    for an entry without meshes the model matrix is all that is set. *)
Theorem Render_material_uniforms (statics : RenderStatics)
    (rs : RenderSystem) (scene : SceneBase) (d l p pp : GLShaderProgram)
    (st0 : Pipeline) :
  statics_hold (frame_statics (Render statics rs scene)) d l p pp ->
  (forall q name v,
      SetUniform q name v ∈ depthPass rs scene d ->
      q = d /\ name = "modelMatrix" /\ ~ material_uniform name)
  /\ (exists depth_draws cull shading_draws rest,
       submissions st0 (frame_calls (Render statics rs scene))
       = depth_draws ++ cull :: shading_draws ++ rest
       /\ cull.1 = glDispatchCompute (m_workGroupsX rs) (m_workGroupsY rs) 1
       /\ Forall2 (depth_draw st0 d) (draw_list (m_renderList scene))
                  depth_draws
       /\ Forall2 (shading_draw p) (draw_list (m_renderList scene))
                  shading_draws)
  /\ (forall q name v,
       SetUniform q name v ∈ shadingPass rs scene p ->
       material_uniform name ->
       q = p
       /\ exists model,
           model ∈ m_renderList scene /\ GetMeshes model <> []
           /\ material_value model name v)
  /\ (forall model,
       GetMeshes model = [] ->
       renderModel p false model
       = [ SetUniform p "modelMatrix" (UMatrix4 (GetModelMatrix model)) ]).
Proof.
  intros Hh. destruct (Render_bound _ _ _ _ _ _ _ Hh) as (_ & _ & ->).
  split_and!.
  - intros q name v Hin. unfold depthPass in Hin.
    rewrite !elem_of_app in Hin.
    destruct Hin as [Hin|[Hin|Hin]].
    + rewrite !elem_of_cons in Hin.
      destruct Hin as [Hin|[Hin|[Hin|Hin]]]; try discriminate.
      by apply elem_of_nil in Hin.
    + apply renderModels_depth_uniforms in Hin as (-> & -> & _).
      split; [reflexivity|]. split; [reflexivity|].
      intros [H|[H|[H|H]]]; discriminate.
    + apply list_elem_of_singleton in Hin. discriminate.
  - destruct (frame_submissions rs scene d l p pp st0)
      as (dd & stc & sd & sky & stq & -> & Hdd & _ & _ & Hsd & _).
    exists dd, (glDispatchCompute (m_workGroupsX rs) (m_workGroupsY rs) 1, stc),
           sd.
    eexists. split; [reflexivity|]. split; [reflexivity|]. split.
    + eapply Forall2_impl; [exact Hdd|]. intros entry s [_ H]. exact H.
    + eapply Forall2_impl; [exact Hsd|]. intros entry s [_ H]. exact H.
  - intros q name v Hin Hm.
    exact (shadingPass_material_uniforms rs scene p q name v Hin Hm).
  - intros model Hnil. unfold renderModel. rewrite Hnil. reflexivity.
Qed.

Lemma sample_renderable :
  renderable unbound_statics (sample_state 800 600).1.
Proof.
  apply renderable_spec. vm_compute. split_and!; right; eauto.
Qed.

Lemma sample_statics_hold :
  statics_hold
    (frame_statics
       (Render unbound_statics (sample_state 800 600).1 sample_scene))
    (sample_shader "DepthPassShader") (sample_shader "LightCullShader")
    (sample_shader "PBRShader") (sample_shader "PostProcessShader").
Proof. vm_compute. repeat split. Qed.


(** The first frame on the sample state: nine submissions. *)
Example sample_frame :
  submitted
    <$> submissions pipeline_initial
          (frame_calls
             (Render unbound_statics (sample_state 800 600).1 sample_scene))
  = [ (glDrawElements 36, DepthFBO, Some (sample_shader "DepthPassShader"));
      (glDrawElements 6, DepthFBO, Some (sample_shader "DepthPassShader"));
      (glDrawElements 12, DepthFBO, Some (sample_shader "DepthPassShader"));
      (glDispatchCompute 100 75 1, DefaultFramebuffer,
       Some (sample_shader "LightCullShader"));
      (glDrawElements 36, HdrFBO, Some (sample_shader "PBRShader"));
      (glDrawElements 6, HdrFBO, Some (sample_shader "PBRShader"));
      (glDrawElements 12, HdrFBO, Some (sample_shader "PBRShader"));
      (Skybox_Draw, HdrFBO, Some (sample_shader "PBRShader"));
      (glDrawArrays 0 4, DefaultFramebuffer,
       Some (sample_shader "PostProcessShader")) ].
Proof. vm_compute. reflexivity. Qed.


Example Render_without_programs :
  let frame := Render unbound_statics RenderSystem_ctor sample_scene in
  frame_outcome frame = Threw "out_of_range"
  /\ frame_calls frame = [ glBindBuffer_UNIFORM 0 ]
  /\ submissions pipeline_initial (frame_calls frame) = []
  /\ frame_statics frame = unbound_statics.
Proof. vm_compute. repeat split. Qed.

Lemma Render_material_uniforms_witness :
  (forall q name v,
      SetUniform q name v
      ∈ depthPass (sample_state 800 600).1 sample_scene
                  (sample_shader "DepthPassShader") ->
      q = sample_shader "DepthPassShader" /\ name = "modelMatrix"
      /\ ~ material_uniform name)
  /\ (exists depth_draws cull shading_draws rest,
       submissions pipeline_initial
         (frame_calls
            (Render unbound_statics (sample_state 800 600).1 sample_scene))
       = depth_draws ++ cull :: shading_draws ++ rest
       /\ cull.1 = glDispatchCompute
                     (m_workGroupsX (sample_state 800 600).1)
                     (m_workGroupsY (sample_state 800 600).1) 1
       /\ Forall2 (depth_draw pipeline_initial
                              (sample_shader "DepthPassShader"))
                  (draw_list (m_renderList sample_scene)) depth_draws
       /\ Forall2 (shading_draw (sample_shader "PBRShader"))
                  (draw_list (m_renderList sample_scene)) shading_draws)
  /\ (forall q name v,
       SetUniform q name v
       ∈ shadingPass (sample_state 800 600).1 sample_scene
                     (sample_shader "PBRShader") ->
       material_uniform name ->
       q = sample_shader "PBRShader"
       /\ exists model,
           model ∈ m_renderList sample_scene /\ GetMeshes model <> []
           /\ material_value model name v)
  /\ (forall model,
       GetMeshes model = [] ->
       renderModel (sample_shader "PBRShader") false model
       = [ SetUniform (sample_shader "PBRShader") "modelMatrix"
                      (UMatrix4 (GetModelMatrix model)) ]).
Proof.
  exact (Render_material_uniforms unbound_statics (sample_state 800 600).1
           sample_scene
           (sample_shader "DepthPassShader") (sample_shader "LightCullShader")
           (sample_shader "PBRShader") (sample_shader "PostProcessShader")
           pipeline_initial sample_statics_hold).
Defined.

(** C8 as stated fails: the second entry of the sample scene has no mesh,
    and its material (albedo (0, 1, 0)) is never set in the shading
    pass. *)
Lemma meshless_entry_sets_no_material :
  ~ shading_sets_every_material (sample_state 800 600).1 sample_scene
      (sample_shader "PBRShader").
Proof.
  intros H.
  destruct (m_renderList sample_scene !! 1%nat) as [model|] eqn:E;
    [|discriminate].
  pose proof (H model (list_elem_of_lookup_2 _ _ _ E)) as [Ha _].
  injection E as <-.
  apply shadingPass_material_uniforms in Ha
    as (_ & model & Hin & Hne & Hv); [|by left].
  destruct Hv as [[_ Hv]|[[[=] _]|[[[=] _]|[[=] _]]]].
  cbn in Hin. rewrite !elem_of_cons in Hin.
  destruct Hin as [->|[->|[->|Hin]]].
  - discriminate.
  - by apply Hne.
  - discriminate.
  - by apply elem_of_nil in Hin.
Qed.

(** * Further properties *)

(** ** Facts about the sample data *)

Lemma Init_state_of (fp : FP.Rounding) (K : Consts) (drv : Driver)
    (cfg : RendererNode) (rs : RenderSystem) (gl : GLState) :
  gladLoadGLLoader drv = true -> gen_lightBuffer drv <> 0 ->
  Init fp K drv cfg rs gl = Returned (state_of (Init fp K drv cfg rs gl)).
Proof.
  intros Hload Hbuf. unfold Init. rewrite Hload. cbn [negb].
  destruct (compile_programs _ _) as [cache gl1].
  unfold setupLightBuffers, setupLightStorageBuffer. cbn [m_lightBuffer].
  destruct (Z.eqb_spec (gen_lightBuffer drv) 0) as [|_]; [contradiction|].
  reflexivity.
Qed.

Lemma Init_sample_state (width height : Z) :
  Init FP.ieee sample_consts (sample_driver (1 # 2))
       (sample_config width height) RenderSystem_ctor gl_initial
  = Returned (sample_state width height).
Proof. apply Init_state_of; [reflexivity | discriminate]. Qed.

Lemma sample_snapshot_elem (k : nat) :
  (k < 9)%nat -> sample_snapshot k ∈ sample_snapshots.
Proof.
  intros Hk. unfold sample_snapshot.
  destruct (sample_snapshots !! k) as [s|] eqn:E.
  - eapply list_elem_of_lookup_2, E.
  - apply lookup_ge_None in E.
    assert (L : length sample_snapshots = 9%nat) by (vm_compute; reflexivity).
    lia.
Qed.

Lemma sample_programs_required :
  Forall (fun name => is_Some (m_shaderCache RenderSystem_ctor !! name)
                      \/ name ∈ program_name <$> child_Program
                                                   (sample_config 800 600))
         required_programs.
Proof.
  unfold required_programs.
  repeat (constructor; [right; apply list_elem_of_In; cbn; tauto|]).
  constructor.
Qed.

(** ** What [Init] establishes and what the later calls keep *)

Lemma Init_returned (fp : FP.Rounding) (K : Consts) (drv : Driver)
    (cfg : RendererNode) (rs : RenderSystem) (gl : GLState)
    (st : RenderSystem * GLState) :
  Init fp K drv cfg rs gl = Returned st ->
  gladLoadGLLoader drv = true /\ gen_lightBuffer drv <> 0
  /\ m_projMatrix st.1 = m_projMatrix rs
  /\ gl_uboProjection st.2 = None /\ gl_uboView st.2 = None
  /\ gl_viewport st.2
     = (0, 0, to_GLsizei (attr_width cfg), to_GLsizei (attr_height cfg))
  /\ length (gl_lights st.2) = MAX_NUM_LIGHTS K
  /\ gl_visibleLightIndices st.2
     = to_GLsizeiptr
         (SizeT.mul
            (SizeT.mul (UInt.mul (m_workGroupsX st.1) (m_workGroupsY st.1))
                       (sizeof_VisibleLightIndex K))
            (Z.of_nat (MAX_NUM_LIGHTS K)))
  /\ m_shaderCache st.1
     = (compile_programs (child_Program cfg) (m_shaderCache rs, gl)).1.
Proof.
  unfold Init. destruct (gladLoadGLLoader drv); cbn [negb]; [|discriminate].
  destruct (compile_programs _ _) as [cache gl1].
  unfold setupLightBuffers, setupLightStorageBuffer. cbn [m_lightBuffer].
  destruct (Z.eqb_spec (gen_lightBuffer drv) 0) as [|Hne]; [discriminate|].
  cbn [bind]. intros [= <-]. cbn.
  repeat split; try assumption.
  rewrite fill_lights_length. apply length_replicate.
Qed.

(** A value in the range of the signed type is what the conversion to it
    gives. *)
Lemma to_GLsizei_id (x : Z) : 0 <= x < 2 ^ 31 -> to_GLsizei x = x.
Proof.
  intros H. unfold to_GLsizei. rewrite Z.mod_small by lia. lia.
Qed.

Lemma to_GLsizeiptr_id (x : Z) : 0 <= x < 2 ^ 63 -> to_GLsizeiptr x = x.
Proof.
  intros H. unfold to_GLsizeiptr. rewrite Z.mod_small by lia. lia.
Qed.

(** The size of the index buffer when no product wraps around. *)
Lemma index_buffer_size (K : Consts) (x y : Z) :
  0 <= x * y < 2 ^ 32 -> 0 <= sizeof_VisibleLightIndex K ->
  x * y * sizeof_VisibleLightIndex K * Z.of_nat (MAX_NUM_LIGHTS K) < 2 ^ 63 ->
  to_GLsizeiptr
    (SizeT.mul (SizeT.mul (UInt.mul x y) (sizeof_VisibleLightIndex K))
               (Z.of_nat (MAX_NUM_LIGHTS K)))
  = x * y * sizeof_VisibleLightIndex K * Z.of_nat (MAX_NUM_LIGHTS K).
Proof.
  intros Ht Hs Hb.
  set (t := x * y) in *. set (s := sizeof_VisibleLightIndex K) in *.
  set (n := Z.of_nat (MAX_NUM_LIGHTS K)) in *.
  assert (Hn : 0 <= n) by (unfold n; lia).
  unfold UInt.mul, UInt.wrap, UInt.modulus. fold t.
  rewrite (Z.mod_small t) by lia.
  assert (Hts : 0 <= t * s) by nia.
  destruct (Z.eq_dec n 0) as [En|Hn0].
  - rewrite En. unfold SizeT.mul, SizeT.wrap, SizeT.modulus.
    rewrite !Z.mul_0_r. reflexivity.
  - assert (Hts' : t * s < 2 ^ 63) by nia.
    unfold SizeT.mul, SizeT.wrap, SizeT.modulus.
    rewrite (Z.mod_small (t * s)) by lia.
    assert (Htsn : 0 <= t * s * n) by nia.
    rewrite (Z.mod_small (t * s * n)) by lia.
    apply to_GLsizeiptr_id. lia.
Qed.

Lemma Update_keeps (fp : FP.Rounding) (K : Consts) (input : Input)
    (camera : Camera) (delta : Q) (st : RenderSystem * GLState) :
  let st' := Update fp K input camera delta st in
  m_workGroupsX st'.1 = m_workGroupsX st.1
  /\ m_workGroupsY st'.1 = m_workGroupsY st.1
  /\ m_shaderCache st'.1 = m_shaderCache st.1
  /\ gl_visibleLightIndices st'.2 = gl_visibleLightIndices st.2
  /\ gl_programs st'.2 = gl_programs st.2
  /\ length (gl_lights st'.2) = length (gl_lights st.2).
Proof.
  cbv zeta. unfold Update. destruct st as [rs gl].
  destruct (ShouldResize input); cbn;
    repeat split; apply UpdateLights_loop_length.
Qed.

Lemma Shutdown_keeps (st : RenderSystem * GLState) :
  gl_viewport (Shutdown st).2 = gl_viewport st.2
  /\ gl_uboProjection (Shutdown st).2 = gl_uboProjection st.2
  /\ gl_uboView (Shutdown st).2 = gl_uboView st.2
  /\ gl_lights (Shutdown st).2 = gl_lights st.2
  /\ gl_visibleLightIndices (Shutdown st).2 = gl_visibleLightIndices st.2
  /\ gl_nextProgram (Shutdown st).2 = gl_nextProgram st.2.
Proof.
  unfold Shutdown. cbn [snd].
  apply (map_fold_weak_ind
           (fun g (_ : gmap string GLShaderProgram) =>
              gl_viewport g = gl_viewport st.2
              /\ gl_uboProjection g = gl_uboProjection st.2
              /\ gl_uboView g = gl_uboView st.2
              /\ gl_lights g = gl_lights st.2
              /\ gl_visibleLightIndices g = gl_visibleLightIndices st.2
              /\ gl_nextProgram g = gl_nextProgram st.2)).
  - repeat split.
  - intros i p m g _ IH. exact IH.
Qed.

(** What no call after [Init] changes: the tile grid, the shader cache,
    the capacity of the index buffer and the number of lights. *)
Lemma call_keeps (fp : FP.Rounding) (K : Consts)
    (st : RenderSystem * GLState) (c : Call) :
  let st' := call fp K st c in
  m_workGroupsX st'.1 = m_workGroupsX st.1
  /\ m_workGroupsY st'.1 = m_workGroupsY st.1
  /\ m_shaderCache st'.1 = m_shaderCache st.1
  /\ gl_visibleLightIndices st'.2 = gl_visibleLightIndices st.2
  /\ length (gl_lights st'.2) = length (gl_lights st.2).
Proof.
  cbv zeta. destruct c as [camera|input camera delta|]; cbn [call].
  - destruct st as [rs gl]. cbn. repeat split.
  - pose proof (Update_keeps fp K input camera delta st) as H.
    cbv zeta in H. tauto.
  - pose proof (Shutdown_keeps st) as H. cbn [Shutdown fst] in *.
    destruct H as (_ & _ & _ & Hl & Hi & _).
    repeat split; [exact Hi | by rewrite Hl].
Qed.

Lemma calls_keep (fp : FP.Rounding) (K : Consts) (cs : list Call)
    (st : RenderSystem * GLState) :
  let st' := calls fp K st cs in
  m_workGroupsX st'.1 = m_workGroupsX st.1
  /\ m_workGroupsY st'.1 = m_workGroupsY st.1
  /\ m_shaderCache st'.1 = m_shaderCache st.1
  /\ gl_visibleLightIndices st'.2 = gl_visibleLightIndices st.2
  /\ length (gl_lights st'.2) = length (gl_lights st.2).
Proof.
  cbv zeta. revert st. induction cs as [|c cs IH]; intros st.
  - repeat split.
  - cbn [calls foldl]. fold (calls fp K (call fp K st c) cs).
    destruct (IH (call fp K st c)) as (H1 & H2 & H3 & H4 & H5).
    destruct (call_keeps fp K st c) as (G1 & G2 & G3 & G4 & G5).
    repeat split; congruence.
Qed.

(** X3.  In every state reached from a successful [Init] by [InitView],
    [Update] and [Shutdown] calls, the light buffer holds exactly
    [MAX_NUM_LIGHTS] lights: the loop of [UpdateLights] never runs past
    the end of the mapped buffer. *)
Theorem light_buffer_always_full (fp : FP.Rounding) (K : Consts)
    (drv : Driver) (cfg : RendererNode) (rs : RenderSystem) (gl : GLState)
    (st0 : RenderSystem * GLState) (cs : list Call) :
  Init fp K drv cfg rs gl = Returned st0 ->
  length (gl_lights (calls fp K st0 cs).2) = MAX_NUM_LIGHTS K.
Proof.
  intros HI. destruct (Init_returned _ _ _ _ _ _ _ HI)
    as (_ & _ & _ & _ & _ & _ & Hlen & _).
  destruct (calls_keep fp K cs st0) as (_ & _ & _ & _ & H). congruence.
Qed.

Lemma light_buffer_always_full_witness :
  length (gl_lights (calls FP.ieee sample_consts (sample_state 800 600)
                           sample_calls).2)
  = MAX_NUM_LIGHTS sample_consts.
Proof.
  exact (light_buffer_always_full FP.ieee sample_consts
           (sample_driver (1 # 2)) (sample_config 800 600)
           RenderSystem_ctor gl_initial (sample_state 800 600) sample_calls
           (Init_sample_state 800 600)).
Defined.

(** X2.  In every such state the tile grid is the one [Init] computed
    from the configured size, whatever resizes were seen since, and, when
    the number of tiles fits an [unsigned int] and the size in bytes of
    the index buffer fits a [GLsizeiptr], that buffer was allocated with
    room for exactly [MAX_NUM_LIGHTS] indices per tile of that grid: the
    culling dispatch and the index buffer stay matched. *)
Theorem grid_and_index_buffer_fixed_by_Init (fp : FP.Rounding) (K : Consts)
    (drv : Driver) (cfg : RendererNode) (rs : RenderSystem) (gl : GLState)
    (st0 : RenderSystem * GLState) (cs : list Call) :
  Init fp K drv cfg rs gl = Returned st0 ->
  let st := calls fp K st0 cs in
  let tiles := m_workGroupsX st.1 * m_workGroupsY st.1 in
  let bytes :=
    tiles * sizeof_VisibleLightIndex K * Z.of_nat (MAX_NUM_LIGHTS K) in
  0 <= tiles < 2 ^ 32 -> 0 <= sizeof_VisibleLightIndex K ->
  bytes < 2 ^ 63 ->
  m_workGroupsX st.1
  = UInt.div (UInt.add (attr_width cfg) (UInt.rem (attr_width cfg) 8)) 8
  /\ m_workGroupsY st.1
     = UInt.div (UInt.add (attr_height cfg) (UInt.rem (attr_height cfg) 8)) 8
  /\ gl_visibleLightIndices st.2 = bytes.
Proof.
  intros HI. cbv zeta.
  destruct (Init_returned _ _ _ _ _ _ _ HI)
    as (_ & _ & _ & _ & _ & _ & _ & Hidx & _).
  destruct (Init_workGroups _ _ _ _ _ _ _ HI) as (_ & _ & Hx & Hy).
  destruct (calls_keep fp K cs st0) as (Gx & Gy & _ & Gi & _).
  rewrite Gx, Gy, Gi. intros Ht Hs Hb.
  split; [exact Hx|]. split; [exact Hy|].
  rewrite Hidx. apply index_buffer_size; assumption.
Qed.

Lemma grid_and_index_buffer_fixed_by_Init_witness :
  m_workGroupsX (calls FP.ieee sample_consts (sample_state 800 600)
                       sample_calls).1
  = UInt.div (UInt.add 800 (UInt.rem 800 8)) 8
  /\ m_workGroupsY (calls FP.ieee sample_consts (sample_state 800 600)
                          sample_calls).1
     = UInt.div (UInt.add 600 (UInt.rem 600 8)) 8
  /\ gl_visibleLightIndices
       (calls FP.ieee sample_consts (sample_state 800 600) sample_calls).2
     = m_workGroupsX (calls FP.ieee sample_consts (sample_state 800 600)
                            sample_calls).1
       * m_workGroupsY (calls FP.ieee sample_consts (sample_state 800 600)
                              sample_calls).1
       * sizeof_VisibleLightIndex sample_consts
       * Z.of_nat (MAX_NUM_LIGHTS sample_consts).
Proof.
  apply (grid_and_index_buffer_fixed_by_Init FP.ieee sample_consts
           (sample_driver (1 # 2)) (sample_config 800 600)
           RenderSystem_ctor gl_initial (sample_state 800 600) sample_calls
           (Init_sample_state 800 600)).
  - vm_compute. split; [discriminate | reflexivity].
  - discriminate.
  - vm_compute. reflexivity.
Defined.

(** At 2^20 x 2^20 tiles the product of the two [unsigned int] wraps to
    0: the index buffer is allocated with 0 bytes. *)
Example index_buffer_wraps :
  forall K : Consts,
    to_GLsizeiptr
      (SizeT.mul (SizeT.mul (UInt.mul (2 ^ 20) (2 ^ 20))
                            (sizeof_VisibleLightIndex K))
                 (Z.of_nat (MAX_NUM_LIGHTS K))) = 0.
Proof. intros K. reflexivity. Qed.

Lemma call_sized (fp : FP.Rounding) (K : Consts) (w h : Z)
    (st : RenderSystem * GLState) (c : Call) :
  sized w h st ->
  sized w h (call fp K st c)
  /\ (m_width (call fp K st c).1, m_height (call fp K st c).1)
     = last_size (m_width st.1, m_height st.1) [c].
Proof.
  intros (Hv & (d & Hd & Hdw & Hdh) & (f & Hf & Hfw & Hfh)).
  destruct st as [rs gl]. cbn [fst snd] in *.
  destruct c as [camera|input camera delta|]; cbn [call last_size foldl].
  - split; [|reflexivity]. unfold InitView, sized. cbn.
    split; [exact Hv|]. split; eauto.
  - unfold Update, sized. destruct (ShouldResize input); cbn.
    + rewrite Hd, Hf. cbn. split; [|reflexivity].
      split; [reflexivity|]. split; eauto.
    + split; [|reflexivity]. split; [exact Hv|]. split; eauto.
  - split; [|reflexivity]. unfold sized. cbn [Shutdown fst snd].
    destruct (Shutdown_keeps (rs, gl)) as (Gv & _). cbn [Shutdown fst snd] in Gv.
    rewrite Gv. split; [exact Hv|]. split; eauto.
Qed.

(** X4.  For a configured size and resizes within the range of
    [GLsizei] (the type in which [glViewport] takes them): in every state
    reached from a successful [Init] the viewport and the depth
    framebuffer have the size of the last resize seen by an [Update] (the
    configured size if there was none), and that size is what the members
    [m_width] and [m_height] hold; the HDR framebuffer still has the
    configured size, whatever resizes were seen. *)
Theorem sizes_after_calls (fp : FP.Rounding) (K : Consts)
    (drv : Driver) (cfg : RendererNode) (rs : RenderSystem) (gl : GLState)
    (st0 : RenderSystem * GLState) (cs : list Call) :
  GLsizei_range (attr_width cfg) -> GLsizei_range (attr_height cfg) ->
  resizes_in_range cs ->
  Init fp K drv cfg rs gl = Returned st0 ->
  let st := calls fp K st0 cs in
  sized (attr_width cfg) (attr_height cfg) st
  /\ (m_width st.1, m_height st.1)
     = last_size (attr_width cfg, attr_height cfg) cs.
Proof.
  intros Hw Hh _ HI. cbv zeta.
  assert (H0 : sized (attr_width cfg) (attr_height cfg) st0
               /\ (m_width st0.1, m_height st0.1)
                  = (attr_width cfg, attr_height cfg)).
  { revert HI. unfold Init.
    destruct (gladLoadGLLoader drv); cbn [negb]; [|discriminate].
    destruct (compile_programs _ _) as [cache gl1].
    unfold setupLightBuffers, setupLightStorageBuffer. cbn [m_lightBuffer].
    destruct (Z.eqb_spec (gen_lightBuffer drv) 0) as [|Hne]; [discriminate|].
    cbn [bind]. intros [= <-]. unfold sized. cbn.
    rewrite (to_GLsizei_id _ Hw), (to_GLsizei_id _ Hh).
    split; [|reflexivity]. split; [reflexivity|]. split; eauto. }
  destruct H0 as [Hs Hsz]. rewrite <- Hsz. clear Hsz HI.
  revert st0 Hs. induction cs as [|c cs IH]; intros st0 Hs.
  - split; [exact Hs | reflexivity].
  - cbn [calls foldl]. fold (calls fp K (call fp K st0 c) cs).
    destruct (call_sized fp K _ _ st0 c Hs) as [Hs' Hsz'].
    destruct (IH _ Hs') as [G1 G2]. split; [exact G1|].
    rewrite G2, Hsz'. reflexivity.
Qed.

Lemma sample_calls_in_range : resizes_in_range sample_calls.
Proof.
  unfold resizes_in_range, sample_calls, GLsizei_range.
  repeat (constructor; [cbn; try exact I; intros _; lia|]).
  constructor.
Qed.

Lemma sizes_after_calls_witness :
  sized 800 600
        (calls FP.ieee sample_consts (sample_state 800 600) sample_calls)
  /\ (m_width (calls FP.ieee sample_consts (sample_state 800 600)
                     sample_calls).1,
      m_height (calls FP.ieee sample_consts (sample_state 800 600)
                      sample_calls).1)
     = last_size (800, 600) sample_calls.
Proof.
  apply (sizes_after_calls FP.ieee sample_consts
           (sample_driver (1 # 2)) (sample_config 800 600)
           RenderSystem_ctor gl_initial (sample_state 800 600) sample_calls).
  - unfold GLsizei_range. cbn. lia.
  - unfold GLsizei_range. cbn. lia.
  - exact sample_calls_in_range.
  - exact (Init_sample_state 800 600).
Defined.

(** A configured width of 2^31 reaches [glViewport] as -2^31. *)
Example viewport_of_large_width :
  gl_viewport (sample_state (2 ^ 31) 600).2 = (0, 0, - 2 ^ 31, 600).
Proof. vm_compute. reflexivity. Qed.

(** ** The projection matrix *)

Lemma call_projection_unwritten (fp : FP.Rounding) (K : Consts)
    (st : RenderSystem * GLState) (c : Call) :
  writes_projection c = false ->
  m_projMatrix (call fp K st c).1 = m_projMatrix st.1
  /\ gl_uboProjection (call fp K st c).2 = gl_uboProjection st.2.
Proof.
  destruct c as [camera|input camera delta|]; cbn [writes_projection call].
  - discriminate.
  - intros Hr. unfold Update. rewrite Hr. destruct st. split; reflexivity.
  - intros _. split; [reflexivity|]. apply Shutdown_keeps.
Qed.

(** X5.  [Init] does not compute the projection matrix: after it the
    member is what it was and the projection half of the uniform buffer is
    still unwritten, and both stay so through any calls other than
    [InitView] and an [Update] that sees a resize. *)
Theorem projection_unset_until_written (fp : FP.Rounding) (K : Consts)
    (drv : Driver) (cfg : RendererNode) (rs : RenderSystem) (gl : GLState)
    (st0 : RenderSystem * GLState) (cs : list Call) :
  Init fp K drv cfg rs gl = Returned st0 ->
  Forall (fun c => writes_projection c = false) cs ->
  m_projMatrix (calls fp K st0 cs).1 = m_projMatrix rs
  /\ gl_uboProjection (calls fp K st0 cs).2 = None.
Proof.
  intros HI Hcs.
  destruct (Init_returned _ _ _ _ _ _ _ HI) as (_ & _ & Hp & Hu & _).
  rewrite <- Hp, <- Hu. clear HI Hp Hu. revert st0.
  induction Hcs as [|c cs Hc _ IH]; intros st0; [split; reflexivity|].
  cbn [calls foldl]. fold (calls fp K (call fp K st0 c) cs).
  destruct (IH (call fp K st0 c)) as [-> ->].
  exact (call_projection_unwritten fp K st0 c Hc).
Qed.

Lemma projection_unset_until_written_witness :
  m_projMatrix
    (calls FP.ieee sample_consts (sample_state 800 600)
           [ CallUpdate not_resized sample_camera (1 # 64); CallShutdown ]).1
  = m_projMatrix RenderSystem_ctor
  /\ gl_uboProjection
       (calls FP.ieee sample_consts (sample_state 800 600)
              [ CallUpdate not_resized sample_camera (1 # 64);
                CallShutdown ]).2
     = None.
Proof.
  apply (projection_unset_until_written FP.ieee sample_consts
           (sample_driver (1 # 2)) (sample_config 800 600)
           RenderSystem_ctor gl_initial).
  - exact (Init_sample_state 800 600).
  - repeat constructor.
Defined.

Lemma call_projection_uploaded (fp : FP.Rounding) (K : Consts)
    (st : RenderSystem * GLState) (c : Call) :
  (if writes_projection c then True else projection_uploaded st) ->
  projection_uploaded (call fp K st c).
Proof.
  unfold projection_uploaded.
  destruct c as [camera|input camera delta|]; cbn [writes_projection call].
  - intros _. destruct st. reflexivity.
  - unfold Update. destruct (ShouldResize input); destruct st as [rs gl].
    + intros _. reflexivity.
    + intros H. exact H.
  - intros H. cbn [Shutdown fst].
    destruct (Shutdown_keeps st) as (_ & -> & _). exact H.
Qed.

(** X6.  Once the projection has been written ([InitView], or an [Update]
    that sees a resize), the projection half of the uniform buffer and the
    member [m_projMatrix], which the culling pass passes as a uniform,
    hold the same matrix, and every later call keeps them equal. *)
Theorem projection_stays_uploaded (fp : FP.Rounding) (K : Consts)
    (st : RenderSystem * GLState) (c : Call) (cs : list Call) :
  writes_projection c = true ->
  projection_uploaded (calls fp K st (c :: cs)).
Proof.
  intros Hc. cbn [calls foldl]. fold (calls fp K (call fp K st c) cs).
  assert (H : projection_uploaded (call fp K st c))
    by (apply call_projection_uploaded; rewrite Hc; exact I).
  revert H. generalize (call fp K st c). clear st c Hc.
  induction cs as [|c cs IH]; intros st H; [exact H|].
  cbn [calls foldl]. fold (calls fp K (call fp K st c) cs).
  apply IH, call_projection_uploaded.
  destruct (writes_projection c); [exact I | exact H].
Qed.

Lemma projection_stays_uploaded_witness :
  projection_uploaded
    (calls FP.ieee sample_consts (sample_state 800 600)
           (CallInitView sample_camera :: sample_calls)).
Proof.
  apply (projection_stays_uploaded FP.ieee sample_consts
           (sample_state 800 600) (CallInitView sample_camera) sample_calls).
  reflexivity.
Defined.

(** ** Registration and lookup *)

Lemma first_named_Some (name : string) (programs : list ProgramNode) :
  is_Some (first_named name programs)
  <-> name ∈ program_name <$> programs.
Proof.
  unfold first_named. induction programs as [|p ps IH]; cbn [find fmap list_fmap].
  - split; [intros [? ?]; discriminate | intros H; by apply elem_of_nil in H].
  - rewrite elem_of_cons. destruct (decide (program_name p = name)) as [E|N].
    + rewrite bool_decide_eq_true_2 by exact E. split; [auto | eauto].
    + rewrite bool_decide_eq_false_2 by exact N. rewrite IH.
      split; [auto | intros [E|H]; [congruence | exact H]].
Qed.

Lemma compile_programs_is_Some (programs : list ProgramNode)
    (st : gmap string GLShaderProgram * GLState) (name : string) :
  is_Some ((compile_programs programs st).1 !! name)
  <-> is_Some (st.1 !! name) \/ name ∈ program_name <$> programs.
Proof.
  rewrite <- first_named_Some.
  pose proof (compile_programs_shaders programs st name) as H.
  destruct ((compile_programs programs st).1 !! name) as [q|],
           (st.1 !! name) as [p|], (first_named name programs) as [n|];
    cbn in H; try discriminate; split; intros G;
    try (destruct G as [[? G]|[? G]]; discriminate); eauto.
Qed.

(** X7.  After [Init], the names in the shader cache are exactly the names
    cached before and the names of the [Program] nodes of the
    configuration. *)
Theorem Init_cache_names (fp : FP.Rounding) (K : Consts) (drv : Driver)
    (cfg : RendererNode) (rs : RenderSystem) (gl : GLState)
    (st : RenderSystem * GLState) :
  Init fp K drv cfg rs gl = Returned st ->
  dom (m_shaderCache st.1)
  = dom (m_shaderCache rs)
    ∪ list_to_set (program_name <$> child_Program cfg).
Proof.
  intros HI. destruct (Init_returned _ _ _ _ _ _ _ HI)
    as (_ & _ & _ & _ & _ & _ & _ & _ & ->).
  apply set_eq. intros name.
  rewrite elem_of_union, !elem_of_dom, elem_of_list_to_set.
  apply compile_programs_is_Some.
Qed.

Lemma Init_cache_names_witness :
  dom (m_shaderCache (sample_state 800 600).1)
  = dom (m_shaderCache RenderSystem_ctor)
    ∪ list_to_set (program_name <$> child_Program (sample_config 800 600)).
Proof.
  exact (Init_cache_names FP.ieee sample_consts
           (sample_driver (1 # 2)) (sample_config 800 600)
           RenderSystem_ctor gl_initial (sample_state 800 600)
           (Init_sample_state 800 600)).
Defined.

Lemma cached_renderable (statics : RenderStatics) (rs : RenderSystem) :
  Forall (fun name => is_Some (m_shaderCache rs !! name)) required_programs ->
  renderable statics rs.
Proof.
  intros H name Hin. right. rewrite Forall_forall in H. apply H, Hin.
Qed.

(** X8.  If the configuration given to [Init] has a [Program] node for
    each of the four names [Render] looks up (or the cache already held
    it), then [Render] returns in the state [Init] leaves and in every
    state reached from it by [InitView], [Update] and [Shutdown],
    whatever static references earlier frames have bound. *)
Theorem Render_returns_after_Init (fp : FP.Rounding) (K : Consts)
    (drv : Driver) (cfg : RendererNode) (rs : RenderSystem) (gl : GLState)
    (st0 : RenderSystem * GLState) (cs : list Call) (scene : SceneBase)
    (statics : RenderStatics) :
  Init fp K drv cfg rs gl = Returned st0 ->
  Forall (fun name => is_Some (m_shaderCache rs !! name)
                      \/ name ∈ program_name <$> child_Program cfg)
         required_programs ->
  frame_outcome (Render statics (calls fp K st0 cs).1 scene) = Returned tt.
Proof.
  intros HI Hreq.
  destruct (Init_returned _ _ _ _ _ _ _ HI)
    as (_ & _ & _ & _ & _ & _ & _ & _ & Hc).
  destruct (calls_keep fp K cs st0) as (_ & _ & Hk & _).
  assert (Hr : renderable statics (calls fp K st0 cs).1).
  { apply cached_renderable. rewrite Hk, Hc.
    eapply Forall_impl; [exact Hreq|].
    intros name H. apply compile_programs_is_Some. exact H. }
  destruct (Render_cases statics (calls fp K st0 cs).1 scene)
    as [(_ & d & l & p & pp & ->)|(Hn & _)]; [reflexivity | contradiction].
Qed.

Lemma Render_returns_after_Init_witness :
  frame_outcome
    (Render unbound_statics
            (calls FP.ieee sample_consts (sample_state 800 600)
                   sample_calls).1 sample_scene)
  = Returned tt.
Proof.
  exact (Render_returns_after_Init FP.ieee sample_consts
           (sample_driver (1 # 2)) (sample_config 800 600)
           RenderSystem_ctor gl_initial (sample_state 800 600) sample_calls
           sample_scene unbound_statics
           (Init_sample_state 800 600) sample_programs_required).
Defined.

(** X9.  If one of the four names is missing from the cache and the
    static reference initialised from it is not bound yet, [Render]
    throws [std::out_of_range] after the single call that binds the
    uniform buffer: nothing is bound, cleared, drawn or dispatched.  That
    reference is still unbound afterwards (the next call tries again),
    and a reference that was bound before keeps its program. *)
Theorem Render_missing_program (statics : RenderStatics) (rs : RenderSystem)
    (scene : SceneBase) (name : string) :
  name ∈ required_programs ->
  static_of name statics = None ->
  m_shaderCache rs !! name = None ->
  let frame := Render statics rs scene in
  frame_calls frame = [ glBindBuffer_UNIFORM (m_uboMatrices rs) ]
  /\ frame_outcome frame = Threw "out_of_range"
  /\ static_of name (frame_statics frame) = None
  /\ forall other shader,
       static_of other statics = Some shader ->
       static_of other (frame_statics frame) = Some shader.
Proof.
  unfold required_programs. rewrite !elem_of_cons.
  intros Hin Hs Hnone. cbv zeta.
  destruct (static_of_names statics) as (E1 & E2 & E3 & E4).
  destruct statics as [sd sl sp spp].
  unfold Render, Render_shaders, static_init, cache_at.
  destruct Hin as [->|[->|[->|[->|Hin]]]];
    [| | | |by apply elem_of_nil in Hin];
    rewrite ?E1, ?E2, ?E3, ?E4 in Hs; cbn in Hs; subst; cbn;
    rewrite ?Hnone; cbn;
    repeat match goal with
           | |- context [match ?x with _ => _ end] =>
               first [is_var x | match x with _ !! _ => idtac end];
               destruct x; cbn
           end;
    (split_and!; try reflexivity;
     intros other shader; unfold static_of; cbn;
     repeat case_bool_decide; try discriminate; auto).
Qed.

Lemma Render_missing_program_witness :
  let frame := Render unbound_statics RenderSystem_ctor sample_scene in
  frame_calls frame
  = [ glBindBuffer_UNIFORM (m_uboMatrices RenderSystem_ctor) ]
  /\ frame_outcome frame = Threw "out_of_range"
  /\ static_of "PBRShader" (frame_statics frame) = None
  /\ forall other shader,
       static_of other unbound_statics = Some shader ->
       static_of other (frame_statics frame) = Some shader.
Proof.
  apply (Render_missing_program unbound_statics RenderSystem_ctor
           sample_scene "PBRShader").
  - apply list_elem_of_In. cbn. tauto.
  - reflexivity.
  - reflexivity.
Defined.

(** Once the four references are bound, the cache is read no more: a
    frame of a render system whose cache is empty, entered with the
    references a frame of the sample system has bound, returns and draws
    with the programs of the sample system. *)
Example Render_with_bound_statics :
  let first := Render unbound_statics (sample_state 800 600).1 sample_scene in
  let second := Render (frame_statics first) RenderSystem_ctor sample_scene in
  m_shaderCache RenderSystem_ctor = ∅
  /\ frame_outcome second = Returned tt
  /\ frame_statics second = frame_statics first
  /\ cur_prog <$> (snd <$> submissions pipeline_initial (frame_calls second))
     = [ Some (sample_shader "DepthPassShader");
         Some (sample_shader "DepthPassShader");
         Some (sample_shader "DepthPassShader");
         Some (sample_shader "LightCullShader");
         Some (sample_shader "PBRShader");
         Some (sample_shader "PBRShader");
         Some (sample_shader "PBRShader");
         Some (sample_shader "PBRShader");
         Some (sample_shader "PostProcessShader") ].
Proof. vm_compute. repeat split. Qed.

(** ** Shutdown *)

Lemma GLState_eq (a b : GLState) :
  gl_viewport a = gl_viewport b ->
  gl_uboProjection a = gl_uboProjection b ->
  gl_uboView a = gl_uboView b ->
  gl_lights a = gl_lights b ->
  gl_visibleLightIndices a = gl_visibleLightIndices b ->
  gl_programs a = gl_programs b ->
  gl_nextProgram a = gl_nextProgram b ->
  a = b.
Proof. destruct a, b. cbn. intros. congruence. Qed.

(** X10.  [Shutdown] deletes programs and nothing else: the viewport, the
    uniform buffer, the lights and the index buffer are as before, no
    program object appears, a program that is not in the cache stays
    alive, and a second [Shutdown] changes nothing. *)
Theorem Shutdown_deletes_only_cached (st : RenderSystem * GLState) :
  Shutdown (Shutdown st) = Shutdown st
  /\ gl_programs (Shutdown st).2 ⊆ gl_programs st.2
  /\ (forall h, h ∈ gl_programs st.2 ->
                h ∉ (map_img (m_programID <$> m_shaderCache st.1) : gset N) ->
                h ∈ gl_programs (Shutdown st).2)
  /\ gl_viewport (Shutdown st).2 = gl_viewport st.2
  /\ gl_uboProjection (Shutdown st).2 = gl_uboProjection st.2
  /\ gl_uboView (Shutdown st).2 = gl_uboView st.2
  /\ gl_lights (Shutdown st).2 = gl_lights st.2
  /\ gl_visibleLightIndices (Shutdown st).2 = gl_visibleLightIndices st.2.
Proof.
  pose proof (Shutdown_keeps st) as (K1 & K2 & K3 & K4 & K5 & K6).
  split; [|split; [|split; [|repeat split; assumption]]].
  - destruct st as [rs gl]. cbn [fst snd] in *.
    set (gl1 := (Shutdown (rs, gl)).2) in *.
    change (Shutdown (rs, gl)) with (rs, gl1).
    change (Shutdown (rs, gl1)) with (rs, (Shutdown (rs, gl1)).2).
    f_equal.
    pose proof (Shutdown_keeps (rs, gl1)) as (L1 & L2 & L3 & L4 & L5 & L6).
    cbn [snd] in *.
    apply GLState_eq; try assumption.
    apply set_eq. intros h.
    rewrite (Shutdown_programs (rs, gl1) h). cbn [fst snd].
    split; [tauto|]. intros Hh. split; [exact Hh|].
    unfold gl1 in Hh. apply Shutdown_programs in Hh as [_ Hh]. exact Hh.
  - intros h Hh. apply Shutdown_programs in Hh. tauto.
  - intros h Hh Hn. apply Shutdown_programs. split; [exact Hh|].
    intros k p Hk Heq. apply Hn. apply elem_of_map_img. exists k.
    rewrite lookup_fmap, Hk. cbn. congruence.
Qed.

(** ** The tile grid and the viewport *)

(** X1.  For a configured dimension [w] (below [2^32 - 7]) the tile count
    [Init] stores misses the dimension by at most 3 pixels and exceeds it
    by at most 4: [w - 3 <= 8 * tiles <= w + 4]; the tiles cover the
    dimension exactly when [w mod 8] is 0 or at least 4. *)
Theorem Init_tile_coverage (fp : FP.Rounding) (K : Consts) (drv : Driver)
    (cfg : RendererNode) (rs : RenderSystem) (gl : GLState)
    (st : RenderSystem * GLState) :
  Init fp K drv cfg rs gl = Returned st ->
  0 <= attr_width cfg -> attr_width cfg + 7 < UInt.modulus ->
  0 <= attr_height cfg -> attr_height cfg + 7 < UInt.modulus ->
  (attr_width cfg - 3 <= 8 * m_workGroupsX st.1 <= attr_width cfg + 4
   /\ (attr_width cfg <= 8 * m_workGroupsX st.1
       <-> attr_width cfg mod 8 = 0 \/ 4 <= attr_width cfg mod 8))
  /\ (attr_height cfg - 3 <= 8 * m_workGroupsY st.1 <= attr_height cfg + 4
      /\ (attr_height cfg <= 8 * m_workGroupsY st.1
          <-> attr_height cfg mod 8 = 0 \/ 4 <= attr_height cfg mod 8)).
Proof.
  intros HI Hw0 Hw1 Hh0 Hh1.
  destruct (Init_workGroups _ _ _ _ _ _ _ HI) as (_ & _ & -> & ->).
  rewrite !workGroups_formula by assumption.
  pose proof (Z.mod_pos_bound (attr_width cfg) 8 ltac:(lia)).
  pose proof (Z.div_mod (attr_width cfg) 8 ltac:(lia)).
  pose proof (Z.mod_pos_bound (attr_height cfg) 8 ltac:(lia)).
  pose proof (Z.div_mod (attr_height cfg) 8 ltac:(lia)).
  destruct (Z.leb_spec 4 (attr_width cfg mod 8)),
           (Z.leb_spec 4 (attr_height cfg mod 8)); lia.
Qed.

Lemma Init_tile_coverage_witness :
  (1366 - 3 <= 8 * m_workGroupsX (sample_state 1366 763).1 <= 1366 + 4
   /\ (1366 <= 8 * m_workGroupsX (sample_state 1366 763).1
       <-> 1366 mod 8 = 0 \/ 4 <= 1366 mod 8))
  /\ (763 - 3 <= 8 * m_workGroupsY (sample_state 1366 763).1 <= 763 + 4
      /\ (763 <= 8 * m_workGroupsY (sample_state 1366 763).1
          <-> 763 mod 8 = 0 \/ 4 <= 763 mod 8)).
Proof.
  apply (Init_tile_coverage FP.ieee sample_consts
           (sample_driver (1 # 2)) (sample_config 1366 763)
           RenderSystem_ctor gl_initial (sample_state 1366 763)).
  - exact (Init_sample_state 1366 763).
  - cbn. lia.
  - unfold UInt.modulus. cbn. lia.
  - cbn. lia.
  - unfold UInt.modulus. cbn. lia.
Defined.

(** ** How many calls [renderModels] issues *)

Lemma renderMesh_counts (shader : GLShaderProgram) (model : Model)
    (depthPass : bool) (mesh : Mesh) :
  length (filter is_uniform (renderMesh shader model depthPass mesh))
  = (if depthPass then 0 else 4)%nat
  /\ length (filter is_draw (renderMesh shader model depthPass mesh)) = 1%nat.
Proof. destruct depthPass; split; reflexivity. Qed.

(** X11.  [renderModels] sets the model matrix once per entry and, in
    the shading pass, the four material uniforms once per mesh (not once
    per entry); it issues one draw per mesh.  An entry without meshes
    contributes the model-matrix call alone. *)
Theorem renderModels_call_counts (shader : GLShaderProgram)
    (renderList : list Model) (depthPass : bool) :
  let trace := renderModels shader renderList depthPass in
  let meshes := length (draw_list renderList) in
  length (filter is_uniform trace)
  = (length renderList + (if depthPass then 0 else 4 * meshes))%nat
  /\ length (filter is_draw trace) = meshes
  /\ length trace
     = (length renderList + (if depthPass then 3 else 7) * meshes)%nat.
Proof.
  cbv zeta. unfold renderModels, draw_list.
  induction renderList as [|model renderList IH].
  - destruct depthPass; repeat split.
  - cbn [flat_map]. rewrite !filter_app, !length_app, length_fmap.
    destruct IH as (IH1 & IH2 & IH3). rewrite IH1, IH2, IH3. clear.
    unfold renderModel.
    rewrite (filter_cons_True is_uniform) by exact I.
    rewrite (filter_cons_False is_draw) by (intros H; exact H).
    cbn [length].
    assert (H : forall meshes : list Mesh,
               length (filter is_uniform
                         (flat_map (renderMesh shader model depthPass) meshes))
               = ((if depthPass then 0 else 4) * length meshes)%nat
               /\ length (filter is_draw
                            (flat_map (renderMesh shader model depthPass) meshes))
                  = length meshes
               /\ length (flat_map (renderMesh shader model depthPass) meshes)
                  = ((if depthPass then 3 else 7) * length meshes)%nat).
    { induction meshes as [|mesh meshes IHm].
      - destruct depthPass; repeat split.
      - cbn [flat_map]. rewrite !filter_app, !length_app.
        destruct IHm as (-> & -> & ->).
        destruct (renderMesh_counts shader model depthPass mesh) as (-> & ->).
        destruct depthPass; cbn; repeat split; lia. }
    destruct (H (GetMeshes model)) as (-> & -> & ->).
    destruct depthPass; repeat split; lia.
Qed.

(** ** The samples behind each light *)

Lemma make_light_from (fp : FP.Rounding) (K : Consts) (order : ArgOrder)
    (gen : mt19937_64) :
  make_light fp K order gen
  = (light_from fp K order (samples gen (cursor gen))
                           (samples gen (S (cursor gen)))
                           (samples gen (S (S (cursor gen)))),
     advance gen 3).
Proof. destruct order; reflexivity. Qed.

Lemma advance_advance (gen : mt19937_64) (a b : nat) :
  advance (advance gen a) b = advance gen (b + a).
Proof. unfold advance. cbn. f_equal. lia. Qed.

Lemma fill_lights_below (fp : FP.Rounding) (K : Consts)
    (order : nat -> ArgOrder) (n i : nat)
    (gen : mt19937_64) (ls : list PointLight) (j : nat) :
  (j < i)%nat -> (fill_lights fp K order n i gen ls).1 !! j = ls !! j.
Proof.
  revert i gen ls. induction n as [|n IH]; intros i gen ls Hj; [reflexivity|].
  rewrite fill_lights_S, IH by lia.
  apply list_lookup_insert_ne. lia.
Qed.

Lemma fill_lights_slot (fp : FP.Rounding) (K : Consts)
    (order : nat -> ArgOrder) (n i : nat)
    (gen : mt19937_64) (ls : list PointLight) (k : nat) :
  (k < n)%nat -> (i + k < length ls)%nat ->
  (fill_lights fp K order n i gen ls).1 !! (i + k)%nat
  = Some (make_light fp K (order (i + k)%nat) (advance gen (3 * k))).1.
Proof.
  revert i gen ls k. induction n as [|n IH]; intros i gen ls k Hk Hlen; [lia|].
  rewrite fill_lights_S. destruct k as [|k].
  - rewrite Nat.add_0_r in *. rewrite fill_lights_below by lia.
    rewrite list_lookup_insert_eq by exact Hlen.
    destruct gen. reflexivity.
  - replace (i + S k)%nat with (S i + k)%nat by lia.
    rewrite IH by (rewrite ?length_insert; lia).
    rewrite (make_light_from fp K (order i) gen). cbn [snd].
    rewrite advance_advance.
    replace (3 * k + 3)%nat with (3 * S k)%nat by lia. reflexivity.
Qed.

(** X12.  [RandomPosition] receives the generator by value, so the three
    samples it draws are drawn again for the colour: light [k] of the
    buffer is built from the samples [3k], [3k+1] and [3k+2] of the seeded
    generator.  Coordinate [j] of the position comes from the sample
    [3k+j]; the three colour arguments draw the same three samples in the
    order in which the compiler evaluates them, which C++ leaves open:
    channel [j] comes from the sample [3k + r], [r] the rank of argument
    [j] in that order. *)
Theorem lights_reuse_samples (fp : FP.Rounding) (K : Consts) (drv : Driver)
    (rs : RenderSystem) (gl : GLState) (k : nat) :
  gen_lightBuffer drv <> 0 -> (k < MAX_NUM_LIGHTS K)%nat ->
  let gen := random_device drv in
  lights_of (setupLightBuffers fp K drv rs gl) !! k
  = Some (light_from fp K (color_order drv k)
                     (samples gen (3 * k + cursor gen))
                     (samples gen (3 * k + 1 + cursor gen))
                     (samples gen (3 * k + 2 + cursor gen))).
Proof.
  intros Hbuf Hk. cbv zeta.
  unfold setupLightBuffers, setupLightStorageBuffer. cbn [m_lightBuffer].
  destruct (Z.eqb_spec (gen_lightBuffer drv) 0) as [|_]; [contradiction|].
  cbn [bind lights_of snd gl_lights set_lights set_visibleLightIndices].
  pose proof (fill_lights_slot fp K (color_order drv) (MAX_NUM_LIGHTS K) 0
                (random_device drv)
                (replicate (MAX_NUM_LIGHTS K) undefined_light) k Hk) as H.
  cbn [Nat.add] in H. rewrite H by (rewrite length_replicate; exact Hk).
  rewrite make_light_from. cbn [fst advance samples cursor].
  f_equal. f_equal; try reflexivity; f_equal; lia.
Qed.

Lemma lights_reuse_samples_witness :
  lights_of (setupLightBuffers FP.ieee sample_consts right_to_left_driver
                               RenderSystem_ctor gl_initial) !! 5%nat
  = Some (light_from FP.ieee sample_consts Eval_210
                     (inject_Z (Z.of_nat ((3 * 5 + 0) mod 3) + 1) / 8)%Q
                     (inject_Z (Z.of_nat ((3 * 5 + 1 + 0) mod 3) + 1) / 8)%Q
                     (inject_Z (Z.of_nat ((3 * 5 + 2 + 0) mod 3) + 1) / 8)%Q).
Proof.
  apply (lights_reuse_samples FP.ieee sample_consts right_to_left_driver
           RenderSystem_ctor gl_initial 5).
  - discriminate.
  - cbn. lia.
Defined.

(** On that driver the samples 1/8, 2/8, 3/8 give the colour
    (1.375, 1.25, 1.125): the channels in the reverse of the order in
    which the samples were drawn. *)
Example color_right_to_left :
  exists light,
    lights_of (setupLightBuffers FP.ieee sample_consts
                 right_to_left_driver RenderSystem_ctor gl_initial)
      !! 0%nat = Some light
    /\ (vx (Color light) == 11 # 8)%Q /\ (vy (Color light) == 5 # 4)%Q
    /\ (vz (Color light) == 9 # 8)%Q.
Proof. eexists. split; [vm_compute; reflexivity|]. repeat split. Qed.

(** ** The new height is bounded *)

Section FallBounds.

Local Open Scope Q_scope.

Lemma fmod_bounds (a m : Q) :
  0 < m -> - m < FP.fmod a m /\ FP.fmod a m < m.
Proof.
  intros Hm. unfold FP.fmod, FP.trunc.
  assert (Hne : ~ m == 0) by lra.
  assert (E : a == (a / m) * m) by (field; exact Hne).
  set (q := a / m) in *.
  destruct (Qle_bool 0 q) eqn:Eb.
  - pose proof (Qfloor_le q) as H1. pose proof (Qlt_floor q) as H2.
    rewrite inject_Z_plus in H2. change (inject_Z 1) with 1 in H2.
    assert (G1 : inject_Z (Qfloor q) * m <= q * m)
      by (apply Qmult_le_compat_r; lra).
    assert (G2 : q * m < (inject_Z (Qfloor q) + 1) * m)
      by (apply Qmult_lt_compat_r; lra).
    split; lra.
  - pose proof (Qle_ceiling q) as H1. pose proof (Qceiling_lt q) as H2.
    unfold Z.sub in H2. rewrite inject_Z_plus, inject_Z_opp in H2.
    change (inject_Z 1) with 1 in H2.
    assert (G1 : q * m <= inject_Z (Qceiling q) * m)
      by (apply Qmult_le_compat_r; lra).
    assert (G2 : (inject_Z (Qceiling q) + - (1)) * m < q * m)
      by (apply Qmult_lt_compat_r; [exact Hm | exact H2]).
    split; lra.
Qed.

Lemma fall_bounds (fp : FP.Rounding) (K : Consts) (dt py : Q) :
  let min := vec3_get (LIGHT_MIN_BOUNDS K) 1 in
  let max := vec3_get (LIGHT_MAX_BOUNDS K) 1 in
  FP.monotone (FP.RD fp) -> FP.monotone (FP.RF fp) ->
  FP.representable (FP.RD fp) (min - max) ->
  FP.representable (FP.RD fp) (min + max) ->
  FP.representable (FP.RF fp) (min - max) ->
  FP.representable (FP.RF fp) (min + max) ->
  0 < max ->
  within (min - max) (min + max) (fall fp K dt py).
Proof.
  intros lo hi HD HF D1 D2 F1 F2 Hhi. unfold fall. fold lo hi.
  unfold FP.representable in *.
  set (a := FP.RD fp (FP.RD fp (FP.RD fp (py + _) - lo) + hi)).
  destruct (fmod_bounds a hi Hhi) as [B1 B2].
  assert (E1 : lo - hi <= FP.RD fp (FP.fmod a hi + lo)).
  { apply Qle_trans with (FP.RD fp (lo - hi));
      [rewrite D1; apply Qle_refl | apply HD; lra]. }
  assert (E2 : FP.RD fp (FP.fmod a hi + lo) <= lo + hi).
  { apply Qle_trans with (FP.RD fp (lo + hi));
      [apply HD; lra | rewrite D2; apply Qle_refl]. }
  split.
  - apply Qle_trans with (FP.RF fp (lo - hi));
      [rewrite F1; apply Qle_refl | apply HF, E1].
  - apply Qle_trans with (FP.RF fp (lo + hi));
      [apply HF, E2 | rewrite F2; apply Qle_refl].
Qed.

End FallBounds.

(** X13.  Whatever the time step and wherever a light was, as long as
    no operation of the update overflows, after [UpdateLights] its height
    lies in [min - max, min + max] (for monotone roundings that keep these
    two values, and [max > 0]): [fmod] by [max] bounds the result, below
    as well as above, because it keeps the sign of its argument. *)
Theorem UpdateLights_height_bounded (fp : FP.Rounding) (K : Consts)
    (dt : Q) (pointLights : list PointLight) (i : nat)
    (light light' : PointLight) :
  let min := vec3_get (LIGHT_MIN_BOUNDS K) 1 in
  let max := vec3_get (LIGHT_MAX_BOUNDS K) 1 in
  FP.monotone (FP.RD fp) -> FP.monotone (FP.RF fp) ->
  FP.representable (FP.RD fp) (min - max)%Q ->
  FP.representable (FP.RD fp) (min + max)%Q ->
  FP.representable (FP.RF fp) (min - max)%Q ->
  FP.representable (FP.RF fp) (min + max)%Q ->
  (0 < max)%Q ->
  (i < MAX_NUM_LIGHTS K)%nat ->
  pointLights !! i = Some light ->
  fall_in_range fp K dt (light_y light) ->
  UpdateLights fp K dt pointLights !! i = Some light' ->
  within (min - max)%Q (min + max)%Q (light_y light').
Proof.
  intros lo hi HD HF D1 D2 F1 F2 Hhi Hi Hlight _ Hl.
  unfold UpdateLights in Hl. rewrite UpdateLights_loop_lookup in Hl.
  case_decide; [|lia].
  rewrite Hlight in Hl.
  injection Hl as <-. unfold light_y. cbn.
  exact (fall_bounds fp K dt _ HD HF D1 D2 F1 F2 Hhi).
Qed.

Lemma UpdateLights_height_bounded_witness :
  exists light',
    UpdateLights FP.ieee sample_consts (1 # 64) (sample_buffer (-(79 # 4)))
      !! 0%nat = Some light'
    /\ within (-20 - 170)%Q (-20 + 170)%Q (light_y light').
Proof.
  eexists. split; [vm_compute; reflexivity|].
  apply (UpdateLights_height_bounded FP.ieee sample_consts (1 # 64)
           (sample_buffer (-(79 # 4))) 0 (sample_light (-(79 # 4)))).
  - apply ieee_sound.
  - apply ieee_sound.
  - vm_compute. reflexivity.
  - vm_compute. reflexivity.
  - vm_compute. reflexivity.
  - vm_compute. reflexivity.
  - reflexivity.
  - cbn. lia.
  - reflexivity.
  - vm_compute. repeat split; discriminate.
  - vm_compute. reflexivity.
Defined.

(** ** What each pass reads *)

Lemma run_context_app (st : Pipeline * Bindings) (t1 t2 : list GLCall) :
  run_context st (t1 ++ t2) = run_context (run_context st t1) t2.
Proof. apply foldl_app. Qed.

Lemma snapshots_app (st : Pipeline * Bindings) (t1 t2 : list GLCall) :
  snapshots st (t1 ++ t2)
  = snapshots st t1 ++ snapshots (run_context st t1) t2.
Proof.
  revert st. induction t1 as [|c t1 IH]; intros st; [reflexivity|].
  cbn [app snapshots]. rewrite IH, <- app_assoc. reflexivity.
Qed.

Lemma snapshots_call (st : Pipeline * Bindings) (trace : list GLCall)
    (s : GLCall * (Pipeline * Bindings)) :
  s ∈ snapshots st trace -> s.1 ∈ trace /\ is_work s.1 = true.
Proof.
  revert st. induction trace as [|c trace IH]; intros st; cbn [snapshots].
  - intros H. by apply elem_of_nil in H.
  - rewrite elem_of_app, elem_of_cons. intros [H|H].
    + destruct (is_work c) eqn:E; [|by apply elem_of_nil in H].
      apply list_elem_of_singleton in H. subst s. split; [by left | exact E].
    + destruct (IH _ H). split; [by right | assumption].
Qed.

(** A property of contexts that every call of the trace preserves holds
    at every submission of the trace. *)
Lemma snapshots_invariant (I : Pipeline * Bindings -> Prop)
    (trace : list GLCall) (st : Pipeline * Bindings) :
  I st ->
  (forall c st', c ∈ trace -> I st' -> I (context_step st' c)) ->
  forall s, s ∈ snapshots st trace -> I s.2.
Proof.
  revert st. induction trace as [|c trace IH]; intros st HI Hstep s;
    cbn [snapshots].
  - intros H. by apply elem_of_nil in H.
  - rewrite elem_of_app. intros [H|H].
    + destruct (is_work c); [|by apply elem_of_nil in H].
      apply list_elem_of_singleton in H. subst s. exact HI.
    + apply (IH (context_step st c)); [| |exact H].
      * apply Hstep; [left | exact HI].
      * intros c' st' Hc'. apply Hstep. by right.
Qed.

(** The calls of [renderModels]. *)
Lemma renderModels_calls (shader : GLShaderProgram) (renderList : list Model)
    (depthPass : bool) (c : GLCall) :
  c ∈ renderModels shader renderList depthPass ->
  (exists name v, c = SetUniform shader name v /\ name ∈ model_uniforms)
  \/ (exists vao, c = VAOBind vao)
  \/ (exists count, c = glDrawElements count)
  \/ c = glBindTexture TEXTURE_2D 0.
Proof.
  unfold renderModels, model_uniforms.
  rewrite list_elem_of_In, in_flat_map.
  intros (model & _ & Hc). unfold renderModel in Hc.
  destruct Hc as [<-|Hc].
  - left. eexists _, _. split; [reflexivity | set_solver].
  - apply in_flat_map in Hc as (mesh & _ & Hc).
    unfold renderMesh in Hc. apply in_app_or in Hc as [Hc|Hc].
    + destruct depthPass; cbn in Hc; [contradiction|].
      destruct Hc as [<-|[<-|[<-|[<-|[]]]]];
        left; eexists _, _; (split; [reflexivity | set_solver]).
    + cbn in Hc. destruct Hc as [<-|[<-|[<-|[]]]]; eauto.
Qed.

Lemma model_uniforms_other (name : string) :
  name ∈ model_uniforms ->
  name <> "irradianceMap" /\ name <> "wireframe" /\ name <> "viewPos"
  /\ name <> "sunDirection" /\ name <> "sunColor".
Proof.
  unfold model_uniforms. rewrite !elem_of_cons.
  intros [->|[->|[->|[->|[->|H]]]]]; [| | | | |by apply elem_of_nil in H];
    repeat split; discriminate.
Qed.

Lemma renderModels_snapshot_draw (shader : GLShaderProgram)
    (renderList : list Model) (depthPass : bool) (st : Pipeline * Bindings)
    (s : GLCall * (Pipeline * Bindings)) :
  s ∈ snapshots st (renderModels shader renderList depthPass) ->
  exists count, s.1 = glDrawElements count.
Proof.
  intros H. apply snapshots_call in H as [Hin Hw].
  apply renderModels_calls in Hin
    as [(n & v & E & _)|[(vao & E)|[(count & E)|E]]];
    rewrite E in Hw; try discriminate. eauto.
Qed.

Lemma renderModels_keeps_target (shader : GLShaderProgram)
    (renderList : list Model) (depthPass : bool) (t : Target)
    (st : Pipeline * Bindings) (s : GLCall * (Pipeline * Bindings)) :
  bound_fb st.1 = t ->
  s ∈ snapshots st (renderModels shader renderList depthPass) ->
  bound_fb s.2.1 = t.
Proof.
  intros Ht. apply (snapshots_invariant (fun st => bound_fb st.1 = t)); [exact Ht|].
  intros c st' Hc HI.
  apply renderModels_calls in Hc
    as [(n & v & -> & _)|[(vao & ->)|[(count & ->) | -> ]]]; exact HI.
Qed.

Lemma renderModels_keeps_shading_context (rs : RenderSystem)
    (scene : SceneBase) (p : GLShaderProgram) (renderList : list Model)
    (st : Pipeline * Bindings) (s : GLCall * (Pipeline * Bindings)) :
  shading_context rs scene p st ->
  s ∈ snapshots st (renderModels p renderList false) ->
  shading_context rs scene p s.2.
Proof.
  intros Hst. apply (snapshots_invariant (shading_context rs scene p)); [exact Hst|].
  intros c st' Hc (H1 & H2 & H3 & H4 & H5 & H6 & H7 & H8 & H9).
  unfold shading_context, uniform_in in *.
  apply renderModels_calls in Hc
    as [(n & v & -> & Hn)|[(vao & ->)|[(count & ->) | -> ]]];
    cbn [context_step gl_step bind_step fst snd bound_fb cur_prog uniforms
         active_unit texture_at].
  - apply model_uniforms_other in Hn as (N1 & N2 & N3 & N4 & N5).
    rewrite !lookup_insert_ne by congruence. repeat split; assumption.
  - repeat split; assumption.
  - repeat split; assumption.
  - rewrite H8. repeat split; assumption.
Qed.

(** Every submission of a frame is a draw into the depth framebuffer, the
    dispatch under [cull_context], a draw under [shading_context], the
    skybox, or the screen quad under [post_context]. *)
Lemma Render_snapshot_cases (statics : RenderStatics) (rs : RenderSystem)
    (scene : SceneBase) (d l p pp : GLShaderProgram) (st0 : Pipeline * Bindings)
    (s : GLCall * (Pipeline * Bindings)) :
  statics_hold (frame_statics (Render statics rs scene)) d l p pp ->
  s ∈ snapshots st0 (frame_calls (Render statics rs scene)) ->
  ((exists count, s.1 = glDrawElements count) /\ bound_fb s.2.1 = DepthFBO)
  \/ (s.1 = glDispatchCompute (m_workGroupsX rs) (m_workGroupsY rs) 1
      /\ cull_context rs scene l s.2)
  \/ ((exists count, s.1 = glDrawElements count)
      /\ shading_context rs scene p s.2)
  \/ s.1 = Skybox_Draw
  \/ (s.1 = glDrawArrays 0 4 /\ post_context rs pp s.2).
Proof.
  intros Hreg.
  destruct (Render_bound statics rs scene d l p pp Hreg) as (_ & _ & ->).
  cbn [app snapshots is_work].
  set (st1 := context_step st0 _).
  rewrite snapshots_app, elem_of_app. intros [H|H].
  { (* depth pass *)
    left. unfold depthPass in H. cbn [app snapshots is_work] in H.
    rewrite snapshots_app, elem_of_app in H. destruct H as [H|H].
    - split; [eapply renderModels_snapshot_draw, H|].
      eapply renderModels_keeps_target; [|exact H]. reflexivity.
    - cbn in H. by apply elem_of_nil in H. }
  rewrite snapshots_app, elem_of_app in H. destruct H as [H|H].
  { (* culling *)
    right. left. unfold cullPass in H. cbn [snapshots is_work app] in H.
    apply list_elem_of_singleton in H. subst s. split; [reflexivity|].
    unfold cull_context, uniform_in.
    cbn [context_step gl_step bind_step fst snd bound_fb cur_prog uniforms
         active_unit texture_at buffer_base].
    repeat split; by simplify_map_eq. }
  rewrite snapshots_app, elem_of_app in H. destruct H as [H|H].
  { (* shading *)
    unfold shadingPass in H. cbn [app snapshots is_work] in H.
    rewrite snapshots_app, elem_of_app in H. destruct H as [H|H].
    - right. right. left.
      split; [eapply renderModels_snapshot_draw, H|].
      eapply renderModels_keeps_shading_context; [|exact H].
      unfold shading_context, uniform_in.
      cbn [context_step gl_step bind_step fst snd bound_fb cur_prog uniforms
           active_unit texture_at buffer_base].
      repeat split; by simplify_map_eq.
    - right. right. right. left. cbn in H.
      apply list_elem_of_singleton in H. subst s. reflexivity. }
  (* post-processing *)
  right. right. right. right.
  unfold postProcessPass, renderQuad in H. cbn [snapshots is_work app] in H.
  apply list_elem_of_singleton in H. subst s. split; [reflexivity|].
  unfold post_context, uniform_in.
  cbn [context_step gl_step bind_step fst snd bound_fb cur_prog uniforms
       active_unit texture_at buffer_base].
  repeat split; by simplify_map_eq.
Qed.

(** X14.  Every compute dispatch of a frame is issued over the stored
    tile grid [(m_workGroupsX, m_workGroupsY, 1)], under the program the
    static reference [lightCullShader] holds, with its [projection] uniform set to [m_projMatrix], [view]
    to the view matrix of the camera and [depthMap] to 5, with the depth
    texture bound to the 2D target of texture unit 5, and with the light
    buffer and the index buffer bound to the shader-storage binding
    points 0 and 1. *)
Theorem dispatch_context (statics : RenderStatics) (rs : RenderSystem)
    (scene : SceneBase) (d l p pp : GLShaderProgram) (st0 : Pipeline * Bindings)
    (s : GLCall * (Pipeline * Bindings)) (gx gy gz : Z) :
  statics_hold (frame_statics (Render statics rs scene)) d l p pp ->
  s ∈ snapshots st0 (frame_calls (Render statics rs scene)) ->
  s.1 = glDispatchCompute gx gy gz ->
  (gx, gy, gz) = (m_workGroupsX rs, m_workGroupsY rs, 1)
  /\ cull_context rs scene l s.2.
Proof.
  intros Hreg Hs E.
  destruct (Render_snapshot_cases statics rs scene d l p pp st0 s Hreg Hs)
    as [[[n G] _]|[[G C]|[[[n G] _]|[G|[G _]]]]];
    rewrite G in E; try discriminate.
  injection E as <- <- <-. split; [reflexivity | exact C].
Qed.

Lemma dispatch_context_witness :
  (100, 75, 1) = (m_workGroupsX (sample_state 800 600).1,
                  m_workGroupsY (sample_state 800 600).1, 1)
  /\ cull_context (sample_state 800 600).1 sample_scene
                  (sample_shader "LightCullShader") (sample_snapshot 3).2.
Proof.
  apply (dispatch_context unbound_statics (sample_state 800 600).1 sample_scene
           (sample_shader "DepthPassShader") (sample_shader "LightCullShader")
           (sample_shader "PBRShader") (sample_shader "PostProcessShader")
           (pipeline_initial, bindings_initial) (sample_snapshot 3)).
  - exact sample_statics_hold.
  - apply sample_snapshot_elem. lia.
  - vm_compute. reflexivity.
Defined.

(** X15.  Every mesh draw of a frame goes either into the depth
    framebuffer or into the HDR framebuffer, and one into the HDR
    framebuffer runs under the program the static reference [pbrShader]
    holds, with [wireframe] set to 1,
    [irradianceMap] to 0, [viewPos], [sunDirection] and [sunColor] to the
    camera position and the sun of the scene, and with the irradiance map
    bound to the cube-map target of the active texture unit 0: the calls
    of [renderModels] disturb none of these. *)
Theorem shading_draw_context (statics : RenderStatics) (rs : RenderSystem)
    (scene : SceneBase) (d l p pp : GLShaderProgram) (st0 : Pipeline * Bindings)
    (s : GLCall * (Pipeline * Bindings)) (count : Z) :
  statics_hold (frame_statics (Render statics rs scene)) d l p pp ->
  s ∈ snapshots st0 (frame_calls (Render statics rs scene)) ->
  s.1 = glDrawElements count ->
  bound_fb s.2.1 = DepthFBO \/ shading_context rs scene p s.2.
Proof.
  intros Hreg Hs E.
  destruct (Render_snapshot_cases statics rs scene d l p pp st0 s Hreg Hs)
    as [[_ G]|[[G _]|[[_ C]|[G|[G _]]]]];
    try (rewrite G in E; discriminate); auto.
Qed.

Lemma shading_draw_context_witness :
  bound_fb (sample_snapshot 4).2.1 = DepthFBO
  \/ shading_context (sample_state 800 600).1 sample_scene
                     (sample_shader "PBRShader") (sample_snapshot 4).2.
Proof.
  apply (shading_draw_context unbound_statics (sample_state 800 600).1 sample_scene
           (sample_shader "DepthPassShader") (sample_shader "LightCullShader")
           (sample_shader "PBRShader") (sample_shader "PostProcessShader")
           (pipeline_initial, bindings_initial) (sample_snapshot 4) 36).
  - exact sample_statics_hold.
  - apply sample_snapshot_elem. lia.
  - vm_compute. reflexivity.
Defined.

(** X16.  Every array draw of a frame is the screen quad: 4 vertices
    from 0, drawn into the default framebuffer under the program the
    static reference [postProcessShader] holds, with [vibranceAmount] and [vibranceCoefficient] set from the
    members [m_vibrance] and [m_coefficient], and with the HDR colour
    texture bound to the 2D target of the active texture unit 0. *)
Theorem quad_context (statics : RenderStatics) (rs : RenderSystem)
    (scene : SceneBase) (d l p pp : GLShaderProgram) (st0 : Pipeline * Bindings)
    (s : GLCall * (Pipeline * Bindings)) (first count : Z) :
  statics_hold (frame_statics (Render statics rs scene)) d l p pp ->
  s ∈ snapshots st0 (frame_calls (Render statics rs scene)) ->
  s.1 = glDrawArrays first count ->
  (first, count) = (0, 4) /\ post_context rs pp s.2.
Proof.
  intros Hreg Hs E.
  destruct (Render_snapshot_cases statics rs scene d l p pp st0 s Hreg Hs)
    as [[[n G] _]|[[G _]|[[[n G] _]|[G|[G C]]]]];
    rewrite G in E; try discriminate.
  injection E as <- <-. split; [reflexivity | exact C].
Qed.

Lemma quad_context_witness :
  (0, 4) = (0, 4)
  /\ post_context (sample_state 800 600).1
                  (sample_shader "PostProcessShader") (sample_snapshot 8).2.
Proof.
  apply (quad_context unbound_statics (sample_state 800 600).1 sample_scene
           (sample_shader "DepthPassShader") (sample_shader "LightCullShader")
           (sample_shader "PBRShader") (sample_shader "PostProcessShader")
           (pipeline_initial, bindings_initial) (sample_snapshot 8) 0 4).
  - exact sample_statics_hold.
  - apply sample_snapshot_elem. lia.
  - vm_compute. reflexivity.
Defined.

(** ** The model loader *)

Section ModelFileFacts.

Import ModelFile.
Import Stdlib.Strings.Ascii.

(** *** Strings *)

Lemma find_last_of_free (c : ascii) (s : string) :
  free_of c s -> find_last_of c s = None.
Proof.
  unfold free_of. induction s as [|a s IH]; cbn; [reflexivity|].
  intros H. rewrite IH by tauto.
  destruct (Ascii.eqb_spec a c) as [->|]; [tauto | reflexivity].
Qed.

Lemma append_empty (s : string) : ("" ++ s)%string = s.
Proof. reflexivity. Qed.

Lemma append_String (a : ascii) (s t : string) :
  (String a s ++ t)%string = String a (s ++ t).
Proof. reflexivity. Qed.

Lemma find_last_of_last (c : ascii) (dir file : string) :
  free_of c file ->
  find_last_of c (dir ++ String c file) = Some (String.length dir).
Proof.
  intros H. induction dir as [|a dir IH].
  - rewrite append_empty. cbn.
    rewrite (find_last_of_free c file H), Ascii.eqb_refl. reflexivity.
  - rewrite append_String. cbn [find_last_of String.length].
    rewrite IH. reflexivity.
Qed.

Lemma substring_prefix (dir rest : string) :
  String.substring 0 (String.length dir) (dir ++ rest) = dir.
Proof.
  induction dir as [|a dir IH].
  - rewrite append_empty. destruct rest; reflexivity.
  - rewrite append_String. cbn [String.length String.substring].
    rewrite IH. reflexivity.
Qed.

Lemma directory_of_path (dir file : string) :
  free_of "/" file ->
  substr0 (find_last_of "/" (dir ++ "/" ++ file)) (dir ++ "/" ++ file) = dir.
Proof.
  intros H. change ("/" ++ file)%string with (String "/" file).
  rewrite (find_last_of_last _ _ _ H). apply substring_prefix.
Qed.

(** *** Textures *)

Lemma extends_refl (m : Model) : extends m m.
Proof. unfold extends. split; [|split]; reflexivity. Qed.

Lemma extends_trans (a b c : Model) : extends a b -> extends b c -> extends a c.
Proof.
  intros (H1 & H2 & H3) (G1 & G2 & G3).
  repeat split; [congruence | congruence | by etrans].
Qed.

Lemma find_loaded_elem (same_buffer : Texture -> string -> bool)
    (loaded : list Texture) (str : string) (t : Texture) :
  find_loaded same_buffer loaded str = Some t ->
  t ∈ loaded /\ same_buffer t str = true.
Proof.
  induction loaded as [|x loaded IH]; cbn; [discriminate|].
  destruct (same_buffer x str) eqn:E.
  - intros [= <-]. split; [left | exact E].
  - intros H. destruct (IH H). split; [by right | assumption].
Qed.

Lemma loadMatTextures_step_reuse (same_buffer : Texture -> string -> bool)
    (samplerName str : string) (textures : list Texture) (m : Model)
    (t : Texture) :
  find_loaded same_buffer (m_loadedTextures m) str = Some t ->
  loadMatTextures_step same_buffer samplerName (textures, m) str
  = (textures ++ [t], m).
Proof. intros E. unfold loadMatTextures_step. rewrite E. reflexivity. Qed.

Lemma loadMatTextures_step_fresh (same_buffer : Texture -> string -> bool)
    (samplerName str : string) (textures : list Texture) (m : Model) :
  find_loaded same_buffer (m_loadedTextures m) str = None ->
  loadMatTextures_step same_buffer samplerName (textures, m) str
  = (textures ++ [fresh_texture m samplerName str],
     push_loadedTexture (fresh_texture m samplerName str) m).
Proof.
  intros E. unfold loadMatTextures_step. rewrite E.
  reflexivity.
Qed.

Lemma loadMatTextures_fold (same_buffer : Texture -> string -> bool)
    (samplerName : string) (names : list string)
    (textures : list Texture) (m : Model) :
  let r := foldl (loadMatTextures_step same_buffer samplerName)
                 (textures, m) names in
  exists got new,
    r.1 = textures ++ got
    /\ length got = length names
    /\ m_loadedTextures r.2 = m_loadedTextures m ++ new
    /\ (length new <= length names)%nat
    /\ got ⊆ m_loadedTextures r.2
    /\ m_name r.2 = m_name m /\ m_path r.2 = m_path m
    /\ m_meshes r.2 = m_meshes m.
Proof.
  cbv zeta. revert textures m.
  induction names as [|str names IH]; intros textures m.
  - exists [], []. cbn. rewrite !app_nil_r. split_and!; try reflexivity.
    apply list_subseteq_nil.
  - cbn [foldl].
    destruct (find_loaded same_buffer (m_loadedTextures m) str) as [t|] eqn:E.
    + rewrite (loadMatTextures_step_reuse _ _ _ _ _ _ E).
      destruct (IH (textures ++ [t]) m)
        as (got & new & H1 & H2 & H3 & H4 & H5 & H6 & H7 & H8).
      exists (t :: got), new. rewrite H1, <- app_assoc. cbn [app length].
      split_and!; try assumption; try reflexivity; try lia.
      apply find_loaded_elem in E as [E _]. rewrite H3 in H5 |- *.
      intros x [->|Hx]%elem_of_cons; [|by apply H5].
      apply elem_of_app. by left.
    + rewrite (loadMatTextures_step_fresh _ _ _ _ _ E).
      set (texture := fresh_texture m samplerName str).
      destruct (IH (textures ++ [texture]) (push_loadedTexture texture m))
        as (got & new & H1 & H2 & H3 & H4 & H5 & H6 & H7 & H8).
      exists (texture :: got), (texture :: new).
      rewrite H1, <- app_assoc. cbn [app length].
      cbn [push_loadedTexture m_loadedTextures] in H3.
      rewrite <- app_assoc in H3. cbn [app] in H3.
      split_and!; try assumption; try reflexivity; try lia.
      rewrite H3 in H5 |- *.
      intros x [->|Hx]%elem_of_cons; [|by apply H5].
      apply elem_of_app. right. left.
Qed.

(** X17.  [loadMatTextures] returns one texture for each texture of the
    given type that the material has, whatever the pointer comparison
    answers; each of them is in [m_loadedTextures] afterwards; that list
    has only grown at its end, by at most as many textures; the name, the
    directory and the meshes of the model are as before. *)
Theorem loadMatTextures_count (same_buffer : Texture -> string -> bool)
    (mat : aiMaterial) (type : aiTextureType) (samplerName : string)
    (m : Model) :
  let r := loadMatTextures same_buffer mat type samplerName m in
  length r.1 = GetTextureCount mat type
  /\ r.1 ⊆ m_loadedTextures r.2
  /\ extends m r.2
  /\ (length (m_loadedTextures r.2)
      <= length (m_loadedTextures m) + GetTextureCount mat type)%nat
  /\ m_meshes r.2 = m_meshes m.
Proof.
  cbv zeta. unfold loadMatTextures, GetTextureCount, extends.
  destruct (loadMatTextures_fold same_buffer samplerName
              (material_textures mat type) [] m)
    as (got & new & H1 & H2 & H3 & H4 & H5 & H6 & H7 & H8).
  cbn [app] in H1. rewrite H1, H3, length_app.
  split_and!; try assumption; try lia.
  - rewrite <- H3. exact H5.
  - by apply prefix_app_r.
Qed.

Lemma loadMatTextures_fold_fresh (same_buffer : Texture -> string -> bool)
    (samplerName : string) (names : list string)
    (textures : list Texture) (m : Model) :
  (forall t str, same_buffer t str = false) ->
  let r := foldl (loadMatTextures_step same_buffer samplerName)
                 (textures, m) names in
  r.1 = textures ++ (fresh_texture m samplerName <$> names)
  /\ m_loadedTextures r.2
     = m_loadedTextures m ++ (fresh_texture m samplerName <$> names).
Proof.
  intros Hno. cbv zeta. revert textures m.
  induction names as [|str names IH]; intros textures m.
  - cbn. rewrite !app_nil_r. split; reflexivity.
  - cbn [foldl].
    assert (E : find_loaded same_buffer (m_loadedTextures m) str = None).
    { induction (m_loadedTextures m) as [|x l IHl]; cbn; [reflexivity|].
      rewrite Hno. exact IHl. }
    rewrite (loadMatTextures_step_fresh _ _ _ _ _ E).
    destruct (IH (textures ++ [fresh_texture m samplerName str])
                 (push_loadedTexture (fresh_texture m samplerName str) m))
      as [H1 H2].
    rewrite H1, H2. cbn [push_loadedTexture m_loadedTextures fmap list_fmap].
    rewrite <- !app_assoc. split; reflexivity.
Qed.

(** X18.  When the pointer comparison never succeeds -- it compares the
    buffer of a loaded path with the buffer of the local [aiString], two
    distinct objects -- [loadMatTextures] constructs a texture for every
    name, repeated names included, with the path [m_path + "/" + name],
    and appends all of them to [m_loadedTextures]: nothing loaded before
    is reused. *)
Theorem loadMatTextures_never_reuses
    (same_buffer : Texture -> string -> bool)
    (mat : aiMaterial) (type : aiTextureType) (samplerName : string)
    (m : Model) :
  (forall t str, same_buffer t str = false) ->
  let r := loadMatTextures same_buffer mat type samplerName m in
  r.1 = (fresh_texture m samplerName <$> material_textures mat type)
  /\ m_loadedTextures r.2 = m_loadedTextures m ++ r.1.
Proof.
  intros Hno. cbv zeta. unfold loadMatTextures.
  destruct (loadMatTextures_fold_fresh same_buffer samplerName
              (material_textures mat type) [] m Hno) as [H1 H2].
  cbn [app] in H1. rewrite H1, H2. split; reflexivity.
Qed.

Lemma loadMatTextures_never_reuses_witness :
  (loadMatTextures distinct_buffers sample_material aiTextureType_DIFFUSE
                   "texture_diffuse" sample_model).1
  = (fresh_texture sample_model "texture_diffuse"
       <$> material_textures sample_material aiTextureType_DIFFUSE)
  /\ m_loadedTextures
       (loadMatTextures distinct_buffers sample_material aiTextureType_DIFFUSE
                        "texture_diffuse" sample_model).2
     = m_loadedTextures sample_model
       ++ (loadMatTextures distinct_buffers sample_material
                           aiTextureType_DIFFUSE "texture_diffuse"
                           sample_model).1.
Proof.
  apply (loadMatTextures_never_reuses distinct_buffers sample_material
           aiTextureType_DIFFUSE "texture_diffuse" sample_model).
  reflexivity.
Defined.

(** *** Meshes *)

Lemma copy_component_ok (has : bool) (arr : option (list aiVector3D))
    (i n : nat) :
  long_enough n arr -> (i < n)%nat -> (has = true -> is_Some arr) ->
  copy_component has arr i
  = Some (if has then to_vec3 <$> (arr ≫= (.!! i)) else None).
Proof.
  intros Hlen Hi Hhas. unfold copy_component. destruct has; [|reflexivity].
  destruct (Hhas eq_refl) as [a ->]. cbn.
  destruct (lookup_lt_is_Some_2 a i) as [v ->]; [|reflexivity].
  specialize (Hlen a eq_refl). lia.
Qed.

Lemma processVertex_ok (scene : aiScene) (mesh : aiMesh) (i : nat) :
  mesh_ok scene mesh -> (i < mNumVertices mesh)%nat ->
  exists v, processVertex mesh i = Some v /\ vertex_of mesh i v.
Proof.
  intros (Hv & Hn & Ht & Hc & _) Hi. unfold processVertex.
  rewrite (copy_component_ok _ _ i _ Hv Hi), (copy_component_ok _ _ i _ Hn Hi),
    (copy_component_ok _ _ i _ Ht Hi); cbn [mbind option_bind];
    try (unfold HasPositions, HasNormals, HasTangentsAndBitangents;
         rewrite ?andb_true_iff, !bool_decide_eq_true; tauto).
  assert (E : (match mTextureCoords0 mesh with
               | Some coords => v ← coords !! i; Some (ai_x v, ai_y v)
               | None => Some (0%Q, 0%Q)
               end : option (Q * Q))
              = Some match mTextureCoords0 mesh ≫= (.!! i) with
                     | Some c => (ai_x c, ai_y c)
                     | None => (0%Q, 0%Q)
                     end).
  { destruct (mTextureCoords0 mesh) as [coords|] eqn:Ec; [|reflexivity].
    cbn. destruct (lookup_lt_is_Some_2 coords i) as [v ->]; [|reflexivity].
    specialize (Hc coords eq_refl). lia. }
  rewrite E. cbn [mbind option_bind]. eexists. split; [reflexivity|].
  unfold vertex_of, HasPositions, HasNormals, HasTangentsAndBitangents.
  cbn [Position Normal Tangent TexCoords].
  rewrite !(bool_decide_eq_true_2 (0 < mNumVertices mesh)%nat) by lia.
  rewrite !andb_true_r.
  split_and!; try reflexivity.
  - destruct (mVertices mesh); [rewrite bool_decide_eq_true_2 by eauto
                               | rewrite bool_decide_eq_false_2
                                   by (intros [? ?]; discriminate)];
      reflexivity.
  - destruct (mNormals mesh); [rewrite bool_decide_eq_true_2 by eauto
                              | rewrite bool_decide_eq_false_2
                                  by (intros [? ?]; discriminate)];
      reflexivity.
  - destruct (mTangents mesh); [rewrite bool_decide_eq_true_2 by eauto
                               | rewrite bool_decide_eq_false_2
                                   by (intros [? ?]; discriminate)];
      cbn [andb]; [reflexivity|].
    destruct (bool_decide _); reflexivity.
Qed.

Lemma vertices_loop_ok (scene : aiScene) (mesh : aiMesh) (n i : nat)
    (acc : list Vertex) :
  mesh_ok scene mesh -> (i + n <= mNumVertices mesh)%nat ->
  exists vs,
    vertices_loop mesh n i acc = Some (acc ++ vs)
    /\ length vs = n
    /\ forall k v, vs !! k = Some v -> vertex_of mesh (i + k) v.
Proof.
  intros Hok. revert i acc. induction n as [|n IH]; intros i acc Hi.
  - exists []. cbn. rewrite app_nil_r. split_and!; [reflexivity..|].
    intros k v H. rewrite lookup_nil in H. discriminate.
  - destruct (processVertex_ok scene mesh i Hok) as (v & Ev & Hv); [lia|].
    cbn [vertices_loop]. rewrite Ev. cbn [mbind option_bind].
    destruct (IH (S i) (acc ++ [v])) as (vs & E & Hlen & Hvs); [lia|].
    exists (v :: vs). rewrite E, <- app_assoc. cbn [app length].
    split_and!; [reflexivity | lia |].
    intros [|k] w; cbn [lookup list_lookup].
    + intros [= <-]. rewrite Nat.add_0_r. exact Hv.
    + intros H. replace (i + S k)%nat with (S i + k)%nat by lia.
      by apply Hvs.
Qed.

Lemma indices_loop_concat (faces : list aiFace) (acc : list Z) :
  indices_loop faces acc = acc ++ concat (mIndices <$> faces).
Proof.
  unfold indices_loop. revert acc.
  induction faces as [|face faces IH]; intros acc; cbn.
  - by rewrite app_nil_r.
  - rewrite IH, app_assoc. f_equal.
    generalize (mIndices face) as l. clear. intros l. revert acc.
    induction l as [|j l IHl]; intros acc; cbn; [by rewrite app_nil_r|].
    rewrite IHl, <- app_assoc. reflexivity.
Qed.

Lemma processMesh_ok (same_buffer : Texture -> string -> bool)
    (scene : aiScene) (mesh : aiMesh) (m : Model) :
  mesh_ok scene mesh ->
  exists out m' material,
    processMesh same_buffer scene mesh m = Some (out, m')
    /\ mesh_of mesh out
    /\ mMaterials scene !! mMaterialIndex mesh = Some material
    /\ length (textures out)
       = (GetTextureCount material aiTextureType_DIFFUSE
          + GetTextureCount material aiTextureType_SPECULAR)%nat
    /\ textures out ⊆ m_loadedTextures m'
    /\ extends m m'
    /\ m_meshes m' = m_meshes m.
Proof.
  intros Hok. unfold processMesh.
  destruct (vertices_loop_ok scene mesh (mNumVertices mesh) 0 [] Hok)
    as (vs & Evs & Hlen & Hvs); [lia|].
  rewrite Evs. cbn [mbind option_bind app].
  destruct Hok as (_ & _ & _ & _ & Hmat).
  destruct (lookup_lt_is_Some_2 _ _ Hmat) as [material Emat].
  rewrite Emat. cbn [mbind option_bind].
  unfold loadMatTextures.
  destruct (loadMatTextures_fold same_buffer "texture_diffuse"
              (material_textures material aiTextureType_DIFFUSE) [] m)
    as (got1 & new1 & D1 & D2 & D3 & _ & D5 & D6 & D7 & D8).
  destruct (foldl _ ([], m) _) as [diffuseMaps m1].
  destruct (loadMatTextures_fold same_buffer "texture_specular"
              (material_textures material aiTextureType_SPECULAR) [] m1)
    as (got2 & new2 & S1 & S2 & S3 & _ & S5 & S6 & S7 & S8).
  destruct (foldl _ ([], m1) _) as [specularMaps m2].
  cbn [fst snd app] in *. subst diffuseMaps specularMaps.
  eexists _, _, material. split; [reflexivity|].
  cbn [textures]. split_and!.
  - unfold mesh_of. cbn [vertices indices]. split_and!; [exact Hlen | |].
    + intros i v H. apply (Hvs i v H).
    + apply (indices_loop_concat _ []).
  - reflexivity.
  - rewrite length_app. unfold GetTextureCount. congruence.
  - intros t [Ht|Ht]%elem_of_app; [|by apply S5].
    rewrite S3. apply elem_of_app. left. by apply D5.
  - unfold extends. split_and!; [congruence | congruence |].
    rewrite S3, D3, <- app_assoc. by apply prefix_app_r.
  - congruence.
Qed.

Lemma processMesh_textures (same_buffer : Texture -> string -> bool)
    (scene : aiScene) (mesh : aiMesh) (m : Model) (out : Mesh) (m' : Model)
    (material : aiMaterial) :
  processMesh same_buffer scene mesh m = Some (out, m') ->
  mMaterials scene !! mMaterialIndex mesh = Some material ->
  let diffuse :=
    loadMatTextures same_buffer material aiTextureType_DIFFUSE
                    "texture_diffuse" m in
  let specular :=
    loadMatTextures same_buffer material aiTextureType_SPECULAR
                    "texture_specular" diffuse.2 in
  textures out = diffuse.1 ++ specular.1 /\ m' = specular.2.
Proof.
  intros E Hmat. cbv zeta. revert E. unfold processMesh.
  destruct (vertices_loop mesh (mNumVertices mesh) 0 []) as [vs|];
    [|discriminate].
  cbn [mbind option_bind]. rewrite Hmat. cbn [mbind option_bind].
  destruct (loadMatTextures same_buffer material aiTextureType_DIFFUSE
              "texture_diffuse" m) as [diffuseMaps m1].
  cbn [fst snd].
  destruct (loadMatTextures same_buffer material aiTextureType_SPECULAR
              "texture_specular" m1) as [specularMaps m2].
  intros [= <- <-]. split; reflexivity.
Qed.

(** X19.  For a mesh whose arrays hold an entry per vertex and whose
    material is in the scene, [processMesh] returns a mesh with
    [mNumVertices] vertices; vertex [i] carries entry [i] of the position
    and normal arrays that are there, of the tangent array when the
    bitangents are there too, and the first two coordinates of texture
    channel 0, or (0, 0) without that channel; the indices are those of
    the faces, face after face; the textures are those [loadMatTextures]
    returns for the diffuse type of the material, followed by those it
    returns for the specular type when called on the model the first call
    left, all of them in [m_loadedTextures] afterwards; the model is the
    one the second call left, and its meshes are as before. *)
Theorem processMesh_data (same_buffer : Texture -> string -> bool)
    (scene : aiScene) (mesh : aiMesh) (m : Model) :
  mesh_ok scene mesh ->
  exists out m' material,
    processMesh same_buffer scene mesh m = Some (out, m')
    /\ mesh_of mesh out
    /\ mMaterials scene !! mMaterialIndex mesh = Some material
    /\ (let diffuse :=
          loadMatTextures same_buffer material aiTextureType_DIFFUSE
                          "texture_diffuse" m in
        let specular :=
          loadMatTextures same_buffer material aiTextureType_SPECULAR
                          "texture_specular" diffuse.2 in
        textures out = diffuse.1 ++ specular.1 /\ m' = specular.2)
    /\ length (textures out)
       = (GetTextureCount material aiTextureType_DIFFUSE
          + GetTextureCount material aiTextureType_SPECULAR)%nat
    /\ textures out ⊆ m_loadedTextures m'
    /\ extends m m'
    /\ m_meshes m' = m_meshes m.
Proof.
  intros Hok.
  destruct (processMesh_ok same_buffer scene mesh m Hok)
    as (out & m' & material & E & Hm & Hmat & Hrest).
  exists out, m', material.
  split; [exact E|]. split; [exact Hm|]. split; [exact Hmat|].
  split; [exact (processMesh_textures _ _ _ _ _ _ _ E Hmat) | exact Hrest].
Qed.

Lemma sample_meshes_ok (flags : Z) :
  Forall (mesh_ok (sample_aiScene flags)) (mMeshes (sample_aiScene flags)).
Proof.
  repeat constructor; intros a; cbn; intros [= <-]; cbn; lia.
Qed.

Lemma processMesh_data_witness :
  exists out m' material,
    processMesh distinct_buffers (sample_aiScene 0) sample_triangle
                sample_model
    = Some (out, m')
    /\ mesh_of sample_triangle out
    /\ mMaterials (sample_aiScene 0) !! mMaterialIndex sample_triangle
       = Some material
    /\ (let diffuse :=
          loadMatTextures distinct_buffers material aiTextureType_DIFFUSE
                          "texture_diffuse" sample_model in
        let specular :=
          loadMatTextures distinct_buffers material aiTextureType_SPECULAR
                          "texture_specular" diffuse.2 in
        textures out = diffuse.1 ++ specular.1 /\ m' = specular.2)
    /\ length (textures out)
       = (GetTextureCount material aiTextureType_DIFFUSE
          + GetTextureCount material aiTextureType_SPECULAR)%nat
    /\ textures out ⊆ m_loadedTextures m'
    /\ extends sample_model m'
    /\ m_meshes m' = m_meshes sample_model.
Proof.
  apply (processMesh_data distinct_buffers (sample_aiScene 0) sample_triangle
           sample_model).
  pose proof (sample_meshes_ok 0) as H.
  apply Forall_cons in H as [H _]. exact H.
Defined.

(** The textures of the sample triangle: the two diffuse ones, then the
    specular one. *)
Example sample_triangle_textures :
  exists out m',
    processMesh distinct_buffers (sample_aiScene 0) sample_triangle
                sample_model
    = Some (out, m')
    /\ texture_samplerName <$> textures out
       = [ "texture_diffuse"; "texture_diffuse"; "texture_specular" ].
Proof. eexists _, _. split; [vm_compute; reflexivity | reflexivity]. Qed.

(** *** The scene graph *)

Lemma aiNode_rose_ind (P : aiNode -> Prop) :
  (forall ids children, Forall P children -> P (Build_aiNode ids children)) ->
  forall node, P node.
Proof.
  intros H. fix IH 1. intros [ids children]. apply H.
  induction children as [|child children IHc]; constructor;
    [apply IH | exact IHc].
Qed.

Lemma preorder_eq (ids : list nat) (children : list aiNode) :
  preorder (Build_aiNode ids children)
  = ids ++ concat (preorder <$> children).
Proof.
  cbn [preorder]. f_equal.
  induction children as [|child children IH]; [reflexivity|].
  cbn [fmap list_fmap concat]. rewrite <- IH. reflexivity.
Qed.

Lemma foldl_None {A B : Type} (f : option B -> A -> option B) (l : list A) :
  (forall a, f None a = None) -> foldl f None l = None.
Proof. intros H. induction l as [|a l IH]; cbn; [reflexivity|]. by rewrite H. Qed.

Lemma processNode_eq (same_buffer : Texture -> string -> bool)
    (scene : aiScene) (ids : list nat) (children : list aiNode) (m : Model) :
  processNode same_buffer scene (Build_aiNode ids children) m
  = (node_meshes_loop same_buffer scene ids m
       ≫= children_loop same_buffer scene children).
Proof.
  cbn [processNode].
  destruct (node_meshes_loop same_buffer scene ids m) as [m1|];
    [|reflexivity].
  cbn [mbind option_bind]. unfold children_loop. revert m1.
  induction children as [|child children IH]; intros m1; [reflexivity|].
  cbn [foldl mbind option_bind].
  destruct (processNode same_buffer scene child m1) as [m2|].
  - cbn [mbind option_bind]. apply IH.
  - cbn [mbind option_bind]. symmetry. by apply foldl_None.
Qed.

Lemma node_meshes_loop_ok (same_buffer : Texture -> string -> bool)
    (scene : aiScene) (ids : list nat) (m : Model) :
  Forall (fun id => (id < length (mMeshes scene))%nat) ids ->
  Forall (mesh_ok scene) (mMeshes scene) ->
  exists m' new,
    node_meshes_loop same_buffer scene ids m = Some m'
    /\ m_meshes m' = m_meshes m ++ new
    /\ Forall2 (emitted scene) new ids
    /\ extends m m'.
Proof.
  intros Hids Hok. unfold node_meshes_loop. revert m.
  induction Hids as [|id ids Hid Hids IH]; intros m.
  - exists m, []. cbn. rewrite app_nil_r.
    split_and!; [reflexivity.. | constructor | apply extends_refl].
  - cbn [foldl mbind option_bind].
    destruct (lookup_lt_is_Some_2 _ _ Hid) as [mesh Emesh].
    rewrite Emesh. cbn [mbind option_bind].
    destruct (processMesh_ok same_buffer scene mesh m)
      as (out & m1 & material & E & Hout & _ & _ & _ & Hext & Hmeshes).
    { eapply Forall_forall in Hok; [exact Hok|].
      eapply list_elem_of_lookup_2, Emesh. }
    rewrite E. cbn [mbind option_bind].
    destruct (IH (push_mesh out m1)) as (m' & new & E' & H1 & H2 & H3).
    exists m', (out :: new). split; [exact E'|].
    cbn [push_mesh m_meshes] in H1. rewrite H1, Hmeshes, <- app_assoc.
    split_and!; [reflexivity | |].
    + constructor; [|exact H2]. exists mesh. split; assumption.
    + eapply extends_trans; [exact Hext|]. exact H3.
Qed.

Lemma processNode_ok (same_buffer : Texture -> string -> bool)
    (scene : aiScene) (node : aiNode) :
  Forall (mesh_ok scene) (mMeshes scene) ->
  forall m,
    Forall (fun id => (id < length (mMeshes scene))%nat) (preorder node) ->
    exists m' new,
      processNode same_buffer scene node m = Some m'
      /\ m_meshes m' = m_meshes m ++ new
      /\ Forall2 (emitted scene) new (preorder node)
      /\ extends m m'.
Proof.
  intros Hok. induction node as [ids children IHc] using aiNode_rose_ind.
  intros m. rewrite preorder_eq, processNode_eq, Forall_app.
  intros [Hids Hcs].
  destruct (node_meshes_loop_ok same_buffer scene ids m Hids Hok)
    as (m1 & new1 & E1 & G1 & G2 & G3).
  rewrite E1. cbn [mbind option_bind].
  assert (exists m' new,
            children_loop same_buffer scene children m1 = Some m'
            /\ m_meshes m' = m_meshes m1 ++ new
            /\ Forall2 (emitted scene) new (concat (preorder <$> children))
            /\ extends m1 m') as (m' & new & E & H1 & H2 & H3).
  { clear E1 G1 G2 G3. revert m1. unfold children_loop.
    induction IHc as [|child children Hchild _ IH]; intros m1.
    - exists m1, []. cbn. rewrite app_nil_r.
      split_and!; [reflexivity.. | constructor | apply extends_refl].
    - cbn [fmap list_fmap concat] in Hcs. apply Forall_app in Hcs as [Hc Hcs].
      destruct (Hchild m1 Hc) as (m2 & new2 & E2 & A1 & A2 & A3).
      cbn [foldl mbind option_bind]. rewrite E2.
      destruct (IH Hcs m2) as (m3 & new3 & E3 & B1 & B2 & B3).
      exists m3, (new2 ++ new3). split; [exact E3|].
      rewrite B1, A1, <- app_assoc. cbn [fmap list_fmap concat].
      split_and!; [reflexivity | by apply Forall2_app |].
      eapply extends_trans; [exact A3 | exact B3]. }
  exists m', (new1 ++ new). split; [exact E|].
  rewrite H1, G1, <- app_assoc.
  split_and!; [reflexivity | by apply Forall2_app |].
  eapply extends_trans; [exact G3 | exact H3].
Qed.

(** X20.  On a scene whose mesh references are all in range and whose
    meshes are well formed, [processNode] returns, and appends to
    [m_meshes] one mesh for each mesh reference below the node, in
    pre-order -- the meshes of a node before those of its children, the
    children in their order -- a mesh referenced twice being built twice;
    the meshes already there, the name and the directory are kept, and
    [m_loadedTextures] only grows at its end. *)
Theorem processNode_preorder (same_buffer : Texture -> string -> bool)
    (scene : aiScene) (node : aiNode) (m : Model) :
  scene_ok scene node ->
  exists m' new,
    processNode same_buffer scene node m = Some m'
    /\ m_meshes m' = m_meshes m ++ new
    /\ Forall2 (emitted scene) new (preorder node)
    /\ extends m m'.
Proof.
  intros [Hids Hok]. exact (processNode_ok same_buffer scene node Hok m Hids).
Qed.

Lemma sample_scene_ok (flags : Z) : scene_ok (sample_aiScene flags) sample_root.
Proof.
  split; [|apply sample_meshes_ok]. repeat constructor.
Qed.

Lemma processNode_preorder_witness :
  exists m' new,
    processNode distinct_buffers (sample_aiScene 0) sample_root sample_model
    = Some m'
    /\ m_meshes m' = m_meshes sample_model ++ new
    /\ Forall2 (emitted (sample_aiScene 0)) new (preorder sample_root)
    /\ extends sample_model m'.
Proof.
  apply (processNode_preorder distinct_buffers (sample_aiScene 0) sample_root
           sample_model).
  apply sample_scene_ok.
Defined.

(** *** Loading *)

(** X21.  [loadModel] turns a scene down only when its flags are equal
    to [AI_SCENE_FLAGS_INCOMPLETE]: a well-formed scene with a root node
    and any other flags -- the incomplete bit together with another bit,
    say -- is loaded: the result is [true], nothing is written to
    [std::cerr], [m_path] is the part of the path before its last slash
    and the meshes of the scene graph are appended in pre-order. *)
Theorem loadModel_accepts (same_buffer : Texture -> string -> bool)
    (importer : Importer) (Path : string) (flipWindingOrder : bool)
    (m : Model) (scene : aiScene) (root : aiNode) :
  ReadFile importer Path flipWindingOrder = Some scene ->
  mFlags scene <> AI_SCENE_FLAGS_INCOMPLETE ->
  mRootNode scene = Some root ->
  scene_ok scene root ->
  exists m' new,
    loadModel same_buffer importer Path flipWindingOrder m
    = Some (true, m', [])
    /\ m_meshes m' = m_meshes m ++ new
    /\ Forall2 (emitted scene) new (preorder root)
    /\ m_name m' = m_name m
    /\ m_path m' = substr0 (find_last_of "/" Path) Path
    /\ m_loadedTextures m `prefix_of` m_loadedTextures m'.
Proof.
  intros Hread Hflags Hroot [Hids Hok]. unfold loadModel.
  rewrite Hread, Hroot.
  destruct (Z.eqb_spec (mFlags scene) AI_SCENE_FLAGS_INCOMPLETE) as [|_];
    [contradiction|].
  destruct (processNode_ok same_buffer scene root Hok
              (set_path (substr0 (find_last_of "/" Path) Path) m) Hids)
    as (m' & new & E & H1 & H2 & H3 & H4 & H5).
  rewrite E. cbn [mbind option_bind]. exists m', new.
  split_and!; try assumption; reflexivity.
Qed.

Lemma loadModel_accepts_witness :
  exists m' new,
    loadModel distinct_buffers (sample_importer (Some (sample_aiScene 3)))
              "Data/models/crate.obj" false sample_model
    = Some (true, m', [])
    /\ m_meshes m' = m_meshes sample_model ++ new
    /\ Forall2 (emitted (sample_aiScene 3)) new (preorder sample_root)
    /\ m_name m' = m_name sample_model
    /\ m_path m'
       = substr0 (find_last_of "/" "Data/models/crate.obj")
                 "Data/models/crate.obj"
    /\ m_loadedTextures sample_model `prefix_of` m_loadedTextures m'.
Proof.
  apply (loadModel_accepts distinct_buffers
           (sample_importer (Some (sample_aiScene 3)))
           "Data/models/crate.obj" false sample_model (sample_aiScene 3)
           sample_root).
  - reflexivity.
  - discriminate.
  - reflexivity.
  - apply sample_scene_ok.
Defined.

(** X22.  When Assimp answers no scene, a scene whose flags equal
    [AI_SCENE_FLAGS_INCOMPLETE] or a scene without a root node, the
    constructor still returns a model and throws nothing: the model has
    no meshes and no textures, its [m_path] is the whole path of the
    file, not its directory, and [std::cerr] has received the Assimp
    error and then the line [Failed to load: ] followed by the name. *)
Theorem Model_ctor_failure (same_buffer : Texture -> string -> bool)
    (importer : Importer) (Path Name : string) (flipWindingOrder : bool) :
  rejected (ReadFile importer Path flipWindingOrder) ->
  Model_ctor same_buffer importer Path Name flipWindingOrder
  = Some ({| m_name := Name; m_path := Path; m_meshes := [];
             m_loadedTextures := [] |},
          [ ("Assimp Error for " ++ Name ++ ": " ++ GetErrorString importer
             ++ endl)%string;
            ("Failed to load: " ++ Name ++ endl)%string ]).
Proof.
  unfold Model_ctor, loadModel, rejected.
  destruct (ReadFile importer Path flipWindingOrder) as [scene|];
    [|reflexivity].
  intros [->| ->]; [reflexivity|].
  destruct (mFlags scene =? AI_SCENE_FLAGS_INCOMPLETE); reflexivity.
Qed.

Lemma Model_ctor_failure_witness :
  Model_ctor distinct_buffers (sample_importer None) "Data/models/crate.obj"
             "crate" false
  = Some ({| m_name := "crate"; m_path := "Data/models/crate.obj";
             m_meshes := []; m_loadedTextures := [] |},
          [ ("Assimp Error for " ++ "crate" ++ ": "
             ++ GetErrorString (sample_importer None) ++ endl)%string;
            ("Failed to load: " ++ "crate" ++ endl)%string ]).
Proof.
  apply (Model_ctor_failure distinct_buffers (sample_importer None)
           "Data/models/crate.obj" "crate" false).
  exact I.
Defined.

(** X23.  After a load that succeeds on a path [dir/file], where [file]
    holds no slash, [m_path] is [dir]; on a path without any slash
    [find_last_of] answers [npos] and [m_path] is the whole path, the name
    of the file included. *)
Theorem loadModel_directory (same_buffer : Texture -> string -> bool)
    (importer : Importer) (Path : string) (flipWindingOrder : bool)
    (m : Model) (scene : aiScene) (root : aiNode) :
  ReadFile importer Path flipWindingOrder = Some scene ->
  mFlags scene <> AI_SCENE_FLAGS_INCOMPLETE ->
  mRootNode scene = Some root ->
  scene_ok scene root ->
  exists m' cerr,
    loadModel same_buffer importer Path flipWindingOrder m
    = Some (true, m', cerr)
    /\ (forall dir file,
          Path = (dir ++ "/" ++ file)%string -> free_of "/" file ->
          m_path m' = dir)
    /\ (free_of "/" Path -> m_path m' = Path).
Proof.
  intros Hread Hflags Hroot [Hids Hok]. unfold loadModel.
  rewrite Hread, Hroot.
  destruct (Z.eqb_spec (mFlags scene) AI_SCENE_FLAGS_INCOMPLETE) as [|_];
    [contradiction|].
  destruct (processNode_ok same_buffer scene root Hok
              (set_path (substr0 (find_last_of "/" Path) Path) m) Hids)
    as (m' & new & E & _ & _ & _ & Hpath & _).
  rewrite E. cbn [mbind option_bind]. exists m', [].
  split; [reflexivity|]. cbn [set_path m_path] in Hpath. rewrite Hpath.
  split.
  - intros dir file -> Hfree. by apply directory_of_path.
  - intros Hfree. rewrite (find_last_of_free _ _ Hfree). reflexivity.
Qed.

Lemma loadModel_directory_witness :
  exists m' cerr,
    loadModel distinct_buffers (sample_importer (Some (sample_aiScene 0)))
              "Data/models/crate.obj" false sample_model
    = Some (true, m', cerr)
    /\ (forall dir file,
          "Data/models/crate.obj"%string = (dir ++ "/" ++ file)%string ->
          free_of "/" file -> m_path m' = dir)
    /\ (free_of "/" "Data/models/crate.obj" ->
        m_path m' = "Data/models/crate.obj"%string).
Proof.
  apply (loadModel_directory distinct_buffers
           (sample_importer (Some (sample_aiScene 0)))
           "Data/models/crate.obj" false sample_model (sample_aiScene 0)
           sample_root).
  - reflexivity.
  - discriminate.
  - reflexivity.
  - apply sample_scene_ok.
Defined.

(** *** The scene graph as a list *)

Lemma node_meshes_loop_app (same_buffer : Texture -> string -> bool)
    (scene : aiScene) (ids rest : list nat) (m : Model) :
  node_meshes_loop same_buffer scene (ids ++ rest) m
  = (node_meshes_loop same_buffer scene ids m
       ≫= node_meshes_loop same_buffer scene rest).
Proof.
  unfold node_meshes_loop. rewrite foldl_app.
  destruct (foldl _ (Some m) ids) as [m1|]; [reflexivity|].
  cbn [mbind option_bind]. by apply foldl_None.
Qed.

Lemma processNode_flat (same_buffer : Texture -> string -> bool)
    (scene : aiScene) (node : aiNode) :
  forall m,
    processNode same_buffer scene node m
    = node_meshes_loop same_buffer scene (preorder node) m.
Proof.
  induction node as [ids children IHc] using aiNode_rose_ind. intros m.
  rewrite preorder_eq, processNode_eq, node_meshes_loop_app.
  destruct (node_meshes_loop same_buffer scene ids m) as [m1|];
    [|reflexivity].
  cbn [mbind option_bind]. unfold children_loop. revert m1.
  induction IHc as [|child children Hchild _ IH]; intros m1; [reflexivity|].
  cbn [foldl mbind option_bind fmap list_fmap concat].
  rewrite node_meshes_loop_app, Hchild.
  destruct (node_meshes_loop same_buffer scene (preorder child) m1) as [m2|].
  - cbn [mbind option_bind]. apply IH.
  - cbn [mbind option_bind]. by apply foldl_None.
Qed.

(** X24.  The recursion of [processNode] over the scene graph is one
    loop over the mesh references below the node, taken in pre-order: on
    every scene, node and model it gives what the first loop of
    [processNode] gives on that list, and it has no defined result
    exactly when that loop has none. *)
Theorem processNode_flattens (same_buffer : Texture -> string -> bool)
    (scene : aiScene) (node : aiNode) (m : Model) :
  processNode same_buffer scene node m
  = node_meshes_loop same_buffer scene (preorder node) m.
Proof. exact (processNode_flat same_buffer scene node m). Qed.

Lemma processMesh_fresh (same_buffer : Texture -> string -> bool)
    (scene : aiScene) (mesh : aiMesh) (m : Model) (out : Mesh) (m' : Model)
    (material : aiMaterial) :
  (forall t str, same_buffer t str = false) ->
  mMaterials scene !! mMaterialIndex mesh = Some material ->
  processMesh same_buffer scene mesh m = Some (out, m') ->
  m_loadedTextures m' = m_loadedTextures m ++ textures out
  /\ length (textures out)
     = (GetTextureCount material aiTextureType_DIFFUSE
        + GetTextureCount material aiTextureType_SPECULAR)%nat
  /\ m_meshes m' = m_meshes m.
Proof.
  intros Hno Emat. unfold processMesh.
  destruct (vertices_loop _ _ _ _) as [vs|]; [|discriminate].
  cbn [mbind option_bind]. rewrite Emat. cbn [mbind option_bind].
  unfold loadMatTextures.
  destruct (loadMatTextures_fold_fresh same_buffer "texture_diffuse"
              (material_textures material aiTextureType_DIFFUSE) [] m Hno)
    as [D1 D2].
  destruct (loadMatTextures_fold same_buffer "texture_diffuse"
              (material_textures material aiTextureType_DIFFUSE) [] m)
    as (_ & _ & _ & _ & _ & _ & _ & _ & _ & D3).
  destruct (foldl _ ([], m) _) as [diffuseMaps m1].
  destruct (loadMatTextures_fold_fresh same_buffer "texture_specular"
              (material_textures material aiTextureType_SPECULAR) [] m1 Hno)
    as [S1 S2].
  destruct (loadMatTextures_fold same_buffer "texture_specular"
              (material_textures material aiTextureType_SPECULAR) [] m1)
    as (_ & _ & _ & _ & _ & _ & _ & _ & _ & S3).
  destruct (foldl _ ([], m1) _) as [specularMaps m2].
  cbn [fst snd app] in *. intros [= <- <-]. cbn [textures].
  split_and!.
  - rewrite S2, D2, <- app_assoc, D1, S1. reflexivity.
  - rewrite D1, S1, length_app, !length_fmap. reflexivity.
  - congruence.
Qed.

Lemma node_meshes_loop_fresh (same_buffer : Texture -> string -> bool)
    (scene : aiScene) (ids : list nat) (m : Model) :
  (forall t str, same_buffer t str = false) ->
  Forall (fun id => (id < length (mMeshes scene))%nat) ids ->
  Forall (mesh_ok scene) (mMeshes scene) ->
  exists m' new,
    node_meshes_loop same_buffer scene ids m = Some m'
    /\ m_meshes m' = m_meshes m ++ new
    /\ m_loadedTextures m'
       = m_loadedTextures m ++ concat (textures <$> new)
    /\ (length <$> (textures <$> new)) = (texture_requests scene <$> ids).
Proof.
  intros Hno Hids Hok. unfold node_meshes_loop. revert m.
  induction Hids as [|id ids Hid Hids IH]; intros m.
  - exists m, []. cbn. rewrite !app_nil_r. split_and!; reflexivity.
  - cbn [foldl mbind option_bind].
    destruct (lookup_lt_is_Some_2 _ _ Hid) as [mesh Emesh].
    rewrite Emesh. cbn [mbind option_bind].
    destruct (processMesh_ok same_buffer scene mesh m)
      as (out & m1 & material & E & _ & Emat & _).
    { eapply Forall_forall in Hok; [exact Hok|].
      eapply list_elem_of_lookup_2, Emesh. }
    destruct (processMesh_fresh same_buffer scene mesh m out m1 material
                Hno Emat E) as (F1 & F2 & F3).
    rewrite E. cbn [mbind option_bind].
    destruct (IH (push_mesh out m1)) as (m' & new & E' & H1 & H2 & H3).
    exists m', (out :: new). split; [exact E'|].
    cbn [push_mesh m_meshes m_loadedTextures] in H1, H2.
    rewrite H1, H2, F1, F3, <- !app_assoc.
    cbn [fmap list_fmap concat app]. split_and!; [reflexivity..|].
    f_equal; [|exact H3].
    unfold texture_requests. rewrite Emesh. cbn [mbind option_bind].
    rewrite Emat. exact F2.
Qed.

(** X25.  When the pointer comparison of [loadMatTextures] never
    succeeds, [processNode] on a well-formed scene loads a texture for
    every request of every mesh reference: [m_loadedTextures] grows by
    the textures of the meshes appended, one after the other, and mesh
    [k] of them has as many textures as the material of the [k]-th mesh
    reference in pre-order has diffuse and specular textures.  A texture
    shared by the materials of several meshes, or a mesh referenced by
    several nodes, is loaded once for each. *)
Theorem processNode_loads_every_request
    (same_buffer : Texture -> string -> bool)
    (scene : aiScene) (node : aiNode) (m : Model) :
  (forall t str, same_buffer t str = false) ->
  scene_ok scene node ->
  exists m' new,
    processNode same_buffer scene node m = Some m'
    /\ m_meshes m' = m_meshes m ++ new
    /\ m_loadedTextures m'
       = m_loadedTextures m ++ concat (textures <$> new)
    /\ (length <$> (textures <$> new))
       = (texture_requests scene <$> preorder node).
Proof.
  intros Hno [Hids Hok]. rewrite processNode_flat.
  by apply node_meshes_loop_fresh.
Qed.

Lemma processNode_loads_every_request_witness :
  exists m' new,
    processNode distinct_buffers (sample_aiScene 0) sample_root sample_model
    = Some m'
    /\ m_meshes m' = m_meshes sample_model ++ new
    /\ m_loadedTextures m'
       = m_loadedTextures sample_model ++ concat (textures <$> new)
    /\ (length <$> (textures <$> new))
       = (texture_requests (sample_aiScene 0) <$> preorder sample_root).
Proof.
  apply (processNode_loads_every_request distinct_buffers (sample_aiScene 0)
           sample_root sample_model).
  - reflexivity.
  - apply sample_scene_ok.
Defined.

(** *** The sample scene, loaded *)

Example sample_load :
  exists m,
    loadModel distinct_buffers (sample_importer (Some (sample_aiScene 0)))
              "Data/models/crate.obj" false sample_model
    = Some (true, m, [])
    /\ m_path m = "Data/models"%string
    /\ (length <$> (indices <$> m_meshes m)) = [6; 3; 3; 6]%nat
    /\ (texture_path <$> m_loadedTextures m)
       = concat (replicate 4 [ "Data/models/wood.png";
                               "Data/models/wood.png";
                               "Data/models/wood_spec.png" ]%string).
Proof. eexists. vm_compute. repeat split. Qed.

Example sample_load_without_slash :
  exists m,
    loadModel distinct_buffers (sample_importer (Some (sample_aiScene 0)))
              "crate.obj" false sample_model
    = Some (true, m, [])
    /\ m_path m = "crate.obj"%string
    /\ (texture_path <$> take 1 (m_loadedTextures m))
       = [ "crate.obj/wood.png"%string ].
Proof. eexists. vm_compute. repeat split. Qed.

Example sample_load_out_of_range :
  processNode distinct_buffers (sample_aiScene 0) (Build_aiNode [2%nat] [])
              sample_model
  = None.
Proof. reflexivity. Qed.

End ModelFileFacts.
